(** * deepsight: batched structures and attention, embedded and verified

    A shallow embedding of

      - [deepsight/structures/_bboxes.py]                 ([Bboxes],
                                                           [Bboxes_transforms],
                                                           [Bboxes_float])
      - [deepsight/structures/vision/_batched_images.py]  ([Batched_images],
                                                           [Batched_images_methods])
      - [deepsight/tasks/hoic/models/gahoi/_decoder.py]   ([Decoder_hoic])
      - [deepsight/models/gahoi/_decoder.py]              ([Decoder_gahoi])
      - [deepsight/utils/_misc.py]                        ([Utils_misc])
      - [deepsight/transforms/vision/_color.py]           ([Color])
      - [deepsight/models/vit/_config.py]                 ([Vit_config])

    with the tensor operations they call ([Torch]) and the structures they
    exchange ([Structures]), followed by the properties of these
    definitions (the modules whose names end in [_facts]).

    Numbers.  Box coordinates are floats in the source; they are modelled
    over the rationals [Q] (exact arithmetic, equality up to [==]), with
    [torch.finfo(torch.float32).eps] as the rational [2^-23].  The
    rationals have no [inf] and no [nan]: what the source computes when it
    divides by an image dimension that is 0 is modelled apart, in
    [Bboxes_float].  The attention layers need [exp] and are modelled over
    the reals [R], their logits over the reals with minus infinity.

    Objects.  [BoundingBoxes] methods return [self] or a new object and
    work in place on cloned buffers, so objects and coordinate buffers live
    in a store and methods are computations on it. *)

From Stdlib Require Import ZArith QArith Qminmax Qabs Reals List Lia Lra Bool.
From Stdlib Require Lqa.
From stdpp Require Import base list.

Set Default Proof Using "Type".

(* ====================================================================== *)
(** * Part I: the embedding                                                *)
(* ====================================================================== *)

(** ** Python outcomes: a value, a raised exception, or a stuck model state
    (a dangling reference, which no Python execution produces). *)

Inductive value_error : Type :=
  (* _bboxes.py *)
  | num_boxes_differ (n m : nat)
      (* "The number of bounding boxes must be the same, got {n} and {m}." *)
  | image_size_differs (s1 s2 : Z * Z)
      (* "The bounding box image size must be the same, got {s1} and {s2}." *)
  | normalization_differs
      (* "The bounding boxes must have the same normalization." *)
  (* _batched_images.py *)
  | no_images               (* "At least one image must be provided." *)
  | not_3d                  (* "All images must have 3 dimensions." *)
  | channels_differ         (* "All images must have the same number of channels." *)
  | dtypes_differ           (* "All images must have the same dtype." *)
  | devices_differ          (* "All images must be on the same device." *)
  | sizes_mask_incompatible (* "The image_sizes and mask are incompatible." *)
  | data_mask_devices       (* "The data and mask must be on the same device." *)
  | mask_not_bool           (* "The mask must be of dtype bool." *)
  | data_mask_incompatible  (* "The data and mask are incompatible." *)
  (* _decoder.py *)
  | edge_features_missing.  (* "edge features must be provided." *)

Inductive exn : Type :=
  | ValueError (e : value_error)
  | RuntimeError            (* raised by torch: shapes that do not fit *)
  | IndexError.

Inductive outcome (A : Type) : Type :=
  | Ok (a : A)
  | Raise (e : exn)
  | Stuck.
Arguments Ok {A} a.
Arguments Raise {A} e.
Arguments Stuck {A}.

Definition is_ValueError (e : exn) : bool :=
  match e with
  | ValueError _ => true
  | _ => false
  end.

Definition obind {A B} (m : outcome A) (f : A → outcome B) : outcome B :=
  match m with
  | Ok a => f a
  | Raise e => Raise e
  | Stuck => Stuck
  end.

Notation "'let*' x := m 'in' k" := (obind m (λ x, k))
  (at level 10, x name, m at level 100, k at level 200).

(** [mapM] and [foldM] over a list, stopping at the first exception. *)
Fixpoint mapM {A B} (f : A → outcome B) (l : list A) : outcome (list B) :=
  match l with
  | [] => Ok []
  | x :: l => let* y := f x in let* ys := mapM f l in Ok (y :: ys)
  end.

Fixpoint foldM {A B} (f : B → A → outcome B) (b : B) (l : list A) : outcome B :=
  match l with
  | [] => Ok b
  | x :: l => let* b' := f b x in foldM f b' l
  end.

(* ---------------------------------------------------------------------- *)
(** ** [deepsight/structures/_bboxes.py]                                    *)
(* ---------------------------------------------------------------------- *)

Module Bboxes.

Local Open Scope Q_scope.

Inductive BoundingBoxFormat : Type := XYXY | XYWH | CXCYWH.

#[global] Instance BoundingBoxFormat_eq_dec : EqDecision BoundingBoxFormat.
Proof. solve_decision. Defined.

(** *** Tensors.  A coordinate tensor has shape (N, 4): a list of rows. *)

Record row : Type := Row { r0 : Q; r1 : Q; r2 : Q; r3 : Q }.
Definition vec2 : Type := (Q * Q)%type.
Definition tensor : Type := list row.

(** [t[..., :2]], [t[..., 2:]] and [torch.cat([a, b], dim=-1)]. *)
Definition lo (r : row) : vec2 := (r0 r, r1 r).
Definition hi (r : row) : vec2 := (r2 r, r3 r).
Definition cat2 (a b : vec2) : row := Row (fst a) (snd a) (fst b) (snd b).
Definition cat (a b : list vec2) : tensor := zip_with cat2 a b.

(** [t[..., j]] and the in-place write of one column. *)
Definition col (j : nat) (r : row) : Q :=
  match j with
  | 0%nat => r0 r
  | 1%nat => r1 r
  | 2%nat => r2 r
  | _ => r3 r
  end.
Definition set_col (j : nat) (x : Q) (r : row) : row :=
  match j with
  | 0%nat => Row x (r1 r) (r2 r) (r3 r)
  | 1%nat => Row (r0 r) x (r2 r) (r3 r)
  | 2%nat => Row (r0 r) (r1 r) x (r3 r)
  | _ => Row (r0 r) (r1 r) (r2 r) x
  end.

(** Elementwise arithmetic on (N, 2) slices of one and the same tensor. *)
Definition vadd (a b : vec2) : vec2 := (fst a + fst b, snd a + snd b).
Definition vsub (a b : vec2) : vec2 := (fst a - fst b, snd a - snd b).
Definition vhalf (a : vec2) : vec2 := (fst a / 2, snd a / 2).
Definition vmin (a b : vec2) : vec2 := (Qmin (fst a) (fst b), Qmin (snd a) (snd b)).
Definition vmax (a b : vec2) : vec2 := (Qmax (fst a) (fst b), Qmax (snd a) (snd b)).
(** [torch.clamp(v, min=0)] *)
Definition vclamp_min0 (a : vec2) : vec2 := (Qmax 0 (fst a), Qmax 0 (snd a)).

Definition tadd (a b : list vec2) : list vec2 := zip_with vadd a b.
Definition tsub (a b : list vec2) : list vec2 := zip_with vsub a b.

(** [t / f] and [t * f] for a factor [f] of shape (4,), broadcast over
    rows.  Where a factor is 0 the source divides to [inf] or [nan]; the
    division of [Q] gives 0 there, so [row_div] stands for the source
    only where no factor is 0 (for that case see [Bboxes_float]). *)
Definition row_div (f r : row) : row :=
  Row (r0 r / r0 f) (r1 r / r1 f) (r2 r / r2 f) (r3 r / r3 f).
Definition row_mul (f r : row) : row :=
  Row (r0 r * r0 f) (r1 r * r1 f) (r2 r * r2 f) (r3 r * r3 f).

(** [torch.finfo(torch.float32).eps] *)
Definition eps : Q := 1 # 8388608.

(** *** Objects and the store.

    A [BoundingBoxes] object holds a reference to its coordinate buffer
    (the constructor's [torch.as_tensor(..).float()] makes no copy of a
    float tensor) and three immutable fields.  Objects and buffers live in
    a store; allocation appends, so a reference is an index. *)

Abbreviation loc := nat (only parsing).   (* tensor buffers *)
Abbreviation ref := nat (only parsing).   (* BoundingBoxes objects *)

Record BoundingBoxes : Type := mkBoundingBoxes {
  _coordinates : loc;
  _format : BoundingBoxFormat;
  _normalized : bool;
  _image_size : Z * Z            (* (H, W) *)
}.

Record store : Type := mkStore {
  tensors : list tensor;
  objects : list BoundingBoxes
}.

Definition M (A : Type) : Type := store → outcome (A * store).

#[global] Instance M_ret : MRet M := λ A a σ, Ok (a, σ).
#[global] Instance M_bind : MBind M := λ A B f m σ,
  match m σ with
  | Ok (a, σ') => f a σ'
  | Raise e => Raise e
  | Stuck => Stuck
  end.

Definition raise {A} (e : exn) : M A := λ _, Raise e.

Definition get_obj (r : ref) : M BoundingBoxes := λ σ,
  match objects σ !! r with
  | Some b => Ok (b, σ)
  | None => Stuck
  end.

(** Reading a buffer (through a view or a slice). *)
Definition read (l : loc) : M tensor := λ σ,
  match tensors σ !! l with
  | Some t => Ok (t, σ)
  | None => Stuck
  end.

(** A tensor produced by a torch operation occupies a new buffer. *)
Definition fresh (t : tensor) : M loc := λ σ,
  Ok (length (tensors σ), mkStore (tensors σ ++ [t]) (objects σ)).

(** An in-place torch operation overwrites the buffer it is applied to. *)
Definition write (l : loc) (t : tensor) : M unit := λ σ,
  match tensors σ !! l with
  | Some _ => Ok (tt, mkStore (<[l := t]> (tensors σ)) (objects σ))
  | None => Stuck
  end.

(** [BoundingBoxes.__init__]: the argument already is an (N, 4) float
    tensor, so [_check_coordinates] passes and the object shares its
    buffer. *)
Definition __init__ (coordinates : loc) (format : BoundingBoxFormat)
    (normalized : bool) (image_size : Z * Z) : M ref := λ σ,
  Ok (length (objects σ),
      mkStore (tensors σ)
              (objects σ ++ [mkBoundingBoxes coordinates format normalized image_size])).

(** torch's elementwise binary operations between two tensors whose
    trailing dimensions agree: equal first dimensions, or one of them 1
    (broadcast), or a RuntimeError. *)
Definition elementwise {A B C} (f : A → B → C) (a : list A) (b : list B)
  : M (list C) :=
  if decide (length a = length b) then mret (zip_with f a b)
  else match a, b with
       | [x], _ => mret (f x <$> b)
       | _, [y] => mret ((λ x, f x y) <$> a)
       | _, _ => raise RuntimeError
       end.

(** *** Conversion methods *)

Definition to_xyxy (self : ref) : M ref :=
  s ← get_obj self;
  match _format s with
  | XYXY => mret self
  | XYWH =>
      c ← read (_coordinates s);
      let x1y1 := lo <$> c in
      let x2y2 := tadd x1y1 (hi <$> c) in
      coordinates ← fresh (cat x1y1 x2y2);
      __init__ coordinates XYXY (_normalized s) (_image_size s)
  | CXCYWH =>
      c ← read (_coordinates s);
      let x1y1 := tsub (lo <$> c) (vhalf <$> (hi <$> c)) in
      let x2y2 := tadd x1y1 (hi <$> c) in
      coordinates ← fresh (cat x1y1 x2y2);
      __init__ coordinates XYXY (_normalized s) (_image_size s)
  end.

Definition to_xywh (self : ref) : M ref :=
  s ← get_obj self;
  match _format s with
  | XYXY =>
      c ← read (_coordinates s);
      let xy := lo <$> c in
      let wh := tsub (hi <$> c) xy in
      coordinates ← fresh (cat xy wh);
      __init__ coordinates XYWH (_normalized s) (_image_size s)
  | XYWH => mret self
  | CXCYWH =>
      c ← read (_coordinates s);
      let xy := tsub (lo <$> c) (vhalf <$> (hi <$> c)) in
      let wh := hi <$> c in
      coordinates ← fresh (cat xy wh);
      __init__ coordinates XYWH (_normalized s) (_image_size s)
  end.

Definition to_cxcywh (self : ref) : M ref :=
  s ← get_obj self;
  match _format s with
  | XYXY =>
      c ← read (_coordinates s);
      let xy := lo <$> c in
      let wh := tsub (hi <$> c) xy in
      coordinates ← fresh (cat (tadd xy (vhalf <$> wh)) wh);
      __init__ coordinates CXCYWH (_normalized s) (_image_size s)
  | XYWH =>
      c ← read (_coordinates s);
      let xy := lo <$> c in
      let wh := hi <$> c in
      coordinates ← fresh (cat (tadd xy (vhalf <$> wh)) wh);
      __init__ coordinates CXCYWH (_normalized s) (_image_size s)
  | CXCYWH => mret self
  end.

(** [torch.tensor([W, H, W, H])] for [H, W = self.image_size]. *)
Definition norm_factor (image_size : Z * Z) : row :=
  let '(H, W) := image_size in
  Row (inject_Z W) (inject_Z H) (inject_Z W) (inject_Z H).

Definition normalize (self : ref) : M ref :=
  s ← get_obj self;
  if _normalized s then mret self
  else
    c ← read (_coordinates s);
    coordinates ← fresh (row_div (norm_factor (_image_size s)) <$> c);
    __init__ coordinates (_format s) true (_image_size s).

Definition denormalize (self : ref) : M ref :=
  s ← get_obj self;
  if negb (_normalized s) then mret self
  else
    c ← read (_coordinates s);
    coordinates ← fresh (row_mul (norm_factor (_image_size s)) <$> c);
    __init__ coordinates (_format s) false (_image_size s).

Definition convert (self : ref) (format : option BoundingBoxFormat)
    (normalized : option bool) : M ref :=
  boxes ← match format with
          | Some XYXY => to_xyxy self
          | Some XYWH => to_xywh self
          | Some CXCYWH => to_cxcywh self
          | None => mret self
          end;
  match normalized with
  | Some true => normalize boxes
  | Some false => denormalize boxes
  | None => mret boxes
  end.

Definition convert_like (self other : ref) : M ref :=
  o ← get_obj other;
  convert self (Some (_format o)) (Some (_normalized o)).

(** *** Transform methods *)

(** [coords[:, j].op_(..)]: an in-place operation through a column view. *)
Definition inplace_col (l : loc) (j : nat) (f : row → Q → Q) : M unit :=
  c ← read l;
  write l ((λ r, set_col j (f r (col j r)) r) <$> c).

Definition horizontal_flip (self : ref) : M ref :=
  s ← get_obj self;
  let W := if _normalized s then 1 else inject_Z (snd (_image_size s)) in
  c ← read (_coordinates s);
  coords ← fresh c;                                   (* .clone() *)
  _ ← match _format s with
      | XYXY =>
          (* coords[:, [2, 0]] = coords[:, [0, 2]].sub_(W).neg_() *)
          c ← read coords;
          let tmp := (λ r, (col 0 r, col 2 r)) <$> c in      (* a copy *)
          let tmp := (λ v, (fst v - W, snd v - W)) <$> tmp in
          let tmp := (λ v, (- fst v, - snd v)) <$> tmp in
          write coords
            (zip_with (λ r v, set_col 0 (snd v) (set_col 2 (fst v) r)) c tmp)
      | XYWH =>
          (* coords[:, 0].add_(coords[:, 2]).sub_(W).neg_() *)
          _ ← inplace_col coords 0 (λ r x, x + col 2 r);
          _ ← inplace_col coords 0 (λ _ x, x - W);
          inplace_col coords 0 (λ _ x, - x)
      | CXCYWH =>
          (* coords[:, 0].sub_(W).neg_() *)
          _ ← inplace_col coords 0 (λ _ x, x - W);
          inplace_col coords 0 (λ _ x, - x)
      end;
  __init__ coords (_format s) (_normalized s) (_image_size s).

(** *** Operations *)

Definition __len__ (self : ref) : M nat :=
  s ← get_obj self;
  c ← read (_coordinates s);
  mret (length c).

Definition _check_compatibility (self other : ref) : M unit :=
  n ← __len__ self;
  m ← __len__ other;
  if negb (Nat.eqb n m) then raise (ValueError (num_boxes_differ n m))
  else
    s ← get_obj self;
    o ← get_obj other;
    if decide (_image_size s ≠ _image_size o)
    then raise (ValueError (image_size_differs (_image_size s) (_image_size o)))
    else mret tt.

(** The result is a new tensor of shape (N,). *)
Definition area (self : ref) : M (list Q) :=
  s ← get_obj self;
  c ← read (_coordinates s);
  match _format s with
  | XYXY =>
      let wh := tsub (hi <$> c) (lo <$> c) in
      mret ((λ v, fst v * snd v) <$> wh)
  | XYWH => mret (zip_with Qmult (col 2 <$> c) (col 3 <$> c))
  | CXCYWH => mret (zip_with Qmult (col 2 <$> c) (col 3 <$> c))
  end.

Definition union (self other : ref) : M ref :=
  boxes1 ← to_xyxy self;
  boxes2 ← convert_like other boxes1;
  _ ← _check_compatibility boxes1 boxes2;
  b1 ← get_obj boxes1;
  b2 ← get_obj boxes2;
  t1 ← read (_coordinates b1);
  t2 ← read (_coordinates b2);
  x1y1 ← elementwise vmin (lo <$> t1) (lo <$> t2);
  x2y2 ← elementwise vmax (hi <$> t1) (hi <$> t2);
  coordinates ← fresh (cat x1y1 x2y2);
  __init__ coordinates XYXY (_normalized b1) (_image_size b1).

Definition intersection (self other : ref) : M ref :=
  boxes1 ← to_xyxy self;
  boxes2 ← convert_like other boxes1;
  _ ← _check_compatibility boxes1 boxes2;
  b1 ← get_obj boxes1;
  b2 ← get_obj boxes2;
  t1 ← read (_coordinates b1);
  t2 ← read (_coordinates b2);
  x1y1 ← elementwise vmax (lo <$> t1) (lo <$> t2);
  x2y2 ← elementwise vmin (hi <$> t1) (hi <$> t2);
  let wh := vclamp_min0 <$> tsub x2y2 x1y1 in
  coordinates ← fresh (cat x1y1 wh);
  __init__ coordinates XYWH (_normalized b1) (_image_size b1).

Definition intersection_area (self other : ref) : M (list Q) :=
  s ← get_obj self;
  o ← get_obj other;
  if negb (eqb (_normalized s) (_normalized o))
  then raise (ValueError normalization_differs)
  else
    i ← intersection self other;
    area i.

Definition union_area (self other : ref) : M (list Q) :=
  s ← get_obj self;
  o ← get_obj other;
  if negb (eqb (_normalized s) (_normalized o))
  then raise (ValueError normalization_differs)
  else
    area1 ← area self;
    area2 ← area other;
    intersection_area ← intersection_area self other;
    sum ← elementwise Qplus area1 area2;
    elementwise Qminus sum intersection_area.

Definition iou (self other : ref) : M (list Q) :=
  boxes1 ← normalize self;
  boxes2 ← normalize other;
  intersection_area ← intersection_area boxes1 boxes2;
  union_area ← union_area boxes1 boxes2;
  elementwise Qdiv intersection_area ((λ u, u + eps) <$> union_area).

(** *** Observing the store *)

(** The value of an object: its coordinate tensor and its fields. *)
Record view : Type := mkView {
  coordinates : tensor;
  format : BoundingBoxFormat;
  normalized : bool;
  image_size : Z * Z
}.

Definition view_of (σ : store) (r : ref) : option view :=
  match objects σ !! r with
  | Some b =>
      match tensors σ !! _coordinates b with
      | Some t => Some (mkView t (_format b) (_normalized b) (_image_size b))
      | None => None
      end
  | None => None
  end.

(** A new object over a new buffer, for building inputs. *)
Definition BoundingBoxes_new (coords : tensor) (f : BoundingBoxFormat)
    (n : bool) (sz : Z * Z) : M ref :=
  l ← fresh coords;
  __init__ l f n sz.

Definition empty_store : store := mkStore [] [].

End Bboxes.

(** *** What the methods of [_bboxes.py] compute: the vocabulary of the
    properties *)

Module Bboxes_spec.
Import Bboxes.
Local Open Scope Q_scope.

(** [ext σ σ']: [σ'] keeps every buffer and object of [σ] as it is, and
    may hold new ones. *)
Definition ext (σ σ' : store) : Prop :=
  tensors σ `prefix_of` tensors σ' ∧ objects σ `prefix_of` objects σ'.

(** [returns m σ P]: from [σ], [m] returns a value and a store that
    extends [σ], and they satisfy [P]. *)
Definition returns {A} (m : M A) (σ : store) (P : A → store → Prop) : Prop :=
  ∃ a σ', m σ = Ok (a, σ') ∧ ext σ σ' ∧ P a σ'.

Definition format_row (f f2 : BoundingBoxFormat) (r : row) : row :=
  match f2, f with
  | XYXY, XYXY => r
  | XYXY, XYWH => cat2 (lo r) (vadd (lo r) (hi r))
  | XYXY, CXCYWH =>
      cat2 (vsub (lo r) (vhalf (hi r))) (vadd (vsub (lo r) (vhalf (hi r))) (hi r))
  | XYWH, XYXY => cat2 (lo r) (vsub (hi r) (lo r))
  | XYWH, XYWH => r
  | XYWH, CXCYWH => cat2 (vsub (lo r) (vhalf (hi r))) (hi r)
  | CXCYWH, XYXY =>
      cat2 (vadd (lo r) (vhalf (vsub (hi r) (lo r)))) (vsub (hi r) (lo r))
  | CXCYWH, XYWH => cat2 (vadd (lo r) (vhalf (hi r))) (hi r)
  | CXCYWH, CXCYWH => r
  end.

Definition normalization_row (sz : Z * Z) (n n2 : bool) (r : row) : row :=
  match n, n2 with
  | false, true => row_div (norm_factor sz) r
  | true, false => row_mul (norm_factor sz) r
  | _, _ => r
  end.

(** The shape of every conversion: from a store where [self] denotes [v],
    it returns a reference that denotes the converted value; the store is
    only extended. *)
Definition converts (m : M ref) (σ : store) (v' : view) : Prop :=
  returns m σ (λ r σ', view_of σ' r = Some v').

(** The value [convert] computes. *)
Definition convert_view (f2 : BoundingBoxFormat) (n2 : bool) (v : view) : view :=
  mkView (normalization_row (image_size v) (normalized v) n2 <$>
            (format_row (format v) f2 <$> coordinates v))
         f2 n2 (image_size v).

Definition row_eq (a b : row) : Prop :=
  r0 a == r0 b ∧ r1 a == r1 b ∧ r2 a == r2 b ∧ r3 a == r3 b.

Definition tensor_eq (a b : tensor) : Prop := Forall2 row_eq a b.

Definition flip_width (v : view) : Q :=
  if normalized v then 1 else inject_Z (snd (image_size v)).

Definition flip_row (f : BoundingBoxFormat) (W : Q) (r : row) : row :=
  match f with
  | XYXY => Row (- (r2 r - W)) (r1 r) (- (r0 r - W)) (r3 r)
  | XYWH => Row (- (r0 r + r2 r - W)) (r1 r) (r2 r) (r3 r)
  | CXCYWH => Row (- (r0 r - W)) (r1 r) (r2 r) (r3 r)
  end.

Definition raises_ValueError {A} (m : M A) (σ : store) : Prop :=
  ∃ e, m σ = Raise e ∧ is_ValueError e = true.

Definition area_row (f : BoundingBoxFormat) (r : row) : Q :=
  match f with
  | XYXY => (r2 r - r0 r) * (r3 r - r1 r)
  | _ => r2 r * r3 r
  end.

(** The operands [boxes1] and [boxes2] of [union] and [intersection]. *)
Definition operand1 (va : view) : view :=
  mkView (format_row (format va) XYXY <$> coordinates va)
         XYXY (normalized va) (image_size va).

Definition operand2 (va vb : view) : view := convert_view XYXY (normalized va) vb.

Definition union_row (a b : row) : row :=
  cat2 (vmin (lo a) (lo b)) (vmax (hi a) (hi b)).

Definition intersection_row (a b : row) : row :=
  cat2 (vmax (lo a) (lo b))
       (vclamp_min0 (vsub (vmin (hi a) (hi b)) (vmax (lo a) (lo b)))).

(** With different box counts or image sizes the compatibility check
    raises, in [union] and [intersection] alike. *)
Definition compatibility_error (va vb : view) : exn :=
  if negb (length (coordinates va) =? length (coordinates vb))%nat
  then ValueError (num_boxes_differ (length (coordinates va)) (length (coordinates vb)))
  else ValueError (image_size_differs (image_size va) (image_size vb)).

Definition compatible (va vb : view) : Prop :=
  length (coordinates va) = length (coordinates vb) ∧ image_size va = image_size vb.

(** The value of [intersection(other)]. *)
Definition intersection_view (va vb : view) : view :=
  mkView (zip_with intersection_row (coordinates (operand1 va))
                                    (coordinates (operand2 va vb)))
         XYWH (normalized va) (image_size va).

(** The two single-box sets [[0,0,2,2]] and [[1,1,3,3]], XYXY, not
    normalized, image size (10, 10). *)
Definition example_boxes : store :=
  mkStore [[Row 0 0 2 2]; [Row 1 1 3 3]]
          [mkBoundingBoxes 0 XYXY false (10, 10)%Z;
           mkBoundingBoxes 1 XYXY false (10, 10)%Z].

(** One box on an image of size (0, 0). *)
Definition degenerate_image : store :=
  mkStore [[Row 1 1 2 2]] [mkBoundingBoxes 0 XYXY false (0, 0)%Z].

(** Boxes in different formats, one of them normalized, and a set of
    another size. *)
Definition mixed_boxes : store :=
  mkStore [[Row 0 0 2 2]; [Row (1#5) (1#5) (1#10) (1#10)]; [Row 0 0 1 1; Row 1 1 2 2];
           [Row 0 0 2 2]]
          [mkBoundingBoxes 0 XYXY false (10, 10)%Z;
           mkBoundingBoxes 1 CXCYWH true (10, 10)%Z;
           mkBoundingBoxes 2 XYXY false (10, 10)%Z;
           mkBoundingBoxes 3 XYWH false (10, 10)%Z].


End Bboxes_spec.

(* ---------------------------------------------------------------------- *)
(** ** [deepsight/structures/vision/_batched_images.py]                     *)
(* ---------------------------------------------------------------------- *)

Module Batched_images.

(** *** Tensors: a shape, dtype and device, and the element at each index.
    Only indices within the shape are meaningful. *)

Inductive dtype : Type :=
  torch_bool | torch_uint8 | torch_int64 | torch_float32 | torch_float64.
Inductive device : Type := cpu | cuda (index : nat).

#[global] Instance dtype_eq_dec : EqDecision dtype.
Proof. solve_decision. Defined.
#[global] Instance device_eq_dec : EqDecision device.
Proof. solve_decision. Defined.

Record Tensor (A : Type) : Type := mkTensor {
  shape : list nat;
  t_dtype : dtype;
  t_device : device;
  at_ : list nat → A
}.
Arguments mkTensor {A} shape t_dtype t_device at_.
Arguments shape {A} t.
Arguments t_dtype {A} t.
Arguments t_device {A} t.
Arguments at_ {A} t idx.

Definition ndim {A} (t : Tensor A) : nat := length (shape t).

(** [t.shape[i]] / [t.size(i)]: an IndexError beyond the rank. *)
Definition size {A} (t : Tensor A) (i : nat) : outcome nat :=
  match shape t !! i with
  | Some n => Ok n
  | None => Raise IndexError
  end.

(** [t[i]], as in [for m in t] *)
Definition select {A} (t : Tensor A) (i : nat) : Tensor A :=
  mkTensor (tail (shape t)) (t_dtype t) (t_device t) (λ idx, at_ t (i :: idx)).

(** Sum of [f 0 .. f (n-1)]. *)
Fixpoint sum_upto (n : nat) (f : nat → Z) : Z :=
  match n with
  | O => 0
  | S k => sum_upto k f + f k
  end.

(** [t.sum(0)]: on a bool tensor the result counts in int64; a 0-d tensor
    is summed to itself. *)
Definition sum0 {A} (val : A → Z) (t : Tensor A) : Tensor Z :=
  match shape t with
  | [] => mkTensor [] torch_int64 (t_device t) (λ idx, val (at_ t idx))
  | n :: rest =>
      mkTensor rest torch_int64 (t_device t)
               (λ idx, sum_upto n (λ j, val (at_ t (j :: idx))))
  end.

Definition numel {A} (t : Tensor A) : nat := foldr Nat.mul 1%nat (shape t).

(** [t.item()]: the only element of a one-element tensor. *)
Definition item {A} (t : Tensor A) : outcome A :=
  if decide (numel t = 1%nat)
  then Ok (at_ t (replicate (ndim t) 0%nat))
  else Raise RuntimeError.

(** The stop of the Python slice [:s] on a dimension of [n] entries. *)
Definition slice_stop (s : Z) (n : nat) : nat :=
  if (s <? 0)%Z then Z.to_nat (Z.max 0 (s + Z.of_nat n))
  else Z.to_nat (Z.min s (Z.of_nat n)).

Section WithElements.

Context {A : Type}.

Record BatchedImages : Type := mkBatchedImages {
  _data : Tensor A;                       (* (B, C, H, W) *)
  _image_sizes : list (Z * Z);            (* (h, w) per item *)
  _mask : Tensor bool                     (* (B, H, W); True = padded *)
}.

(** *** Private helper functions *)

Definition _compute_sizes_from_mask (mask : Tensor bool) : outcome (list (Z * Z)) :=
  mapM (λ i,
          let m := select mask i in                     (* for m in mask *)
          (* TODO: check this code *)
          let* m0 := size m 0 in
          let* s := item (sum0 (λ z, z) (sum0 Z.b2z m)) in
          let h := (Z.of_nat m0 - s)%Z in
          let* m1 := size m 1 in
          let* s' := item (sum0 (λ z, z) (sum0 Z.b2z m)) in
          let w := (Z.of_nat m1 - s')%Z in
          Ok (h, w))
       (seq 0 (nth 0 (shape mask) 0%nat)).

(** [mask[i, :size[0], :size[1]] = False] *)
Definition assign_false (mask : Tensor bool) (i : nat) (size : Z * Z) : Tensor bool :=
  mkTensor (shape mask) (t_dtype mask) (t_device mask)
    (λ idx,
       match idx with
       | [b; y; x] =>
           if (b =? i)%nat
              && (y <? slice_stop (fst size) (nth 1 (shape mask) 0%nat))%nat
              && (x <? slice_stop (snd size) (nth 2 (shape mask) 0%nat))%nat
           then false
           else at_ mask idx
       | _ => at_ mask idx
       end).

Definition _compute_mask_from_sizes (sizes : list (Z * Z)) (max_height max_width : nat)
    (dev : device) : Tensor bool :=
  let mask := mkTensor [length sizes; max_height; max_width] torch_bool dev (λ _, true) in
  fold_left (λ mask '(i, size), assign_false mask i size)
            (zip (seq 0 (length sizes)) sizes) mask.

(** [image.shape[0]] is read only once all images are known to be 3-D. *)
Definition _check_images (images : list (Tensor A)) : outcome unit :=
  match images with
  | [] => Raise (ValueError no_images)
  | first :: _ =>
      if existsb (λ image, negb (ndim image =? 3)%nat) images
      then Raise (ValueError not_3d)
      else if existsb (λ image,
                         negb (nth 0 (shape image) 0 =? nth 0 (shape first) 0)%nat)
                      images
      then Raise (ValueError channels_differ)
      else if existsb (λ image, negb (bool_decide (t_dtype image = t_dtype first)))
                      images
      then Raise (ValueError dtypes_differ)
      else if existsb (λ image, negb (bool_decide (t_device image = t_device first)))
                      images
      then Raise (ValueError devices_differ)
      else Ok tt
  end.

(** [data.shape[0]] and [mask.shape[0]] raise an IndexError on a tensor
    without dimensions; the slices [shape[2:]] and [shape[1:]] never
    raise. *)
Definition _check_data_mask (data : Tensor A) (mask : Tensor bool) : outcome unit :=
  let* d0 := size data 0 in
  let* m0 := size mask 0 in
  if negb (d0 =? m0)%nat
     || negb (bool_decide (drop 2 (shape data) = drop 1 (shape mask)))
  then Raise (ValueError data_mask_incompatible)
  else Ok tt.

(** *** Constructor and factory *)

Definition __init__ (data : Tensor A) (image_sizes : option (list (Z * Z)))
    (mask : option (Tensor bool)) (check_validity : bool) : outcome BatchedImages :=
  let* r :=
    match image_sizes, mask
    return outcome (list (Z * Z) * Tensor bool * bool) with
    | None, None =>
        let* d0 := size data 0 in
        let* d2 := size data 2 in
        let* d3 := size data 3 in
        Ok (replicate d0 (Z.of_nat d2, Z.of_nat d3),
            mkTensor [d0; d2; d3] torch_bool (t_device data) (λ _, false),
            false)
    | None, Some mask =>
        let* image_sizes := _compute_sizes_from_mask mask in
        Ok (image_sizes, mask, check_validity)
    | Some image_sizes, None =>
        let* d2 := size data 2 in
        let* d3 := size data 3 in
        Ok (image_sizes,
            _compute_mask_from_sizes image_sizes d2 d3 (t_device data),
            check_validity)
    | Some image_sizes, Some mask =>
        if check_validity then
          let* mask_image_sizes := _compute_sizes_from_mask mask in
          if negb (bool_decide (image_sizes = mask_image_sizes))
          then Raise (ValueError sizes_mask_incompatible)
          else Ok (image_sizes, mask, check_validity)
        else Ok (image_sizes, mask, check_validity)
    end in
  let '(image_sizes, mask, check_validity) :=
    (r : list (Z * Z) * Tensor bool * bool) in
  let* _ :=
    if check_validity then
      if negb (bool_decide (t_device mask = t_device data))
      then Raise (ValueError data_mask_devices)
      else if negb (bool_decide (t_dtype mask = torch_bool))
      then Raise (ValueError mask_not_bool)
      else _check_data_mask data mask
    else Ok tt in
  Ok (mkBatchedImages data image_sizes mask).

(** [data[i, :, :image.shape[1], :image.shape[2]].copy_(image)]: the slice
    and the image have to agree in shape (torch would also broadcast
    dimensions of size 1, which [batch] never needs). *)
Definition slice_copy_ (data : Tensor A) (i : nat) (image : Tensor A)
  : outcome (Tensor A) :=
  let* h := size image 1 in
  let* w := size image 2 in
  let sh := Nat.min h (nth 2 (shape data) 0%nat) in
  let sw := Nat.min w (nth 3 (shape data) 0%nat) in
  if bool_decide (shape image = [nth 1 (shape data) 0%nat; sh; sw])
  then
    Ok (mkTensor (shape data) (t_dtype data) (t_device data)
          (λ idx,
             match idx with
             | [b; c; y; x] =>
                 if (b =? i)%nat && (y <? sh)%nat && (x <? sw)%nat
                 then at_ image [c; y; x]
                 else at_ data idx
             | _ => at_ data idx
             end))
  else Raise RuntimeError.

(** [max(..)] over a non-empty list. *)
Definition max_of (l : list nat) : nat := foldr Nat.max 0%nat l.

(** [torch.full(size, fill_value, dtype=.., device=..)] converts the
    Python number [fill_value] to the dtype and raises a RuntimeError
    ("value cannot be converted to type uint8_t without overflow") where
    the dtype cannot hold it.  The conversion is torch's, not this
    repository's: it is the parameter [to_dtype], with [None] for the
    refusal. *)
Definition full {P} (to_dtype : dtype → P → option A) (size : list nat)
    (fill_value : P) (dt : dtype) (dev : device) : outcome (Tensor A) :=
  match to_dtype dt fill_value with
  | Some x => Ok (mkTensor size dt dev (λ _, x))
  | None => Raise RuntimeError
  end.

Definition batch {P} (to_dtype : dtype → P → option A)
    (images : list (Tensor A)) (padding_value : P) : outcome BatchedImages :=
  let* _ := _check_images images in
  let* image_sizes :=
    mapM (λ img, let* h := size img 1 in let* w := size img 2 in Ok (h, w))
         images in
  let max_height := max_of (fst <$> image_sizes) in
  let max_width := max_of (snd <$> image_sizes) in
  let* first := match images with                       (* images[0] *)
                | first :: _ => Ok first
                | [] => Raise IndexError
                end in
  let* c := size first 0 in
  let* data := full to_dtype [length images; c; max_height; max_width]
                    padding_value (t_dtype first) (t_device first) in
  let* data := foldM (λ data '(i, image), slice_copy_ data i image) data
                     (zip (seq 0 (length images)) images) in
  __init__ data
           (Some ((λ s, (Z.of_nat (fst s), Z.of_nat (snd s))) <$> image_sizes))
           None false.

End WithElements.

Arguments BatchedImages A : clear implicits.

End Batched_images.

(** *** The vocabulary of the properties of [_batched_images.py] *)

Module Batched_images_spec.
Import Batched_images.

(** The region [:h, :w] of an item of padded size (H, W). *)
Definition in_region (size : Z * Z) (H W y x : nat) : bool :=
  (y <? slice_stop (fst size) H)%nat && (x <? slice_stop (snd size) W)%nat.

Section Batch.

Context {A : Type}.
Implicit Types (images : list (Tensor A)) (image : Tensor A).

Definition channels image : nat := nth 0 (shape image) 0%nat.

Definition height image : nat := nth 1 (shape image) 0%nat.

Definition width image : nat := nth 2 (shape image) 0%nat.

(** The images disagree in [f]: two of them have different values. *)
Definition disagree {X} (f : Tensor A → X) images : Prop :=
  ∃ a b, a ∈ images ∧ b ∈ images ∧ f a ≠ f b.

(** The inputs [batch] refuses. *)
Definition refused images : Prop :=
  images = [] ∨ (∃ image, image ∈ images ∧ ndim image ≠ 3%nat)
  ∨ disagree channels images ∨ disagree t_dtype images ∨ disagree t_device images.

Definition accepted_like (first image : Tensor A) : Prop :=
  ndim image = 3%nat ∧ channels image = channels first
  ∧ t_dtype image = t_dtype first ∧ t_device image = t_device first.

(** What [batch] returns on accepted images, for a padding value that
    [torch.full] converts to [padding_value]. *)
Definition batched (images : list (Tensor A)) (padding_value : A)
    (first : Tensor A) (bi : BatchedImages A) : Prop :=
  let Hm := max_of (height <$> images) in
  let Wm := max_of (width <$> images) in
  shape (_data bi) = [length images; channels first; Hm; Wm]
  ∧ t_dtype (_data bi) = t_dtype first ∧ t_device (_data bi) = t_device first
  ∧ shape (_mask bi) = [length images; Hm; Wm]
  ∧ _image_sizes bi = (λ image, (Z.of_nat (height image), Z.of_nat (width image))) <$> images
  ∧ ∀ i image, images !! i = Some image → ∀ c y x,
      at_ (_data bi) [i; c; y; x]
      = (if (y <? height image)%nat && (x <? width image)%nat
         then at_ image [c; y; x] else padding_value)
      ∧ at_ (_mask bi) [i; y; x]
        = negb ((y <? height image)%nat && (x <? width image)%nat).

End Batch.

(** The example of the specification: images of shapes (3, 4, 5) and
    (3, 6, 3). *)
Definition img_a : Tensor Z := mkTensor [3; 4; 5]%nat torch_int64 cpu (λ _, 1%Z).

Definition img_b : Tensor Z := mkTensor [3; 6; 3]%nat torch_int64 cpu (λ _, 2%Z).

(** One image of dtype uint8. *)
Definition img_u8 : Tensor Z := mkTensor [3; 2; 2]%nat torch_uint8 cpu (λ _, 7%Z).

(** Two Python numbers and what [torch.full] makes of them in each dtype,
    for tensors whose elements are written as integers: 0 is held by
    every dtype; 300 is [True] in bool, is refused by uint8, whose
    largest value is 255, and is held by the other dtypes. *)
Inductive number : Type := number_0 | number_300.

Definition number_to_dtype (dt : dtype) (v : number) : option Z :=
  match v, dt with
  | number_0, _ => Some 0%Z
  | number_300, torch_bool => Some 1%Z
  | number_300, torch_uint8 => None
  | number_300, _ => Some 300%Z
  end.

(** What [_compute_sizes_from_mask] returns for an item whose valid region
    is (h, w) inside a padded (H, W) item: both components are reduced by
    the number of padded pixels, H * W - h * w. *)
Definition sizes_of_padded (H W : nat) (size : Z * Z) : Z * Z :=
  let pad := (Z.of_nat (H * W)
              - Z.of_nat (slice_stop (fst size) H * slice_stop (snd size) W))%Z in
  ((Z.of_nat H - pad)%Z, (Z.of_nat W - pad)%Z).

(** A data tensor of shape (1, 3, 2, 2) for the mask of one 1 x 2 image
    padded to 2 x 2. *)
Definition padded_data : Tensor Z :=
  mkTensor [1; 3; 2; 2]%nat torch_int64 cpu (λ _, 0%Z).

Definition padded_mask : Tensor bool :=
  _compute_mask_from_sizes [(1, 2)%Z] 2 2 cpu.

End Batched_images_spec.

(* ---------------------------------------------------------------------- *)
(** ** Tensor operations the decoders call (torch, and deepsight's scatter
       operations)                                                          *)
(* ---------------------------------------------------------------------- *)

Module Torch.

Local Open Scope R_scope.

(** Float tensors as nested lists over [R]: [list R] is 1-D, [list (list R)]
    is 2-D, and so on. *)

Definition sum (v : list R) : R := foldr Rplus 0 v.
Definition dot (a b : list R) : R := sum (zip_with Rmult a b).

(** [n] consecutive chunks of [k] entries: [.view(.., n, k)] on a last
    dimension of [n * k] entries. *)
Fixpoint chunks {A} (n k : nat) (l : list A) : list (list A) :=
  match n with
  | O => []
  | S n => take k l :: chunks n k (drop k l)
  end.

(** [.view(-1, w)] of contiguous data: the entries re-flowed into rows of
    [w]; a RuntimeError when they do not fill whole rows. *)
Definition view_rows {A} (w : nat) (flat : list A) : outcome (list (list A)) :=
  if decide (w = 0%nat) then Raise RuntimeError
  else if decide (length flat `mod` w = 0)%nat
       then Ok (chunks (length flat `div` w) w flat)
       else Raise RuntimeError.

(** [.view(n, w)] with both sizes given. *)
Definition view_as {A} (n w : nat) (flat : list A) : outcome (list (list A)) :=
  if decide (length flat = n * w)%nat then Ok (chunks n w flat)
  else Raise RuntimeError.

(** [.transpose] of the two outer dimensions of a tensor whose second
    dimension has [n] entries. *)
Definition transpose {A} (n : nat) (t : list (list A)) : list (list A) :=
  (λ h, omap (λ row, row !! h) t) <$> seq 0 n.

(** [nn.Linear]: [y = x W^T + b] on the last dimension. *)
Record Linear : Type := mkLinear {
  in_features : nat;
  out_features : nat;
  weight : list (list R);            (* (out_features, in_features) *)
  bias : option (list R)             (* (out_features,) *)
}.

Definition linear (l : Linear) (x : list R) : outcome (list R) :=
  if decide (length x = in_features l)
  then Ok (match bias l with
           | Some b => zip_with Rplus (dot x <$> weight l) b
           | None => dot x <$> weight l
           end)
  else Raise RuntimeError.

Definition relu (x : R) : R := Rmax 0 x.
Definition leaky_relu (negative_slope x : R) : R :=
  if Rle_dec 0 x then x else negative_slope * x.

(** Elementwise binary operations with broadcasting on one dimension:
    equal sizes, or one of them 1, or a RuntimeError. *)
Definition broadcast2 {A B C} (f : A → B → outcome C) (a : list A) (b : list B)
  : outcome (list C) :=
  if decide (length a = length b) then mapM (λ p, f (fst p) (snd p)) (zip a b)
  else match a, b with
       | [x], _ => mapM (f x) b
       | _, [y] => mapM (λ x, f x y) a
       | _, _ => Raise RuntimeError
       end.

Definition add1 : list R → list R → outcome (list R) :=
  broadcast2 (λ x y, Ok (x + y)).
Definition add2 : list (list R) → list (list R) → outcome (list (list R)) :=
  broadcast2 add1.

(** [t[index]] on the first dimension. *)
Definition index_select {A} (t : list A) (index : list nat) : outcome (list A) :=
  mapM (λ i, match t !! i with
             | Some r => Ok r
             | None => Raise IndexError
             end) index.

(** *** Logits that may be minus infinity *)

Inductive xreal : Type := Fin (r : R) | NegInf.

Definition xadd (a b : xreal) : xreal :=
  match a, b with
  | Fin x, Fin y => Fin (x + y)
  | _, _ => NegInf
  end.

Definition xexp (a : xreal) : R :=
  match a with
  | Fin x => exp x
  | NegInf => 0
  end.

(** [softmax(row, dim=-1)].  For a row without a finite entry the quotient
    is 0/0 (nan in torch); no property below relies on that case. *)
Definition softmax (row : list xreal) : list R :=
  (λ x, xexp x / sum (xexp <$> row)) <$> row.

(** [cpb.masked_fill_(mask, -torch.inf)] on one row of keys. *)
Definition masked_fill (row : list R) (mask : list bool) : list xreal :=
  zip_with (λ x (m : bool), if m then NegInf else Fin x) row mask.

(** [F.scaled_dot_product_attention(q, k, v, attn_mask=m)] for one batch
    item and head, without dropout: [softmax(q k^T / sqrt(E) + m) v] with
    [E] the size of a query vector.  [q] is (Q, E), [k] is (K, E), [v] is
    (K, Ev), [m] is (Q, K). *)
Definition sdpa_scale (q : list (list R)) : R :=
  / sqrt (INR (length (default [] (head q)))).

Definition sdpa_logits (q k : list (list R)) (m : list (list xreal))
  : list (list xreal) :=
  zip_with (λ qi mi,
              zip_with (λ kj mij, xadd (Fin (dot qi kj * sdpa_scale q)) mij) k mi)
           q m.

Definition sdpa_weights (q k : list (list R)) (m : list (list xreal))
  : list (list R) :=
  softmax <$> sdpa_logits q k m.

(** [w @ v]: row [i] of the result is the sum of the rows of [v] weighted
    by [w[i]]. *)
Definition weighted_sum (d : nat) (w : list R) (v : list (list R)) : list R :=
  (λ c, sum (zip_with (λ wj vj, wj * nth c vj 0) w v)) <$> seq 0 d.

Definition scaled_dot_product_attention (q k v : list (list R))
    (m : list (list xreal)) : list (list R) :=
  (λ w, weighted_sum (length (default [] (head v))) w v) <$> sdpa_weights q k m.

(** *** deepsight's scatter operations

    [deepsight.ops.geometric] and [deepsight.utils.scatter] are not part
    of the sources at hand. *)

(** Modelled from the spec: [scatter_softmax(src, index, dim=0)], missing
    from the sources.  "Logits are grouped by node index and
    softmax-normalized within each node's edge group independently."
    [src] is (E, H), [index] is (E,). *)
Definition group_total (src : list (list R)) (index : list nat) (n h : nat) : R :=
  sum ((λ p, if decide (snd p = n) then exp (nth h (fst p) 0) else 0)
         <$> zip src index).

Definition scatter_softmax (src : list (list R)) (index : list nat)
  : outcome (list (list R)) :=
  if decide (length src = length index)
  then Ok ((λ p, imap (λ h x, exp x / group_total src index (snd p) h) (fst p))
             <$> zip src index)
  else Raise RuntimeError.

(** Modelled from the spec: [scatter_sum(src, index, dim=0,
    dim_output_size=n)], missing from the sources.  "Sum reduction applied
    independently within groups of elements sharing a common index"; "the
    segment-sum must produce an explicit zero-vector for any node index
    that receives no incoming edges, sized to the full node count of the
    batch, not just the indices that appear in the edge list"; the tensor
    engine offers "scatter/segment reduction with explicit output-size
    control".  Without an output size the result covers the indices that
    appear: up to the largest one.  [src] is (E, H, d); [zero] is the
    all-zero (H, d) entry of the result. *)
Definition add_entry (a b : list (list R)) : list (list R) :=
  zip_with (zip_with Rplus) a b.

Definition scatter_sum (zero : list (list R)) (src : list (list (list R)))
    (index : list nat) (dim_output_size : option nat)
  : outcome (list (list (list R))) :=
  let size := match dim_output_size with
              | Some n => n
              | None => match index with
                        | [] => 0%nat
                        | _ => S (foldr Nat.max 0%nat index)
                        end
              end in
  if decide (length src = length index) then
    if forallb (λ i, i <? size)%nat index then
      Ok ((λ n, foldr (λ p acc, if decide (snd p = n) then add_entry acc (fst p) else acc)
                      zero (zip src index))
            <$> seq 0 size)
    else Raise RuntimeError
  else Raise RuntimeError.

Definition zeros (h d : nat) : list (list R) := replicate h (replicate d 0).

End Torch.

(* ---------------------------------------------------------------------- *)
(** ** Structures the decoders use                                          *)
(* ---------------------------------------------------------------------- *)

Module Structures.

(** Modelled from the spec: [Graph] / [BatchedGraphs]
    ([deepsight.structures]), missing from the sources.  "node_features
    (N x D, concatenation across the batch), edge_features (optional),
    adjacency_matrix (sparse index list over the concatenated node index
    space)"; [replace(node_features=..)] "swaps payload keeping
    adjacency". *)
Record Graph : Type := mkGraph {
  node_features : list (list R);
  adjacency_indices : list nat * list nat;     (* adjacency_matrix().indices() *)
  edge_features : option (list (list R))
}.

Definition num_nodes (g : Graph) : nat := length (node_features g).
Definition replace (g : Graph) (node_features : list (list R)) : Graph :=
  mkGraph node_features (adjacency_indices g) (edge_features g).

(** Modelled from the spec: [BatchedSequences], missing from the sources.
    "data (B x Lmax x D), mask (B x Lmax)"; True marks padding. *)
Record BatchedSequences : Type := mkBatchedSequences {
  data : list (list (list R));
  mask : list (list bool)
}.

End Structures.

(* ---------------------------------------------------------------------- *)
(** ** [deepsight/tasks/hoic/models/gahoi/_decoder.py]                      *)
(* ---------------------------------------------------------------------- *)

Module Decoder_hoic.
Import Torch Structures.
Local Open Scope R_scope.

(** *** GraphAttention *)

Record GraphAttention : Type := mkGraphAttention {
  num_heads : nat;
  head_dim : nat;
  hidden_dim : nat;
  ni_proj : Linear;
  nj_proj : Linear;
  e_proj : option Linear;
  negative_slope : R;
  attn_proj : list (list R);          (* (num_heads, hidden_dim) *)
  message_proj : Linear;
  out_proj : Linear
}.

(** What [GraphAttention.__init__] builds from its arguments (the initial
    weights are random); it raises a ValueError unless [num_heads]
    divides [node_dim]. *)
Definition shaped (l : Linear) (i o : nat) (b : bool) : Prop :=
  in_features l = i ∧ out_features l = o
  ∧ length (weight l) = o ∧ Forall (λ r, length r = i) (weight l)
  ∧ match bias l with Some v => b = true ∧ length v = o | None => b = false end.

Definition constructed (node_dim : nat) (edge_dim hidden_dim_arg : option nat)
    (share_weights use_bias : bool) (heads : nat) (self : GraphAttention) : Prop :=
  let hidden := default node_dim hidden_dim_arg in
  (node_dim `mod` heads = 0)%nat
  ∧ num_heads self = heads
  ∧ head_dim self = (node_dim `div` heads)%nat
  ∧ hidden_dim self = hidden
  ∧ shaped (ni_proj self) node_dim (hidden * heads) use_bias
  ∧ (if share_weights then nj_proj self = ni_proj self
     else shaped (nj_proj self) node_dim (hidden * heads) use_bias)
  ∧ match edge_dim, e_proj self with
    | Some d, Some p => shaped p d (hidden * heads) use_bias
    | None, None => True
    | _, _ => False
    end
  ∧ length (attn_proj self) = heads
  ∧ Forall (λ r, length r = hidden) (attn_proj self)
  ∧ shaped (message_proj self) (node_dim + default 0%nat edge_dim) node_dim use_bias
  ∧ shaped (out_proj self) node_dim node_dim use_bias.

(** [torch.cat((a, b), dim=-1)] *)
Definition cat_last (a b : list (list R)) : outcome (list (list R)) :=
  if decide (length a = length b) then Ok (zip_with app a b)
  else Raise RuntimeError.

(** [(hidden * attn_proj).sum(dim=-1)] for one edge: (H, d) times (H, d). *)
Definition head_logits (attn_proj hidden : list (list R)) : outcome (list R) :=
  broadcast2 (λ hv pv,
                let* prod := broadcast2 (λ x y, Ok (x * y)) hv pv in
                Ok (sum prod))
             hidden attn_proj.

(** [messages * attn_scores.unsqueeze(-1)]: (E, H, d) times (E, H, 1). *)
Definition scale_messages
  : list (list (list R)) → list (list R) → outcome (list (list (list R))) :=
  broadcast2 (broadcast2 (λ mv s, Ok ((λ x, x * s) <$> mv))).

(** Lines 93-114 of [forward]: the attention scores (E, H), with [nj]. *)
Definition attention (self : GraphAttention) (graphs : Graph)
  : outcome (list (list R) * list (list R)) :=
  let* ni := index_select (node_features graphs) (fst (adjacency_indices graphs)) in
  let* nj := index_select (node_features graphs) (snd (adjacency_indices graphs)) in
  let* ni_hidden := mapM (linear (ni_proj self)) ni in
  let* nj_hidden := mapM (linear (nj_proj self)) nj in
  let* hidden :=
    match e_proj self return outcome (list (list R)) with
    | Some e_proj =>
        match edge_features graphs with
        | None => Raise (ValueError edge_features_missing)
        | Some edge_features =>
            let* e_hidden := mapM (linear e_proj) edge_features in
            let* s := add2 ni_hidden nj_hidden in
            add2 s e_hidden
        end
    | None => add2 ni_hidden nj_hidden
    end in
  let hidden :=
    (λ row : list R, leaky_relu (negative_slope self) <$> row) <$> hidden in
  (* hidden.view(-1, self.num_heads, self.hidden_dim) *)
  let* hidden := view_rows (num_heads self * hidden_dim self) (concat hidden) in
  let hidden := chunks (num_heads self) (hidden_dim self) <$> hidden in
  let* attn_logits := mapM (head_logits (attn_proj self)) hidden in
  let* attn_scores := scatter_softmax attn_logits (fst (adjacency_indices graphs)) in
  (* self.attn_dropout: the identity outside training *)
  Ok (nj, attn_scores).

(** Lines 116-131 of [forward]: the messages summed per node, (N, H, d). *)
Definition aggregate (self : GraphAttention) (graphs : Graph)
    (nj attn_scores : list (list R)) : outcome (list (list (list R))) :=
  let* messages :=
    match edge_features graphs with
    | Some edge_features => cat_last nj edge_features
    | None => Ok nj
    end in
  let* messages := mapM (linear (message_proj self)) messages in
  (* messages.view(-1, self.num_heads, self.head_dim) *)
  let* messages := view_rows (num_heads self * head_dim self) (concat messages) in
  let messages := chunks (num_heads self) (head_dim self) <$> messages in
  let* messages := scale_messages messages attn_scores in
  scatter_sum (zeros (num_heads self) (head_dim self)) messages
              (fst (adjacency_indices graphs)) (Some (num_nodes graphs)).

Definition forward (self : GraphAttention) (graphs : Graph) : outcome Graph :=
  let* a := attention self graphs in
  let* messages := aggregate self graphs (fst a) (snd a) in
  (* messages.view(-1, self.num_heads * self.head_dim) *)
  let* messages :=
    view_rows (num_heads self * head_dim self)
              (concat ((λ m : list (list R), concat m) <$> messages)) in
  let* out := mapM (linear (out_proj self)) messages in
  (* self.proj_dropout: the identity outside training *)
  Ok (replace graphs out).

(** *** CrossAttention *)

Record CrossAttention : Type := mkCrossAttention {
  ca_num_heads : nat;
  ca_head_dim : nat;
  q_proj : Linear;
  kv_proj : Linear;
  cpb_mlp : Linear * Linear;          (* Linear, ReLU, Linear *)
  ca_out_proj : Linear
}.

Definition apply_cpb_mlp (mlp : Linear * Linear) (x : list R) : outcome (list R) :=
  let* h := linear (fst mlp) x in
  linear (snd mlp) (relu <$> h).

(** [t.view(B, n, H, d)] of a (.., .., H * d) tensor, then
    [.transpose(1, 2)]: (B, H, n, d). *)
Definition split_heads (B n H d : nat) (t : list (list (list R)))
  : outcome (list (list (list (list R)))) :=
  let* rows := view_as B (n * (H * d)) (concat (concat t)) in
  Ok ((λ item : list R, transpose H (chunks H d <$> chunks n (H * d) item)) <$> rows).

(** [kv.view(B, K, 2, H, d).permute(2, 0, 3, 1, 4).unbind(dim=0)] *)
Definition split_kv (B K H d : nat) (kv : list (list (list R)))
  : outcome (list (list (list (list R))) * list (list (list (list R)))) :=
  let* rows := view_as B (K * (2 * (H * d))) (concat (concat kv)) in
  let per_key := (λ item : list R, chunks K (2 * (H * d)) item) <$> rows in
  Ok ((λ item : list (list R),
         transpose H ((λ r, chunks H d (take (H * d) r)) <$> item)) <$> per_key,
      (λ item : list (list R),
         transpose H ((λ r, chunks H d (drop (H * d) r)) <$> item)) <$> per_key).

(** [cpb.permute(0, 3, 1, 2)]: (B, Q, K, H) to (B, H, Q, K). *)
Definition heads_first (H : nat) (cpb : list (list (list (list R))))
  : list (list (list (list R))) :=
  (λ item : list (list (list R)),
     (λ h, (λ row : list (list R), (λ e : list R, nth h e 0) <$> row) <$> item)
       <$> seq 0 H) <$> cpb.

(** [cpb.masked_fill_(images.mask[:, None, None], -torch.inf)]: the mask
    (B, 1, 1, K) against (B, H, Q, K). *)
Definition masked_fill_ (cpb : list (list (list (list R)))) (mask : list (list bool))
  : outcome (list (list (list (list xreal)))) :=
  if decide (length cpb = length mask) then
    mapM (λ p,
            mapM (mapM (λ row,
                          if decide (length row = length (snd p))
                          then Ok (masked_fill row (snd p))
                          else Raise RuntimeError))
                 (fst p))
         (zip cpb mask)
  else Raise RuntimeError.

(** Lines 204-220 of [forward]: the arguments of the attention call. *)
Definition attention_inputs (self : CrossAttention)
    (nodes : list (list (list R)))          (* graph.node_features(BatchMode.STACK) *)
    (images : BatchedSequences)
    (relative_distances : list (list (list (list R))))
  : outcome (list (list (list (list R))) * list (list (list (list R)))
             * list (list (list (list R))) * list (list (list (list xreal)))) :=
  let B := length relative_distances in
  let Q := length (default [] (head relative_distances)) in
  let K := length (default [] (head (default [] (head relative_distances)))) in
  let* q := mapM (mapM (linear (q_proj self))) nodes in
  let* q := split_heads B Q (ca_num_heads self) (ca_head_dim self) q in
  let* kv := mapM (mapM (linear (kv_proj self))) (data images) in
  let* kv := split_kv B K (ca_num_heads self) (ca_head_dim self) kv in
  let* cpb := mapM (mapM (mapM (apply_cpb_mlp (cpb_mlp self)))) relative_distances in
  let cpb := heads_first (out_features (snd (cpb_mlp self))) cpb in
  let* att_mask := masked_fill_ cpb (mask images) in
  Ok (q, fst kv, snd kv, att_mask).

(** The attention call on every batch item and head. *)
Definition attend {X} (f : list (list R) → list (list R) → list (list R)
                           → list (list xreal) → X)
    (q k v : list (list (list (list R)))) (m : list (list (list (list xreal))))
  : list (list X) :=
  zip_with (λ qk vm,
              zip_with (λ qk vm, f (fst qk) (snd qk) (fst vm) (snd vm))
                       (zip (fst qk) (snd qk)) (zip (fst vm) (snd vm)))
           (zip q k) (zip v m).

(** The post-softmax attention weights of the pass, (B, H, Q, K). *)
Definition attention_weights (self : CrossAttention) nodes images relative_distances
  : outcome (list (list (list (list R)))) :=
  let* a := attention_inputs self nodes images relative_distances in
  let '(q, k, v, att_mask) := a in
  Ok (attend (λ q k _ m, sdpa_weights q k m) q k v att_mask).

(** The pre-softmax logits of the pass (bias and mask added), (B, H, Q, K). *)
Definition attention_logits (self : CrossAttention) nodes images relative_distances
  : outcome (list (list (list (list xreal)))) :=
  let* a := attention_inputs self nodes images relative_distances in
  let '(q, k, v, att_mask) := a in
  Ok (attend (λ q k _ m, sdpa_logits q k m) q k v att_mask).

Definition ca_forward (self : CrossAttention) nodes images relative_distances
  : outcome (list (list (list R))) :=
  let B := length relative_distances in
  let Q := length (default [] (head relative_distances)) in
  let* a := attention_inputs self nodes images relative_distances in
  let '(q, k, v, att_mask) := a in
  let out := attend scaled_dot_product_attention q k v att_mask in
  (* out.reshape(B, Q, self.num_heads * self.head_dim) *)
  let* out := view_as B (Q * (ca_num_heads self * ca_head_dim self))
                      (concat (concat (concat out))) in
  let out := (λ item : list R, chunks Q (ca_num_heads self * ca_head_dim self) item)
               <$> out in
  let* out := mapM (mapM (linear (ca_out_proj self))) out in
  (* self.proj_dropout: the identity outside training;
     graph.replace(node_features=out) *)
  Ok out.

End Decoder_hoic.

(* ---------------------------------------------------------------------- *)
(** ** [deepsight/models/gahoi/_decoder.py]                                 *)
(* ---------------------------------------------------------------------- *)

Module Decoder_gahoi.
Import Torch Structures.
Local Open Scope R_scope.

(** *** GraphAttention *)

Record GraphAttention : Type := mkGraphAttention {
  num_heads : nat;
  head_dim : nat;
  ni_proj : Linear;
  nj_proj : Linear;
  e_proj : option Linear;
  negative_slope : R;
  attn_proj : list (list R);          (* (num_heads, head_dim) *)
  message_proj : Linear;
  out_proj : Linear
}.

(** What [GraphAttention.__init__] builds; it raises a ValueError unless
    [num_heads] divides [hidden_dim].  The input size of [message_proj] is
    [node_dim + edge_dim if edge_dim is not None else 0]. *)
Definition constructed (node_dim : nat) (edge_dim hidden_dim_arg : option nat)
    (share_weights use_bias : bool) (heads : nat) (self : GraphAttention) : Prop :=
  let hidden := default node_dim hidden_dim_arg in
  (hidden `mod` heads = 0)%nat
  ∧ num_heads self = heads
  ∧ head_dim self = (hidden `div` heads)%nat
  ∧ Decoder_hoic.shaped (ni_proj self) node_dim hidden use_bias
  ∧ (if share_weights then nj_proj self = ni_proj self
     else Decoder_hoic.shaped (nj_proj self) node_dim hidden use_bias)
  ∧ match edge_dim, e_proj self with
    | Some d, Some p => Decoder_hoic.shaped p d hidden use_bias
    | None, None => True
    | _, _ => False
    end
  ∧ length (attn_proj self) = heads
  ∧ Forall (λ r, length r = head_dim self) (attn_proj self)
  ∧ Decoder_hoic.shaped (message_proj self)
      (match edge_dim with Some d => node_dim + d | None => 0 end)%nat
      node_dim use_bias
  ∧ Decoder_hoic.shaped (out_proj self) node_dim node_dim use_bias.

(** Lines 87-108 of [forward]: the attention scores (E, H), with [nj]. *)
Definition attention (self : GraphAttention) (graphs : Graph)
  : outcome (list (list R) * list (list R)) :=
  let* ni := index_select (node_features graphs) (fst (adjacency_indices graphs)) in
  let* nj := index_select (node_features graphs) (snd (adjacency_indices graphs)) in
  let* ni_hidden := mapM (linear (ni_proj self)) ni in
  let* nj_hidden := mapM (linear (nj_proj self)) nj in
  let* hidden :=
    match e_proj self return outcome (list (list R)) with
    | Some e_proj =>
        match edge_features graphs with
        | None => Raise (ValueError edge_features_missing)
        | Some edge_features =>
            let* e_hidden := mapM (linear e_proj) edge_features in
            let* s := add2 ni_hidden nj_hidden in
            add2 s e_hidden
        end
    | None => add2 ni_hidden nj_hidden
    end in
  let hidden :=
    (λ row : list R, leaky_relu (negative_slope self) <$> row) <$> hidden in
  (* hidden.view(-1, self.num_heads, self.head_dim) *)
  let* hidden := view_rows (num_heads self * head_dim self) (concat hidden) in
  let hidden := chunks (num_heads self) (head_dim self) <$> hidden in
  let* attn_logits := mapM (Decoder_hoic.head_logits (attn_proj self)) hidden in
  let* attn_scores := scatter_softmax attn_logits (fst (adjacency_indices graphs)) in
  (* self.attn_dropout: the identity outside training *)
  Ok (nj, attn_scores).

(** Lines 110-119 of [forward]: the messages summed per node; no output
    size is passed to [scatter_sum]. *)
Definition aggregate (self : GraphAttention) (graphs : Graph)
    (nj attn_scores : list (list R)) : outcome (list (list (list R))) :=
  let* messages :=
    match edge_features graphs with
    | Some edge_features => Decoder_hoic.cat_last nj edge_features
    | None => Ok nj
    end in
  let* messages := mapM (linear (message_proj self)) messages in
  (* messages.view(-1, self.num_heads, self.head_dim) *)
  let* messages := view_rows (num_heads self * head_dim self) (concat messages) in
  let messages := chunks (num_heads self) (head_dim self) <$> messages in
  let* messages := Decoder_hoic.scale_messages messages attn_scores in
  scatter_sum (zeros (num_heads self) (head_dim self)) messages
              (fst (adjacency_indices graphs)) None.

Definition forward (self : GraphAttention) (graphs : Graph) : outcome Graph :=
  let* a := attention self graphs in
  let* messages := aggregate self graphs (fst a) (snd a) in
  (* messages.view(-1, self.num_heads * self.head_dim) *)
  let* messages :=
    view_rows (num_heads self * head_dim self)
              (concat ((λ m : list (list R), concat m) <$> messages)) in
  let* out := mapM (linear (out_proj self)) messages in
  (* self.proj_dropout: the identity outside training *)
  Ok (replace graphs out).

(** *** CrossAttention *)

Record CrossAttention : Type := mkCrossAttention {
  ca_num_heads : nat;
  ca_head_dim : nat;
  norm_factor : R;                    (* head_dim ** -0.5 *)
  q_proj : Linear;
  kv_proj : Linear;
  cpb_mlp : Linear * Linear;          (* Linear, ReLU, Linear *)
  ca_out_proj : Linear
}.

(** [t.view(a, b, c, d)] of contiguous data. *)
Definition view4 (a b c d : nat) (flat : list R)
  : outcome (list (list (list (list R)))) :=
  let* rows := view_as a (b * (c * d)) flat in
  Ok ((λ item : list R, chunks c d <$> chunks b (c * d) item) <$> rows).

(** [torch.matmul(q, k.transpose(-2, -1)) * self.norm_factor], (Q, K). *)
Definition scaled_scores (nf : R) (q k : list (list R)) : list (list R) :=
  (λ qi, (λ kj, dot qi kj * nf) <$> k) <$> q.

Definition add4
  : list (list (list (list R))) → list (list (list (list R)))
    → outcome (list (list (list (list R)))) :=
  broadcast2 (broadcast2 add2).

(** Lines 193-214 of [forward]: the post-softmax attention scores,
    (B, H, Q, K), with the values.  No mask takes part. *)
Definition attention_weights (self : CrossAttention) (entities : BatchedSequences)
    (images : list (list (list R)))
    (relative_distances : list (list (list (list R))))
  : outcome (list (list (list (list R))) * list (list (list (list R)))) :=
  let B := length (data entities) in
  let Q := length (default [] (head (data entities))) in
  let K := length (default [] (head images)) in
  let H := ca_num_heads self in
  let* q := mapM (mapM (linear (q_proj self))) (data entities) in
  let* q := Decoder_hoic.split_heads B Q H (ca_head_dim self) q in
  let* kv := mapM (mapM (linear (kv_proj self))) images in
  let* kv := Decoder_hoic.split_kv B K H (ca_head_dim self) kv in
  let attn_logits :=
    zip_with (zip_with (scaled_scores (norm_factor self))) q (fst kv) in
  (* relative_distances.view(B, Q * K, 2) *)
  let* rd := view_as B (Q * K * 2)
                     (concat (concat (concat relative_distances))) in
  let rd := (λ item : list R, chunks (Q * K) 2 item) <$> rd in
  let* cpb := mapM (mapM (Decoder_hoic.apply_cpb_mlp (cpb_mlp self))) rd in
  (* cpb.view(B, Q, K, self.num_heads).permute(0, 3, 1, 2) *)
  let* cpb := view4 B Q K H (concat (concat cpb)) in
  let cpb := Decoder_hoic.heads_first H cpb in
  let* attn_logits := add4 attn_logits cpb in
  let attn_scores :=
    (λ item : list (list (list R)),
       (λ head : list (list R), (λ row : list R, softmax (Fin <$> row)) <$> head)
         <$> item) <$> attn_logits in
  (* self.attn_dropout: the identity outside training *)
  Ok (attn_scores, snd kv).

Definition ca_forward (self : CrossAttention) (entities : BatchedSequences)
    (images : list (list (list R)))
    (relative_distances : list (list (list (list R))))
  : outcome BatchedSequences :=
  let B := length (data entities) in
  let Q := length (default [] (head (data entities))) in
  let H := ca_num_heads self in
  let* a := attention_weights self entities images relative_distances in
  (* torch.matmul(attn_scores, v): (B, H, Q, D) *)
  let out :=
    zip_with (zip_with (λ w v : list (list R),
                          (λ wi, weighted_sum (ca_head_dim self) wi v) <$> w))
             (fst a) (snd a) in
  (* out.transpose(1, 2).contiguous().view(B, Q, H * D) *)
  let out := (λ item : list (list (list R)), transpose Q item) <$> out in
  let* out := view_as B (Q * (H * ca_head_dim self)) (concat (concat (concat out))) in
  let out := (λ item : list R, chunks Q (H * ca_head_dim self) item) <$> out in
  let* out := mapM (mapM (linear (ca_out_proj self))) out in
  (* self.proj_dropout: the identity outside training *)
  Ok (mkBatchedSequences out (mask entities)).

End Decoder_gahoi.

(** *** The vocabulary of the properties of the decoders, and examples *)

Module Decoder_spec.
Import Torch Structures.
Local Open Scope R_scope.

(** The entry [t[b][h][i][j]] of a 4-D tensor. *)
Definition entry {A} (t : list (list (list (list A)))) (b h i j : nat) : option A :=
  match t !! b with
  | Some item =>
      match item !! h with
      | Some head =>
          match head !! i with
          | Some row => row !! j
          | None => None
          end
      | None => None
      end
  | None => None
  end.

(** A linear layer with constant weights and bias. *)
Definition const_linear (i o : nat) (w b : R) : Linear :=
  mkLinear i o (replicate o (replicate i w)) (Some (replicate o b)).

(** [tasks/hoic]: embed_dim 2, one head, one query, two keys of which the
    second is padding. *)
Definition hoic_cross_attention : Decoder_hoic.CrossAttention :=
  Decoder_hoic.mkCrossAttention 1 2
    (const_linear 2 2 1 0) (const_linear 2 4 1 0)
    (const_linear 2 3 1 0, const_linear 3 1 1 5) (const_linear 2 2 1 0).

Definition example_nodes : list (list (list R)) := [[[1; 0]]].

Definition example_patches : BatchedSequences :=
  mkBatchedSequences [[[1; 1]; [0; 0]]] [[false; true]].

Definition example_distances : list (list (list (list R))) := [[[[0; 0]; [1; 1]]]].

(** [models/gahoi]: embed_dim 2 and two heads (the sizes its bias network
    is built for), one query, the same two keys. *)
Definition gahoi_cross_attention : Decoder_gahoi.CrossAttention :=
  Decoder_gahoi.mkCrossAttention 2 1 1
    (const_linear 2 2 1 0) (const_linear 2 4 1 0)
    (const_linear 2 3 1 0, const_linear 3 2 1 5) (const_linear 2 2 1 0).

Definition example_entities : BatchedSequences :=
  mkBatchedSequences [[[1; 0]]] [[false]].

(** Three nodes, the edges 0 -> 1 and 1 -> 0 with one feature each; node 2
    has no edge. *)
Definition isolated_graph : Graph :=
  mkGraph [[1; 0]; [0; 1]; [1; 1]] ([0; 1]%nat, [1; 0]%nat) (Some [[1]; [1]]).

(** node_dim 2, edge_dim 1, one head. *)
Definition hoic_graph_attention : Decoder_hoic.GraphAttention :=
  Decoder_hoic.mkGraphAttention 1 2 2
    (const_linear 2 2 1 0) (const_linear 2 2 1 0) (Some (const_linear 1 2 1 0))
    (1 / 5) [[1; 1]] (const_linear 3 2 1 0) (const_linear 2 2 1 0).

Definition gahoi_graph_attention : Decoder_gahoi.GraphAttention :=
  Decoder_gahoi.mkGraphAttention 1 2
    (const_linear 2 2 1 0) (const_linear 2 2 1 0) (Some (const_linear 1 2 1 0))
    (1 / 5) [[1; 1]] (const_linear 3 2 1 0) (const_linear 2 2 1 0).

End Decoder_spec.

(* ---------------------------------------------------------------------- *)
(** ** Exceptions of plain Python code                                      *)
(* ---------------------------------------------------------------------- *)

(** The methods embedded so far raise the exceptions of [exn].  The code
    below also divides Python numbers and raises ValueErrors of its own;
    a call that may do so returns a [result]. *)

Module Python.

Inductive error : Type :=
  | ZeroDivisionError       (* [x / 0] and [x % 0] on Python numbers *)
  (* utils/_misc.py *)
  | not_a_2tuple (len : nat)
      (* ValueError "Expected a 2-tuple, got {value}." *)
  (* transforms/vision/_color.py *)
  | negative_jitter
      (* ValueError "If {property_name} is a single number, it must be non
         negative." *)
  | jitter_out_of_bounds
      (* ValueError "{property_name} values should be between {bounds[0]}
         and {bounds[1]}, but got {value}." *)
  (* models/vit/_config.py *)
  | embed_dim_not_divisible (embed_dim num_heads : Z)
      (* ValueError "embed_dim ({embed_dim}) must be divisible by num_heads
         ({num_heads})." *)
  | negative_register_tokens (n : Z).
      (* ValueError "num_register_tokens ({n}) must be non-negative." *)

Definition is_ValueError (e : error) : bool :=
  match e with
  | ZeroDivisionError => false
  | _ => true
  end.

Inductive result (A : Type) : Type :=
  | Return (a : A)
  | Throw (e : error).
Arguments Return {A} a.
Arguments Throw {A} e.

Definition rbind {A B} (m : result A) (f : A → result B) : result B :=
  match m with
  | Return a => f a
  | Throw e => Throw e
  end.

(** [a / b] on two ints, and on a float and an int: true division. *)
Definition truediv (a : Q) (b : Z) : result Q :=
  if decide (b = 0%Z) then Throw ZeroDivisionError
  else Return (a / inject_Z b)%Q.

(** [a % b] on two ints: the sign of the result is that of [b]. *)
Definition mod_ (a b : Z) : result Z :=
  if decide (b = 0%Z) then Throw ZeroDivisionError
  else Return (a `mod` b)%Z.

End Python.

(* ---------------------------------------------------------------------- *)
(** ** [deepsight/structures/_bboxes.py]: resizing, cropping and validation *)
(* ---------------------------------------------------------------------- *)

Module Bboxes_transforms.
Import Python Bboxes.

Local Open Scope Q_scope.



Definition resize (self : ref) (image_size : Z * Z) : M (result ref) :=
  s ← get_obj self;
  if decide (_image_size s = image_size) then mret (Return self)
  else if _normalized s then
    (* coordinates = self.coordinates: the new object shares the buffer *)
    boxes ← __init__ (_coordinates s) (_format s) (_normalized s) image_size;
    mret (Return boxes)
  else
    match truediv (inject_Z (fst image_size)) (fst (_image_size s)) with
    | Throw e => mret (Throw e)
    | Return height_ratio =>
        match truediv (inject_Z (snd image_size)) (snd (_image_size s)) with
        | Throw e => mret (Throw e)
        | Return width_ratio =>
            let scale_factor :=
              Row width_ratio height_ratio width_ratio height_ratio in
            c ← read (_coordinates s);
            coordinates ← fresh (row_mul scale_factor <$> c);
            boxes ← __init__ coordinates (_format s) (_normalized s) image_size;
            mret (Return boxes)
        end
    end.

(** [H, W = (1, 1) if boxes.normalized else boxes.image_size] *)
Definition bounds (b : BoundingBoxes) : Q * Q :=
  if _normalized b then (1, 1)
  else (inject_Z (fst (_image_size b)), inject_Z (snd (_image_size b))).



(** The width and the height of every box, as [area] and [aspect_ratio]
    read them. *)
Definition widths_heights (f : BoundingBoxFormat) (c : tensor) : list Q * list Q :=
  match f with
  | XYXY =>
      let wh := tsub (hi <$> c) (lo <$> c) in
      (fst <$> wh, snd <$> wh)
  | XYWH => (col 2 <$> c, col 3 <$> c)
  | CXCYWH => (col 2 <$> c, col 3 <$> c)
  end.

Definition aspect_ratio (self : ref) : M (list Q) :=
  s ← get_obj self;
  c ← read (_coordinates s);
  let '(w, h) := widths_heights (_format s) c in
  mret (zip_with Qdiv w ((λ y, y + eps) <$> h)).

Definition is_valid (self : ref) (min_width min_height : Q)
  : M (result (list bool)) :=
  boxes ← to_xyxy self;
  b ← get_obj boxes;
  s ← get_obj self;
  let '(H, W) := bounds b in
  let minimum :=
    if _normalized b then
      rbind (truediv min_width (snd (_image_size s))) (λ min_width,
      rbind (truediv min_height (fst (_image_size s))) (λ min_height,
      Return (min_width, min_height)))
    else Return (min_width, min_height) in
  match minimum with
  | Throw e => mret (Throw e)
  | Return (min_width, min_height) =>
      c ← read (_coordinates b);
      mret (Return ((λ r,
        let '(x1, y1, x2, y2) := (r0 r, r1 r, r2 r, r3 r) in
        (Qle_bool 0 x1 && Qle_bool 0 y1 && Qle_bool 0 x2 && Qle_bool 0 y2)
        && (Qle_bool x1 W && Qle_bool y1 H && Qle_bool x2 W && Qle_bool y2 H)
        && (Qle_bool min_width (x2 - x1) && Qle_bool min_height (y2 - y1)))
        <$> c))
  end.

(** [__or__] and [__and__] *)
Definition __or__ (self other : ref) : M ref := union self other.
Definition __and__ (self other : ref) : M ref := intersection self other.

End Bboxes_transforms.

(** *** The vocabulary of the properties of these methods *)

Module Bboxes_transforms_spec.
Import Python Bboxes Bboxes_spec Bboxes_transforms.

Local Open Scope Q_scope.

(** The factor [resize] multiplies the rows of boxes in pixels by. *)
Definition scale_factor (old new : Z * Z) : row :=
  let h := inject_Z (fst new) / inject_Z (fst old) in
  let w := inject_Z (snd new) / inject_Z (snd old) in
  Row w h w h.

(** The value of [resize(image_size)] where it returns. *)
Definition resize_view (sz : Z * Z) (v : view) : view :=
  if decide (image_size v = sz) then v
  else mkView (if normalized v then coordinates v
               else row_mul (scale_factor (image_size v) sz) <$> coordinates v)
              (format v) (normalized v) sz.

(** [resize] divides by a dimension of the current image size only for
    boxes in pixels that get another size. *)
Definition divides_by_zero (sz : Z * Z) (v : view) : Prop :=
  normalized v = false ∧ image_size v ≠ sz
  ∧ (fst (image_size v) = 0%Z ∨ snd (image_size v) = 0%Z).

(** [H, W = (1, 1) if boxes.normalized else boxes.image_size], on a view. *)
Definition view_bounds (v : view) : Q * Q :=
  if normalized v then (1, 1)
  else (inject_Z (fst (image_size v)), inject_Z (snd (image_size v))).




(** The thresholds [is_valid] compares widths and heights with. *)
Definition minimum (v : view) (min_width min_height : Q) : result (Q * Q) :=
  if normalized v then
    rbind (truediv min_width (snd (image_size v))) (λ min_width,
    rbind (truediv min_height (fst (image_size v))) (λ min_height,
    Return (min_width, min_height)))
  else Return (min_width, min_height).

(** The flag [is_valid] computes for one XYXY row. *)
Definition valid_row (HW m : Q * Q) (r : row) : bool :=
  (Qle_bool 0 (r0 r) && Qle_bool 0 (r1 r) && Qle_bool 0 (r2 r) && Qle_bool 0 (r3 r))
  && (Qle_bool (r0 r) (snd HW) && Qle_bool (r1 r) (fst HW)
      && Qle_bool (r2 r) (snd HW) && Qle_bool (r3 r) (fst HW))
  && (Qle_bool (fst m) (r2 r - r0 r) && Qle_bool (snd m) (r3 r - r1 r)).

(** What [is_valid] returns or raises. *)
Definition is_valid_result (v : view) (min_width min_height : Q)
  : result (list bool) :=
  rbind (minimum v min_width min_height) (λ m,
  Return (valid_row (view_bounds v) m <$>
            (format_row (format v) XYXY <$> coordinates v))).




(** The value of [convert(format)], the normalization left alone. *)
Definition format_view (f2 : BoundingBoxFormat) (v : view) : view :=
  mkView (format_row (format v) f2 <$> coordinates v)
         f2 (normalized v) (image_size v).

(** The entry [aspect_ratio] computes for one row. *)
Definition aspect_row (f : BoundingBoxFormat) (r : row) : Q :=
  match f with
  | XYXY => (r2 r - r0 r) / (r3 r - r1 r + eps)
  | _ => r2 r / (r3 r + eps)
  end.

(** The value of [normalize()]. *)
Definition normalized_view (v : view) : view :=
  mkView (normalization_row (image_size v) (normalized v) true <$> coordinates v)
         (format v) true (image_size v).

(** The value of [iou(other)] on two sets of normalized boxes. *)
Definition iou_values (na nb : view) : list Q :=
  let intersection_area := area_row XYWH <$> coordinates (intersection_view na nb) in
  let union_area :=
    zip_with Qminus
      (zip_with Qplus (area_row (format na) <$> coordinates na)
                      (area_row (format nb) <$> coordinates nb))
      intersection_area in
  zip_with Qdiv intersection_area ((λ u, u + eps) <$> union_area).

(** The entry of [iou] for one pair of normalized rows. *)
Definition iou_row (fa fb : BoundingBoxFormat) (xa xb : row) : Q :=
  let i := area_row XYWH (intersection_row (format_row fa XYXY xa)
                                           (format_row fb XYXY xb)) in
  i / (area_row fa xa + area_row fb xb - i + eps).

(** A row in format [f] whose box has no negative width or height. *)
Definition wellformed_row (f : BoundingBoxFormat) (r : row) : Prop :=
  r0 (format_row f XYXY r) <= r2 (format_row f XYXY r) ∧
  r1 (format_row f XYXY r) <= r3 (format_row f XYXY r).

Definition wellformed (v : view) : Prop :=
  Forall (wellformed_row (format v)) (coordinates v).

(** Boxes in pixels on an image with positive height and width. *)
Definition positive_image (v : view) : Prop :=
  normalized v = false → (0 < fst (image_size v))%Z ∧ (0 < snd (image_size v))%Z.

(** Two XYWH boxes in pixels on an image of size (10, 10); the first
    reaches out of the image. *)
Definition outside_boxes : store :=
  mkStore [[Row (-2) 3 6 20; Row 1 1 2 2]] [mkBoundingBoxes 0 XYWH false (10, 10)%Z].

(** One normalized box on an image of height 0. *)
Definition normalized_degenerate : store :=
  mkStore [[Row 0 0 1 1]] [mkBoundingBoxes 0 XYXY true (0, 5)%Z].

End Bboxes_transforms_spec.

(* ---------------------------------------------------------------------- *)
(** ** [deepsight/structures/vision/_batched_images.py]: access and
       replacement                                                          *)
(* ---------------------------------------------------------------------- *)

Module Batched_images_methods.
Import Batched_images.

(** [seq[i]] for a Python int [i] on a sequence of [n] entries: the
    position it denotes, counted from the end when [i] is negative; an
    IndexError where there is none. *)
Definition py_index (n : nat) (i : Z) : option nat :=
  if (0 <=? i)%Z && (i <? Z.of_nat n)%Z then Some (Z.to_nat i)
  else if (- Z.of_nat n <=? i)%Z && (i <? 0)%Z then Some (Z.to_nat (i + Z.of_nat n))
  else None.

Section WithElements.

Context {A : Type}.

(** [data[i, :, :h, :w]]: the view of item [i] cut to its first [h] rows
    and [w] columns.  The tensor needs four dimensions at least. *)
Definition item_slice (data : Tensor A) (i h w : Z) : outcome (Tensor A) :=
  match shape data with
  | B :: C :: H :: W :: rest =>
      match py_index B i with
      | Some b =>
          Ok (mkTensor (C :: slice_stop h H :: slice_stop w W :: rest)
                       (t_dtype data) (t_device data)
                       (λ idx, at_ data (b :: idx)))
      | None => Raise IndexError
      end
  | _ => Raise IndexError
  end.

Definition unbatch (self : BatchedImages A) : outcome (list (Tensor A)) :=
  mapM (λ '(i, (h, w)), item_slice (_data self) (Z.of_nat i) h w)
       (zip (seq 0 (length (_image_sizes self))) (_image_sizes self)).

Definition replace (self : BatchedImages A) (data : Tensor A)
  : outcome (BatchedImages A) :=
  let* _ := _check_data_mask data (_mask self) in
  __init__ data (Some (_image_sizes self)) (Some (_mask self)) false.

Definition __len__ (self : BatchedImages A) : outcome nat := size (_data self) 0.

Definition __getitem__ (self : BatchedImages A) (index : Z) : outcome (Tensor A) :=
  match py_index (length (_image_sizes self)) index with
  | Some k =>
      match _image_sizes self !! k with
      | Some (h, w) => item_slice (_data self) index h w
      | None => Raise IndexError
      end
  | None => Raise IndexError
  end.

(** Two tensors with the shape (C, h, w), dtype and device in common, and
    the same element at every index within the shape. *)
Definition same_image (t t' : Tensor A) : Prop :=
  shape t = shape t' ∧ t_dtype t = t_dtype t' ∧ t_device t = t_device t'
  ∧ ∀ c y x, (y < nth 1 (shape t') 0)%nat → (x < nth 2 (shape t') 0)%nat →
             at_ t [c; y; x] = at_ t' [c; y; x].

End WithElements.

(** One 1 x 2 image in a batch padded to 2 x 2, with three channels. *)
Definition padded_batch : BatchedImages Z :=
  mkBatchedImages (mkTensor [1; 3; 2; 2]%nat torch_int64 cpu (λ _, 0%Z))
                  [(1, 2)%Z]
                  (_compute_mask_from_sizes [(1, 2)%Z] 2 2 cpu).

End Batched_images_methods.

(* ---------------------------------------------------------------------- *)
(** ** [deepsight/utils/_misc.py]                                           *)
(* ---------------------------------------------------------------------- *)

Module Utils_misc.
Import Python.

(** An argument of type [T | tuple[T, ...]]: what [isinstance(value,
    tuple)] tells apart. *)
Inductive value (T : Type) : Type :=
  | Single (x : T)
  | Tuple (xs : list T).
Arguments Single {T} x.
Arguments Tuple {T} xs.

(** The result is a tuple: the argument itself when it is one. *)
Definition to_2tuple {T} (value : value T) : result (list T) :=
  match value with
  | Tuple xs =>
      if decide (length xs ≠ 2%nat) then Throw (not_a_2tuple (length xs))
      else Return xs
  | Single x => Return [x; x]
  end.

End Utils_misc.

(* ---------------------------------------------------------------------- *)
(** ** [deepsight/transforms/vision/_color.py]                              *)
(* ---------------------------------------------------------------------- *)

Module Color.
Import Python.

Local Open Scope Q_scope.

(** A bound of a range of floats: a number or [math.inf]. *)
Inductive bound : Type :=
  | Num (x : Q)
  | Inf.

(** [x <= b] *)
Definition le_bound (x : Q) (b : bound) : bool :=
  match b with
  | Num y => Qle_bool x y
  | Inf => true
  end.

(** The [value] argument: a single number or a tuple [(min, max)]. *)
Inductive jitter : Type :=
  | Number (x : Q)
  | Range (min_factor max_factor : Q).

Definition _check_jitter_properties (value : option jitter) (center : Q)
    (bounds : Q * bound) (clip_first_on_zero : bool) : result (option (Q * Q)) :=
  match value with
  | None => Return None
  | Some value =>
      rbind
        match value with
        | Number value =>
            if negb (Qle_bool 0 value)                     (* value < 0 *)
            then Throw negative_jitter
            else
              let value := (center - value, center + value) in
              Return (if clip_first_on_zero
                      then (Qmax 0 (fst value), snd value)
                      else value)
        | Range min_factor max_factor => Return (min_factor, max_factor)
        end
        (λ value,
           if negb (Qle_bool (fst bounds) (fst value)
                    && Qle_bool (fst value) (snd value)
                    && le_bound (snd value) (snd bounds))
           then Throw jitter_out_of_bounds
           else Return (Some value))
  end.

Record ColorJitter : Type := mkColorJitter {
  _brightness : option (Q * Q);
  _contrast : option (Q * Q);
  _saturation : option (Q * Q);
  _hue : option (Q * Q)
}.

(** [ColorJitter.__init__] *)
Definition __init__ (brightness contrast saturation hue : option jitter)
  : result ColorJitter :=
  rbind (_check_jitter_properties brightness 1 (0, Inf) true) (λ brightness,
  rbind (_check_jitter_properties contrast 1 (0, Inf) true) (λ contrast,
  rbind (_check_jitter_properties saturation 1 (0, Inf) true) (λ saturation,
  rbind (_check_jitter_properties hue 0 (- (1 # 2), Num (1 # 2)) false) (λ hue,
  Return (mkColorJitter brightness contrast saturation hue))))).

(** A stored range: ordered, and within the bounds of its property. *)
Definition valid_range (lo : Q) (hi : bound) (r : option (Q * Q)) : Prop :=
  match r with
  | None => True
  | Some (a, b) =>
      lo <= a ∧ a <= b ∧ match hi with Num y => b <= y | Inf => True end
  end.

End Color.

(* ---------------------------------------------------------------------- *)
(** ** [deepsight/models/vit/_config.py]                                    *)
(* ---------------------------------------------------------------------- *)

Module Vit_config.
Import Python.

Inductive Variant : Type :=
  | OG_BASE_PATCH32_IMG224
  | OG_BASE_PATCH32_IMG384
  | DINOV2_BASE_PATCH14_IMG518
  | DINOV2_BASE_PATCH14_REG4_IMG518
  | CLIP_BASE_PATCH32_IMG224
  | CLIP_BASE_PATCH32_IMG256
  | CLIP_BASE_PATCH32_IMG384.

(** [int | tuple[int, int]] *)
Inductive int_or_pair : Type :=
  | Int (n : Z)
  | Pair (a b : Z).

(** [Callable[[int], SequenceNorm]]: the source builds one value of it,
    [partial(nn.LayerNorm, eps=..)]. *)
Inductive norm_layer_factory : Type :=
  | partial_LayerNorm (eps : Q).

Record EncoderConfig : Type := mkEncoderConfig {
  image_size : int_or_pair;
  patch_size : int_or_pair;
  in_channels : Z;
  embed_dim : Z;
  num_layers : Z;
  num_heads : Z;
  ffn_hidden_ratio : Q;
  qkv_bias : bool;
  qk_normalize : bool;
  layer_scale_init_value : option Q;
  norm_layer : norm_layer_factory;
  use_class_token : bool;
  num_register_tokens : Z;
  use_prefix_embedding : bool;
  pre_normalize : bool;
  post_normalize : bool;
  pos_embed_dropout : Q;
  qkv_dropout : Q;
  attn_dropout : Q;
  proj_dropout : Q;
  ffn_dropout : Q
}.

Definition __post_init__ (self : EncoderConfig) : result unit :=
  rbind (mod_ (embed_dim self) (num_heads self)) (λ r,
  if decide (r ≠ 0%Z)
  then Throw (embed_dim_not_divisible (embed_dim self) (num_heads self))
  else if decide (num_register_tokens self < 0)%Z
  then Throw (negative_register_tokens (num_register_tokens self))
  else Return tt).

(** The generated [__init__]: the fields, then [__post_init__]. *)
Definition new (fields : EncoderConfig) : result EncoderConfig :=
  rbind (__post_init__ fields) (λ _, Return fields).

(** The fields given by the keyword arguments that occur in
    [_build_encoder_config], the others at their defaults. *)
Definition fields (patch_size image_size embed_dim num_layers num_heads : Z)
    (layer_scale_init_value : option Q) (num_register_tokens : Z)
    (use_prefix_embedding pre_normalize : bool) : EncoderConfig :=
  {| image_size := Int image_size;
     patch_size := Int patch_size;
     in_channels := 3;
     embed_dim := embed_dim;
     num_layers := num_layers;
     num_heads := num_heads;
     ffn_hidden_ratio := 4;
     qkv_bias := true;
     qk_normalize := false;
     layer_scale_init_value := layer_scale_init_value;
     norm_layer := partial_LayerNorm (1 # 1000000);
     use_class_token := true;
     num_register_tokens := num_register_tokens;
     use_prefix_embedding := use_prefix_embedding;
     pre_normalize := pre_normalize;
     post_normalize := true;
     pos_embed_dropout := 0;
     qkv_dropout := 0;
     attn_dropout := 0;
     proj_dropout := 0;
     ffn_dropout := 0 |}.

Definition _build_encoder_config (variant : Variant) : result EncoderConfig :=
  match variant with
  | OG_BASE_PATCH32_IMG224 => new (fields 32 224 768 12 12 None 0 true false)
  | OG_BASE_PATCH32_IMG384 => new (fields 32 384 768 12 12 None 0 true false)
  | DINOV2_BASE_PATCH14_IMG518 =>
      new (fields 14 518 768 12 12 (Some (1 # 100000)) 0 true false)
  | DINOV2_BASE_PATCH14_REG4_IMG518 =>
      new (fields 14 518 768 12 12 (Some (1 # 100000)) 4 false false)
  | CLIP_BASE_PATCH32_IMG224 => new (fields 32 224 768 12 12 None 0 true true)
  | CLIP_BASE_PATCH32_IMG256 => new (fields 32 256 768 12 12 None 0 true true)
  | CLIP_BASE_PATCH32_IMG384 => new (fields 32 384 768 12 12 None 0 true true)
  end.

Definition from_variant (variant : Variant) : result EncoderConfig :=
  _build_encoder_config variant.

(** The number of patches along a side, where the patch size divides the
    image size. *)
Definition patches_per_side (c : EncoderConfig) : option Z :=
  match image_size c, patch_size c with
  | Int i, Int p => if decide (i `mod` p = 0)%Z then Some (i `div` p)%Z else None
  | _, _ => None
  end.

End Vit_config.

(** *** [CrossAttention.__init__] of [models/gahoi], and more examples *)

Module Decoder_examples.
Import Torch Structures Decoder_spec.
Local Open Scope R_scope.

(** What [CrossAttention.__init__] of [models/gahoi] builds from its
    arguments; it raises unless [num_heads] divides [embed_dim].  The bias
    network [cpb_mlp] is [Linear(embed_dim, cpb_hidden_dim)], ReLU,
    [Linear(cpb_hidden_dim, embed_dim)]. *)
Definition ca_constructed (embed_dim cpb_hidden_dim : nat) (use_bias : bool)
    (heads : nat) (self : Decoder_gahoi.CrossAttention) : Prop :=
  heads ≠ 0%nat ∧ (embed_dim `mod` heads = 0)%nat
  ∧ Decoder_gahoi.ca_num_heads self = heads
  ∧ Decoder_gahoi.ca_head_dim self = (embed_dim `div` heads)%nat
  ∧ Decoder_hoic.shaped (Decoder_gahoi.q_proj self) embed_dim embed_dim use_bias
  ∧ Decoder_hoic.shaped (Decoder_gahoi.kv_proj self) embed_dim (embed_dim * 2) use_bias
  ∧ Decoder_hoic.shaped (fst (Decoder_gahoi.cpb_mlp self)) embed_dim cpb_hidden_dim
                        use_bias
  ∧ Decoder_hoic.shaped (snd (Decoder_gahoi.cpb_mlp self)) cpb_hidden_dim embed_dim
                        use_bias
  ∧ Decoder_hoic.shaped (Decoder_gahoi.ca_out_proj self) embed_dim embed_dim use_bias.

(** A tensor of shape (n, d). *)
Definition has_shape (n d : nat) (t : list (list R)) : Prop :=
  length t = n ∧ Forall (λ r, length r = d) t.

(** Two rows under one mask entry: of the same size, and the same row
    where the entry is False (a valid position). *)
Definition same_if_valid {X} (m : bool) (x x' : list X) : Prop :=
  length x = length x' ∧ (m = false → x = x').

(** Image features (B, K, D) that differ at padded positions only. *)
Definition differ_in_padding (mask : list (list bool))
    (data data' : list (list (list R))) : Prop :=
  Forall3 (Forall3 same_if_valid) mask data data'.

(** The size of what a linear layer returns. *)
Definition linear_width (l : Linear) : nat :=
  match bias l with
  | Some b => Nat.min (length (weight l)) (length b)
  | None => length (weight l)
  end.

(** The keys and the values [split_kv] cuts out of the projected features
    of one image. *)
Definition keys_of (H d : nat) (item : list (list R)) : list (list (list R)) :=
  transpose H ((λ r, chunks H d (take (H * d) r)) <$> item).

Definition values_of (H d : nat) (item : list (list R)) : list (list (list R)) :=
  transpose H ((λ r, chunks H d (drop (H * d) r)) <$> item).

(** [tasks/hoic]: the image features of [example_patches] with other
    features at the padded position. *)
Definition other_padding : list (list (list R)) := [[[1; 1]; [7; -3]]].

(** [models/gahoi]: embed_dim 4, two heads. *)
Definition gahoi_cross_attention_4 : Decoder_gahoi.CrossAttention :=
  Decoder_gahoi.mkCrossAttention 2 2 (/ sqrt 2)
    (const_linear 4 4 1 0) (const_linear 4 8 1 0)
    (const_linear 4 3 1 0, const_linear 3 4 1 5) (const_linear 4 4 1 0).

Definition entities_4 : BatchedSequences :=
  mkBatchedSequences [[[1; 0; 0; 0]]] [[false]].

Definition patches_4 : list (list (list R)) := [[[1; 1; 1; 1]; [0; 0; 0; 0]]].

(** Two nodes joined by the edges 0 -> 1 and 1 -> 0, without edge
    features. *)
Definition connected_graph : Graph :=
  mkGraph [[1; 0]; [0; 1]] ([0; 1]%nat, [1; 0]%nat) None.

(** [models/gahoi]: node_dim 2, no edge_dim, one head; the input size of
    [message_proj] is 0. *)
Definition gahoi_without_edge_dim : Decoder_gahoi.GraphAttention :=
  Decoder_gahoi.mkGraphAttention 1 2
    (const_linear 2 2 1 0) (const_linear 2 2 1 0) None
    (1 / 5) [[1; 1]] (const_linear 0 2 1 0) (const_linear 2 2 1 0).

End Decoder_examples.

(* ---------------------------------------------------------------------- *)
(** ** [_bboxes.py] over floats with [inf] and [nan]                        *)
(* ---------------------------------------------------------------------- *)

(** The rational model of [Bboxes] has no [inf] and no [nan]: where the
    source divides by an image dimension that is 0, [row_div] gives 0, and
    the properties of Part II that go through such a division assume that
    the dimension is not 0.  What the source computes there is read off a
    second embedding of the conversion methods, [intersection] and [area],
    over numbers with the special values of floats (finite values stay
    exact rationals).  Objects are plain values here: nothing in this part
    is about sharing. *)

Module Bboxes_float.
Import Bboxes.
Local Open Scope Q_scope.

Inductive float : Type :=
  | finite (q : Q)
  | inf (negative : bool)
  | nan.

Definition is_zero (q : Q) : bool := Qeq_bool q 0.
Definition is_negative (q : Q) : bool := (Qnum q <? 0)%Z.

Definition fneg (a : float) : float :=
  match a with
  | finite x => finite (- x)
  | inf s => inf (negb s)
  | nan => nan
  end.

Definition fadd (a b : float) : float :=
  match a, b with
  | nan, _ | _, nan => nan
  | finite x, finite y => finite (x + y)
  | inf s, inf s' => if eqb s s' then inf s else nan
  | inf s, finite _ | finite _, inf s => inf s
  end.

Definition fsub (a b : float) : float := fadd a (fneg b).

Definition fmul (a b : float) : float :=
  match a, b with
  | nan, _ | _, nan => nan
  | finite x, finite y => finite (x * y)
  | inf s, inf s' => inf (xorb s s')
  | inf s, finite x | finite x, inf s =>
      if is_zero x then nan else inf (xorb s (is_negative x))
  end.

(** A divisor 0 is the float of an image dimension, the integer 0: it is
    positive zero. *)
Definition fdiv (a b : float) : float :=
  match a, b with
  | nan, _ | _, nan => nan
  | finite x, finite y =>
      if is_zero y then (if is_zero x then nan else inf (is_negative x))
      else finite (x / y)
  | finite _, inf _ => finite 0
  | inf s, finite y => inf (xorb s (is_negative y))
  | inf _, inf _ => nan
  end.

(** [a <= b]: False when an operand is [nan]. *)
Definition fle (a b : float) : bool :=
  match a, b with
  | nan, _ | _, nan => false
  | finite x, finite y => Qle_bool x y
  | inf true, _ | _, inf false => true
  | _, _ => false
  end.

(** [torch.max(a, b)] and [torch.min(a, b)] of two tensors, elementwise:
    [nan] if an operand is [nan]. *)
Definition fmax (a b : float) : float :=
  match a, b with
  | nan, _ | _, nan => nan
  | _, _ => if fle a b then b else a
  end.

Definition fmin (a b : float) : float :=
  match a, b with
  | nan, _ | _, nan => nan
  | _, _ => if fle a b then a else b
  end.

(** [torch.clamp(x, min=0)]: [nan] stays [nan]. *)
Definition fclamp_min0 (a : float) : float := fmax a (finite 0).

Record frow : Type := FRow { f0 : float; f1 : float; f2 : float; f3 : float }.
Definition fvec2 : Type := (float * float)%type.

Definition flo (r : frow) : fvec2 := (f0 r, f1 r).
Definition fhi (r : frow) : fvec2 := (f2 r, f3 r).
Definition fcat2 (a b : fvec2) : frow := FRow (fst a) (snd a) (fst b) (snd b).
Definition fcat (a b : list fvec2) : list frow := zip_with fcat2 a b.

Definition lift2 (f : float → float → float) (a b : fvec2) : fvec2 :=
  (f (fst a) (fst b), f (snd a) (snd b)).
Definition fvhalf (a : fvec2) : fvec2 :=
  (fdiv (fst a) (finite 2), fdiv (snd a) (finite 2)).

Definition frow_div (f r : frow) : frow :=
  FRow (fdiv (f0 r) (f0 f)) (fdiv (f1 r) (f1 f)) (fdiv (f2 r) (f2 f)) (fdiv (f3 r) (f3 f)).
Definition frow_mul (f r : frow) : frow :=
  FRow (fmul (f0 r) (f0 f)) (fmul (f1 r) (f1 f)) (fmul (f2 r) (f2 f)) (fmul (f3 r) (f3 f)).

Record FBoundingBoxes : Type := mkFBoundingBoxes {
  fcoordinates : list frow;
  fformat : BoundingBoxFormat;
  fnormalized : bool;
  fimage_size : Z * Z            (* (H, W) *)
}.

Definition to_xyxy (self : FBoundingBoxes) : FBoundingBoxes :=
  match fformat self with
  | XYXY => self
  | XYWH =>
      let x1y1 := flo <$> fcoordinates self in
      let x2y2 := zip_with (lift2 fadd) x1y1 (fhi <$> fcoordinates self) in
      mkFBoundingBoxes (fcat x1y1 x2y2) XYXY (fnormalized self) (fimage_size self)
  | CXCYWH =>
      let x1y1 := zip_with (lift2 fsub) (flo <$> fcoordinates self)
                           (fvhalf <$> (fhi <$> fcoordinates self)) in
      let x2y2 := zip_with (lift2 fadd) x1y1 (fhi <$> fcoordinates self) in
      mkFBoundingBoxes (fcat x1y1 x2y2) XYXY (fnormalized self) (fimage_size self)
  end.

Definition to_xywh (self : FBoundingBoxes) : FBoundingBoxes :=
  match fformat self with
  | XYXY =>
      let xy := flo <$> fcoordinates self in
      let wh := zip_with (lift2 fsub) (fhi <$> fcoordinates self) xy in
      mkFBoundingBoxes (fcat xy wh) XYWH (fnormalized self) (fimage_size self)
  | XYWH => self
  | CXCYWH =>
      let xy := zip_with (lift2 fsub) (flo <$> fcoordinates self)
                         (fvhalf <$> (fhi <$> fcoordinates self)) in
      let wh := fhi <$> fcoordinates self in
      mkFBoundingBoxes (fcat xy wh) XYWH (fnormalized self) (fimage_size self)
  end.

Definition to_cxcywh (self : FBoundingBoxes) : FBoundingBoxes :=
  match fformat self with
  | XYXY =>
      let xy := flo <$> fcoordinates self in
      let wh := zip_with (lift2 fsub) (fhi <$> fcoordinates self) xy in
      mkFBoundingBoxes (fcat (zip_with (lift2 fadd) xy (fvhalf <$> wh)) wh)
                       CXCYWH (fnormalized self) (fimage_size self)
  | XYWH =>
      let xy := flo <$> fcoordinates self in
      let wh := fhi <$> fcoordinates self in
      mkFBoundingBoxes (fcat (zip_with (lift2 fadd) xy (fvhalf <$> wh)) wh)
                       CXCYWH (fnormalized self) (fimage_size self)
  | CXCYWH => self
  end.

(** [torch.tensor([W, H, W, H])] for [H, W = self.image_size]. *)
Definition fnorm_factor (image_size : Z * Z) : frow :=
  let '(H, W) := image_size in
  FRow (finite (inject_Z W)) (finite (inject_Z H))
       (finite (inject_Z W)) (finite (inject_Z H)).

Definition normalize (self : FBoundingBoxes) : FBoundingBoxes :=
  if fnormalized self then self
  else mkFBoundingBoxes (frow_div (fnorm_factor (fimage_size self)) <$> fcoordinates self)
                        (fformat self) true (fimage_size self).

Definition denormalize (self : FBoundingBoxes) : FBoundingBoxes :=
  if negb (fnormalized self) then self
  else mkFBoundingBoxes (frow_mul (fnorm_factor (fimage_size self)) <$> fcoordinates self)
                        (fformat self) false (fimage_size self).

Definition convert (self : FBoundingBoxes) (format : option BoundingBoxFormat)
    (normalized : option bool) : FBoundingBoxes :=
  let boxes := match format with
               | Some XYXY => to_xyxy self
               | Some XYWH => to_xywh self
               | Some CXCYWH => to_cxcywh self
               | None => self
               end in
  match normalized with
  | Some true => normalize boxes
  | Some false => denormalize boxes
  | None => boxes
  end.

Definition convert_like (self other : FBoundingBoxes) : FBoundingBoxes :=
  convert self (Some (fformat other)) (Some (fnormalized other)).

Definition _check_compatibility (self other : FBoundingBoxes) : outcome unit :=
  let n := length (fcoordinates self) in
  let m := length (fcoordinates other) in
  if negb (Nat.eqb n m) then Raise (ValueError (num_boxes_differ n m))
  else if decide (fimage_size self ≠ fimage_size other)
  then Raise (ValueError (image_size_differs (fimage_size self) (fimage_size other)))
  else Ok tt.

Definition area (self : FBoundingBoxes) : list float :=
  match fformat self with
  | XYXY =>
      let wh := zip_with (lift2 fsub) (fhi <$> fcoordinates self)
                         (flo <$> fcoordinates self) in
      (λ v, fmul (fst v) (snd v)) <$> wh
  | XYWH => zip_with fmul (f2 <$> fcoordinates self) (f3 <$> fcoordinates self)
  | CXCYWH => zip_with fmul (f2 <$> fcoordinates self) (f3 <$> fcoordinates self)
  end.

(** After the compatibility check the two tensors have as many rows. *)
Definition intersection (self other : FBoundingBoxes) : outcome FBoundingBoxes :=
  let boxes1 := to_xyxy self in
  let boxes2 := convert_like other boxes1 in
  let* _ := _check_compatibility boxes1 boxes2 in
  let x1y1 := zip_with (lift2 fmax) (flo <$> fcoordinates boxes1)
                       (flo <$> fcoordinates boxes2) in
  let x2y2 := zip_with (lift2 fmin) (fhi <$> fcoordinates boxes1)
                       (fhi <$> fcoordinates boxes2) in
  let wh := (λ v, (fclamp_min0 (fst v), fclamp_min0 (snd v)))
              <$> zip_with (lift2 fsub) x2y2 x1y1 in
  Ok (mkFBoundingBoxes (fcat x1y1 wh) XYWH (fnormalized boxes1) (fimage_size boxes1)).



End Bboxes_float.

(* ====================================================================== *)
(** * Part II: properties                                                  *)
(* ====================================================================== *)

Module Bboxes_facts.
Import Bboxes Bboxes_spec.
Local Open Scope Q_scope.

(** ** Running a computation *)

Lemma bind_Ok {A B} (m : M A) (k : A → M B) σ a σ' :
  m σ = Ok (a, σ') → (m ≫= k) σ = k a σ'.
Proof. unfold mbind, M_bind. intros ->. reflexivity. Qed.

Lemma bind_Raise {A B} (m : M A) (k : A → M B) σ e :
  m σ = Raise e → (m ≫= k) σ = Raise e.
Proof. unfold mbind, M_bind. intros ->. reflexivity. Qed.

#[local] Instance ext_preorder : PreOrder ext.
Proof.
  split.
  - intros σ. split; reflexivity.
  - intros a b c [? ?] [? ?]. split; etrans; eauto.
Qed.

Lemma view_of_ext σ σ' r v : ext σ σ' → view_of σ r = Some v → view_of σ' r = Some v.
Proof.
  intros [Ht Ho]. unfold view_of.
  destruct (objects σ !! r) as [b|] eqn:Hb; [|discriminate].
  rewrite (prefix_lookup_Some _ _ _ _ Hb Ho).
  destruct (tensors σ !! _coordinates b) as [t|] eqn:Hc; [|discriminate].
  rewrite (prefix_lookup_Some _ _ _ _ Hc Ht). auto.
Qed.

Lemma returns_ret {A} (a : A) σ (P : A → store → Prop) :
  P a σ → returns (mret a) σ P.
Proof. intros. exists a, σ. repeat split; auto; reflexivity. Qed.

Lemma returns_bind {A B} (m : M A) (k : A → M B) σ P Q :
  returns m σ P →
  (∀ a σ', ext σ σ' → P a σ' → returns (k a) σ' Q) →
  returns (m ≫= k) σ Q.
Proof.
  intros (a & σ1 & Hm & He & HP) Hk.
  destruct (Hk a σ1 He HP) as (b & σ2 & Hk' & He' & HQ).
  exists b, σ2. rewrite (bind_Ok _ _ _ _ _ Hm).
  split; [exact Hk'|]. split; [etrans; eauto|exact HQ].
Qed.

Lemma returns_mono {A} (m : M A) σ (P Q : A → store → Prop) :
  returns m σ P → (∀ a σ', ext σ σ' → P a σ' → Q a σ') → returns m σ Q.
Proof. intros (a & σ' & Hm & He & HP) HPQ. exists a, σ'. auto. Qed.

Lemma view_of_obj σ r v :
  view_of σ r = Some v →
  ∃ b, objects σ !! r = Some b ∧ tensors σ !! _coordinates b = Some (coordinates v)
       ∧ _format b = format v ∧ _normalized b = normalized v
       ∧ _image_size b = image_size v.
Proof.
  unfold view_of. destruct (objects σ !! r) as [b|] eqn:Hb; [|discriminate].
  destruct (tensors σ !! _coordinates b) as [t|] eqn:Ht; [|discriminate].
  intros [= <-]. exists b. simpl. repeat split; auto.
Qed.

Lemma get_obj_Ok σ r b : objects σ !! r = Some b → get_obj r σ = Ok (b, σ).
Proof. unfold get_obj. intros ->. reflexivity. Qed.

Lemma read_Ok σ l t : tensors σ !! l = Some t → read l σ = Ok (t, σ).
Proof. unfold read. intros ->. reflexivity. Qed.

Lemma lookup_snoc {A} (l : list A) (x : A) : (l ++ [x]) !! length l = Some x.
Proof. apply list_lookup_middle. reflexivity. Qed.

(** A new tensor bound to a new object. *)
Lemma new_returns σ t f n sz :
  returns (l ← fresh t; __init__ l f n sz) σ
    (λ r σ', view_of σ' r = Some (mkView t f n sz) ∧ objects σ !! r = None).
Proof.
  eexists _, _. split; [reflexivity|]. split; [|split].
  - split; apply prefix_app_r; reflexivity.
  - unfold view_of. simpl.
    rewrite lookup_snoc. simpl. rewrite lookup_snoc. reflexivity.
  - apply lookup_ge_None. simpl. lia.
Qed.

(** ** What each conversion computes, row by row *)

Lemma zip_with_fmap_same {A B C D} (h : B → C → D) (f : A → B) (g : A → C) (c : list A) :
  zip_with h (f <$> c) (g <$> c) = (λ r, h (f r) (g r)) <$> c.
Proof. induction c as [|x c IH]; simpl; [reflexivity|]. f_equal. exact IH. Qed.

Lemma fmap_fmap {A B C} (f : A → B) (g : B → C) (c : list A) :
  g <$> (f <$> c) = (λ r, g (f r)) <$> c.
Proof. rewrite <- list_fmap_compose. reflexivity. Qed.

Lemma fmap_id' {A} (c : list A) : (λ r, r) <$> c = c.
Proof. apply list_fmap_id. Qed.

Ltac rowwise :=
  unfold cat, tadd, tsub;
  repeat (rewrite zip_with_fmap_same || rewrite fmap_fmap).

Lemma returns_get_obj {B} σ r b (k : BoundingBoxes → M B) Q :
  objects σ !! r = Some b → returns (k b) σ Q → returns (get_obj r ≫= k) σ Q.
Proof.
  intros Hb (x & σ' & Hk & He & HQ). exists x, σ'.
  rewrite (bind_Ok _ _ _ _ _ (get_obj_Ok _ _ _ Hb)). auto.
Qed.

Lemma returns_read {B} σ l t (k : tensor → M B) Q :
  tensors σ !! l = Some t → returns (k t) σ Q → returns (read l ≫= k) σ Q.
Proof.
  intros Hb (x & σ' & Hk & He & HQ). exists x, σ'.
  rewrite (bind_Ok _ _ _ _ _ (read_Ok _ _ _ Hb)). auto.
Qed.

Ltac start_method Hv :=
  let b := fresh "b" in
  let Hb := fresh "Hb" in
  let Hc := fresh "Hc" in
  let Hf := fresh "Hf" in
  let Hn := fresh "Hn" in
  let Hs := fresh "Hs" in
  destruct (view_of_obj _ _ _ Hv) as (b & Hb & Hc & Hf & Hn & Hs);
  apply (returns_get_obj _ _ _ _ _ Hb); rewrite ?Hf, ?Hn, ?Hs.

Ltac read_coords Hc := apply (returns_read _ _ _ _ _ Hc).

Lemma to_xyxy_spec σ self v :
  view_of σ self = Some v →
  converts (to_xyxy self) σ
    (mkView (format_row (format v) XYXY <$> coordinates v)
            XYXY (normalized v) (image_size v)).
Proof.
  intros Hv. unfold converts, to_xyxy. start_method Hv.
  destruct (format v) eqn:Ef.
  - apply returns_ret. rewrite Hv. destruct v; simpl in *. subst.
    rewrite fmap_id'. reflexivity.
  - read_coords Hc. rowwise.
    eapply returns_mono; [apply new_returns|]. intros ? ? _ [-> _]. reflexivity.
  - read_coords Hc. rowwise.
    eapply returns_mono; [apply new_returns|]. intros ? ? _ [-> _]. reflexivity.
Qed.

Lemma to_xywh_spec σ self v :
  view_of σ self = Some v →
  converts (to_xywh self) σ
    (mkView (format_row (format v) XYWH <$> coordinates v)
            XYWH (normalized v) (image_size v)).
Proof.
  intros Hv. unfold converts, to_xywh. start_method Hv.
  destruct (format v) eqn:Ef.
  - read_coords Hc. rowwise.
    eapply returns_mono; [apply new_returns|]. intros ? ? _ [-> _]. reflexivity.
  - apply returns_ret. rewrite Hv. destruct v; simpl in *. subst.
    rewrite fmap_id'. reflexivity.
  - read_coords Hc. rowwise.
    eapply returns_mono; [apply new_returns|]. intros ? ? _ [-> _]. reflexivity.
Qed.

Lemma to_cxcywh_spec σ self v :
  view_of σ self = Some v →
  converts (to_cxcywh self) σ
    (mkView (format_row (format v) CXCYWH <$> coordinates v)
            CXCYWH (normalized v) (image_size v)).
Proof.
  intros Hv. unfold converts, to_cxcywh. start_method Hv.
  destruct (format v) eqn:Ef.
  - read_coords Hc. rowwise.
    eapply returns_mono; [apply new_returns|]. intros ? ? _ [-> _]. reflexivity.
  - read_coords Hc. rowwise.
    eapply returns_mono; [apply new_returns|]. intros ? ? _ [-> _]. reflexivity.
  - apply returns_ret. rewrite Hv. destruct v; simpl in *. subst.
    rewrite fmap_id'. reflexivity.
Qed.

Lemma normalize_spec σ self v :
  view_of σ self = Some v →
  converts (normalize self) σ
    (mkView (normalization_row (image_size v) (normalized v) true <$> coordinates v)
            (format v) true (image_size v)).
Proof.
  intros Hv. unfold converts, normalize. start_method Hv.
  destruct (normalized v) eqn:En; simpl.
  - apply returns_ret. rewrite Hv. destruct v; simpl in *. subst.
    rewrite fmap_id'. reflexivity.
  - read_coords Hc.
    eapply returns_mono; [apply new_returns|]. intros ? ? _ [-> _]. reflexivity.
Qed.

Lemma denormalize_spec σ self v :
  view_of σ self = Some v →
  converts (denormalize self) σ
    (mkView (normalization_row (image_size v) (normalized v) false <$> coordinates v)
            (format v) false (image_size v)).
Proof.
  intros Hv. unfold converts, denormalize. start_method Hv.
  destruct (normalized v) eqn:En; simpl.
  - read_coords Hc.
    eapply returns_mono; [apply new_returns|]. intros ? ? _ [-> _]. reflexivity.
  - apply returns_ret. rewrite Hv. destruct v; simpl in *. subst.
    rewrite fmap_id'. reflexivity.
Qed.

Lemma convert_spec σ self v f2 n2 :
  view_of σ self = Some v →
  converts (convert self (Some f2) (Some n2)) σ (convert_view f2 n2 v).
Proof.
  intros Hv. unfold converts, convert.
  eapply returns_bind.
  - instantiate (1 := λ r σ', view_of σ' r =
      Some (mkView (format_row (format v) f2 <$> coordinates v) f2
                   (normalized v) (image_size v))).
    destruct f2.
    + apply to_xyxy_spec, Hv.
    + apply to_xywh_spec, Hv.
    + apply to_cxcywh_spec, Hv.
  - intros r σ' _ Hr. destruct n2.
    + apply (normalize_spec _ _ _ Hr).
    + apply (denormalize_spec _ _ _ Hr).
Qed.

Lemma convert_like_spec σ self other v vo :
  view_of σ self = Some v → view_of σ other = Some vo →
  converts (convert_like self other) σ (convert_view (format vo) (normalized vo) v).
Proof.
  intros Hv Ho. unfold converts, convert_like.
  destruct (view_of_obj _ _ _ Ho) as (b & Hb & _ & Hf & Hn & _).
  apply (returns_get_obj _ _ _ _ _ Hb). rewrite Hf, Hn.
  apply convert_spec, Hv.
Qed.

(** ** Equality of coordinates up to [==] *)

Lemma tensor_eq_fmap (g : row → row) (c : tensor) :
  (∀ r, row_eq (g r) r) → tensor_eq (g <$> c) c.
Proof.
  intros Hg. induction c as [|r c IH]; simpl; constructor; auto.
Qed.

Lemma inject_Z_nonzero (z : Z) : z ≠ 0%Z → ¬ inject_Z z == 0.
Proof.
  intros Hz H. apply Hz. unfold Qeq, inject_Z in H. simpl in H. lia.
Qed.

(** Converting a row to another format and normalization and back. *)
Lemma convert_row_roundtrip (sz : Z * Z) f n f2 n2 (r : row) :
  fst sz ≠ 0%Z → snd sz ≠ 0%Z →
  row_eq (normalization_row sz n2 n
            (format_row f2 f (normalization_row sz n n2 (format_row f f2 r)))) r.
Proof.
  destruct sz as [H W]. simpl. intros HH HW.
  apply inject_Z_nonzero in HH, HW.
  destruct r as [a b c d].
  destruct f, f2, n, n2; unfold row_eq; simpl; repeat split; field; auto.
Qed.

(** ** [horizontal_flip] *)

Lemma insert_snoc {A} (l : list A) (x y : A) : <[length l := y]> (l ++ [x]) = l ++ [y].
Proof. rewrite insert_app_r_alt by lia. rewrite Nat.sub_diag. reflexivity. Qed.

Lemma read_snoc ts os c :
  read (length ts) (mkStore (ts ++ [c]) os) = Ok (c, mkStore (ts ++ [c]) os).
Proof. apply read_Ok. simpl. apply lookup_snoc. Qed.

Lemma write_snoc ts os c t :
  write (length ts) t (mkStore (ts ++ [c]) os) = Ok (tt, mkStore (ts ++ [t]) os).
Proof. unfold write. simpl. rewrite lookup_snoc, insert_snoc. reflexivity. Qed.

Lemma inplace_col_snoc ts os c j f :
  inplace_col (length ts) j f (mkStore (ts ++ [c]) os)
  = Ok (tt, mkStore (ts ++ [(λ r, set_col j (f r (col j r)) r) <$> c]) os).
Proof.
  unfold inplace_col. rewrite (bind_Ok _ _ _ _ _ (read_snoc ts os c)).
  apply write_snoc.
Qed.

(** The store after [horizontal_flip]: one new buffer holding the flipped
    clone, one new object; nothing else is touched. *)
Lemma horizontal_flip_run σ self v :
  view_of σ self = Some v →
  horizontal_flip self σ =
    Ok (length (objects σ),
        mkStore (tensors σ ++ [flip_row (format v) (flip_width v) <$> coordinates v])
                (objects σ ++ [mkBoundingBoxes (length (tensors σ)) (format v)
                                               (normalized v) (image_size v)])).
Proof.
  intros Hv. destruct (view_of_obj _ _ _ Hv) as (b & Hb & Hc & Hf & Hn & Hs).
  unfold horizontal_flip, mbind, M_bind.
  rewrite (get_obj_Ok _ _ _ Hb), (read_Ok _ _ _ Hc).
  rewrite Hf, Hn, Hs. fold (flip_width v). generalize (flip_width v) as W. intros W.
  destruct σ as [ts os]. unfold fresh, __init__. cbn [tensors objects].
  destruct (format v).
  - rewrite read_snoc, write_snoc. cbn [tensors objects].
    rewrite !fmap_fmap, zip_with_fmap_r, zip_with_diag. reflexivity.
  - rewrite !inplace_col_snoc. cbn [tensors objects].
    rewrite !fmap_fmap. reflexivity.
  - rewrite !inplace_col_snoc. cbn [tensors objects].
    rewrite !fmap_fmap. reflexivity.
Qed.

Lemma flip_row_involutive f W r : row_eq (flip_row f W (flip_row f W r)) r.
Proof. destruct r, f; unfold row_eq; simpl; repeat split; ring. Qed.

(** ** Set operations *)

Lemma bind_returns_Raise {A B} (m : M A) (k : A → M B) σ P e :
  returns m σ P →
  (∀ a σ', ext σ σ' → P a σ' → k a σ' = Raise e) →
  (m ≫= k) σ = Raise e.
Proof.
  intros (a & σ' & Hm & He & HP) Hk.
  rewrite (bind_Ok _ _ _ _ _ Hm). auto.
Qed.

Lemma len_run σ r v :
  view_of σ r = Some v → __len__ r σ = Ok (length (coordinates v), σ).
Proof.
  intros Hv. destruct (view_of_obj _ _ _ Hv) as (b & Hb & Hc & _).
  unfold __len__, mbind, M_bind.
  rewrite (get_obj_Ok _ _ _ Hb), (read_Ok _ _ _ Hc). reflexivity.
Qed.

Lemma check_compatibility_run σ a b va vb :
  view_of σ a = Some va → view_of σ b = Some vb →
  _check_compatibility a b σ =
    if negb (length (coordinates va) =? length (coordinates vb))%nat
    then Raise (ValueError (num_boxes_differ (length (coordinates va)) (length (coordinates vb))))
    else if decide (image_size va ≠ image_size vb)
         then Raise (ValueError (image_size_differs (image_size va) (image_size vb)))
         else Ok (tt, σ).
Proof.
  intros Ha Hb.
  destruct (view_of_obj _ _ _ Ha) as (oa & Hoa & _ & _ & _ & Hsa).
  destruct (view_of_obj _ _ _ Hb) as (ob & Hob & _ & _ & _ & Hsb).
  unfold _check_compatibility, mbind, M_bind.
  rewrite (len_run _ _ _ Ha), (len_run _ _ _ Hb).
  destruct (negb _); [reflexivity|].
  rewrite (get_obj_Ok _ _ _ Hoa), (get_obj_Ok _ _ _ Hob), Hsa, Hsb.
  destruct (decide _); reflexivity.
Qed.

Lemma area_run σ r v :
  view_of σ r = Some v →
  area r σ = Ok (area_row (format v) <$> coordinates v, σ).
Proof.
  intros Hv. destruct (view_of_obj _ _ _ Hv) as (b & Hb & Hc & Hf & _).
  unfold area, mbind, M_bind.
  rewrite (get_obj_Ok _ _ _ Hb), (read_Ok _ _ _ Hc), Hf.
  destruct (format v); unfold mret, M_ret; rowwise; reflexivity.
Qed.

Lemma elementwise_run {A B C} (f : A → B → C) (a : list A) (b : list B) σ :
  length a = length b → elementwise f a b σ = Ok (zip_with f a b, σ).
Proof. intros H. unfold elementwise. rewrite decide_True by exact H. reflexivity. Qed.

Lemma zip_with_zip_with_fmap {A B C D E} (h : C → D → E) (f : A → B → C)
    (g : A → B → D) (a : list A) (b : list B) :
  zip_with h (zip_with f a b) (zip_with g a b) = zip_with (λ x y, h (f x y) (g x y)) a b.
Proof.
  revert b. induction a as [|x a IH]; intros [|y b]; simpl; try reflexivity.
  f_equal. apply IH.
Qed.

Lemma operands_returns {B} σ a b va vb (k : nat → nat → M B) Q :
  view_of σ a = Some va → view_of σ b = Some vb →
  (∀ r1 r2 σ', ext σ σ' →
     view_of σ' r1 = Some (operand1 va) → view_of σ' r2 = Some (operand2 va vb) →
     returns (k r1 r2) σ' Q) →
  returns (boxes1 ← to_xyxy a; boxes2 ← convert_like b boxes1; k boxes1 boxes2) σ Q.
Proof.
  intros Ha Hb Hk.
  eapply returns_bind; [apply to_xyxy_spec, Ha|]. intros r1 σ1 E1 H1.
  eapply returns_bind;
    [apply (convert_like_spec σ1 b r1 vb _ (view_of_ext _ _ _ _ E1 Hb) H1)|].
  intros r2 σ2 E2 H2. apply Hk; auto.
  - etrans; eauto.
  - eapply view_of_ext; eauto.
Qed.

Lemma operands_Raise {B} σ a b va vb (k : nat → nat → M B) e :
  view_of σ a = Some va → view_of σ b = Some vb →
  (∀ r1 r2 σ',
     view_of σ' r1 = Some (operand1 va) → view_of σ' r2 = Some (operand2 va vb) →
     k r1 r2 σ' = Raise e) →
  (boxes1 ← to_xyxy a; boxes2 ← convert_like b boxes1; k boxes1 boxes2) σ = Raise e.
Proof.
  intros Ha Hb Hk.
  eapply bind_returns_Raise; [apply to_xyxy_spec, Ha|]. intros r1 σ1 E1 H1.
  eapply bind_returns_Raise;
    [apply (convert_like_spec σ1 b r1 vb _ (view_of_ext _ _ _ _ E1 Hb) H1)|].
  intros r2 σ2 E2 H2. apply Hk; auto. eapply view_of_ext; eauto.
Qed.

Lemma operand_lengths va vb :
  length (coordinates (operand1 va)) = length (coordinates va) ∧
  length (coordinates (operand2 va vb)) = length (coordinates vb).
Proof. unfold operand1, operand2, convert_view. simpl. rewrite !length_fmap. auto. Qed.

Lemma compatibility_error_ValueError va vb :
  is_ValueError (compatibility_error va vb) = true.
Proof. unfold compatibility_error. destruct (negb _); reflexivity. Qed.

Lemma check_operands σ r1 r2 va vb :
  view_of σ r1 = Some (operand1 va) → view_of σ r2 = Some (operand2 va vb) →
  _check_compatibility r1 r2 σ =
    if decide (compatible va vb) then Ok (tt, σ)
    else Raise (compatibility_error va vb).
Proof.
  intros H1 H2. rewrite (check_compatibility_run _ _ _ _ _ H1 H2).
  destruct (operand_lengths va vb) as [-> ->]. simpl.
  unfold compatibility_error, compatible.
  destruct (Nat.eqb_spec (length (coordinates va)) (length (coordinates vb))); simpl.
  - destruct (decide (image_size va ≠ image_size vb)).
    + rewrite decide_False by tauto. reflexivity.
    + rewrite decide_True; [reflexivity|]. split; [assumption|].
      destruct (decide (image_size va = image_size vb)); tauto.
  - rewrite decide_False by tauto. reflexivity.
Qed.

Lemma union_spec σ a b va vb :
  view_of σ a = Some va → view_of σ b = Some vb → compatible va vb →
  converts (union a b) σ
    (mkView (zip_with union_row (coordinates (operand1 va))
                                (coordinates (operand2 va vb)))
            XYXY (normalized va) (image_size va)).
Proof.
  intros Ha Hb Hcomp. unfold converts, union.
  apply (operands_returns _ _ _ _ _ _ _ Ha Hb). intros r1 r2 σ' E H1 H2.
  assert (Hlen : length (lo <$> coordinates (operand1 va))
                 = length (lo <$> coordinates (operand2 va vb))).
  { rewrite !length_fmap. destruct (operand_lengths va vb) as [-> ->]. apply Hcomp. }
  assert (Hlen' : length (hi <$> coordinates (operand1 va))
                 = length (hi <$> coordinates (operand2 va vb))).
  { rewrite !length_fmap in *. exact Hlen. }
  eapply returns_bind.
  { exists tt, σ'. rewrite (check_operands _ _ _ _ _ H1 H2).
    rewrite decide_True by exact Hcomp.
    split; [reflexivity|]. split; [reflexivity|]. instantiate (1 := λ _ s, s = σ').
    reflexivity. }
  intros [] ? _ ->.
  destruct (view_of_obj _ _ _ H1) as (b1 & Hb1 & Hc1 & _ & Hn1 & Hs1).
  destruct (view_of_obj _ _ _ H2) as (b2 & Hb2 & Hc2 & _).
  apply (returns_get_obj _ _ _ _ _ Hb1).
  apply (returns_get_obj _ _ _ _ _ Hb2).
  apply (returns_read _ _ _ _ _ Hc1).
  apply (returns_read _ _ _ _ _ Hc2).
  unfold returns.
  rewrite (bind_Ok _ _ _ _ _ (elementwise_run _ _ _ _ Hlen)).
  rewrite (bind_Ok _ _ _ _ _ (elementwise_run _ _ _ _ Hlen')).
  rewrite Hn1, Hs1.
  eapply returns_mono; [apply new_returns|]. intros ? ? _ [-> _].
  f_equal. f_equal. unfold cat.
  rewrite !zip_with_fmap_l, !zip_with_fmap_r, zip_with_zip_with_fmap. reflexivity.
Qed.

Lemma intersection_spec σ a b va vb :
  view_of σ a = Some va → view_of σ b = Some vb → compatible va vb →
  converts (intersection a b) σ
    (mkView (zip_with intersection_row (coordinates (operand1 va))
                                       (coordinates (operand2 va vb)))
            XYWH (normalized va) (image_size va)).
Proof.
  intros Ha Hb Hcomp. unfold converts, intersection.
  apply (operands_returns _ _ _ _ _ _ _ Ha Hb). intros r1 r2 σ' E H1 H2.
  assert (Hlen : length (lo <$> coordinates (operand1 va))
                 = length (lo <$> coordinates (operand2 va vb))).
  { rewrite !length_fmap. destruct (operand_lengths va vb) as [-> ->]. apply Hcomp. }
  assert (Hlen' : length (hi <$> coordinates (operand1 va))
                 = length (hi <$> coordinates (operand2 va vb))).
  { rewrite !length_fmap in *. exact Hlen. }
  eapply returns_bind.
  { exists tt, σ'. rewrite (check_operands _ _ _ _ _ H1 H2).
    rewrite decide_True by exact Hcomp.
    split; [reflexivity|]. split; [reflexivity|]. instantiate (1 := λ _ s, s = σ').
    reflexivity. }
  intros [] ? _ ->.
  destruct (view_of_obj _ _ _ H1) as (b1 & Hb1 & Hc1 & _ & Hn1 & Hs1).
  destruct (view_of_obj _ _ _ H2) as (b2 & Hb2 & Hc2 & _).
  apply (returns_get_obj _ _ _ _ _ Hb1).
  apply (returns_get_obj _ _ _ _ _ Hb2).
  apply (returns_read _ _ _ _ _ Hc1).
  apply (returns_read _ _ _ _ _ Hc2).
  unfold returns.
  rewrite (bind_Ok _ _ _ _ _ (elementwise_run _ _ _ _ Hlen)).
  rewrite (bind_Ok _ _ _ _ _ (elementwise_run _ _ _ _ Hlen')).
  rewrite Hn1, Hs1.
  eapply returns_mono; [apply new_returns|]. intros ? ? _ [-> _].
  f_equal. f_equal. unfold cat, tsub.
  generalize (coordinates (operand1 va)), (coordinates (operand2 va vb)).
  intros l1. induction l1 as [|x l1 IH]; intros [|y l2]; simpl; try reflexivity.
  f_equal. apply IH.
Qed.

Lemma union_Raise σ a b va vb :
  view_of σ a = Some va → view_of σ b = Some vb → ¬ compatible va vb →
  union a b σ = Raise (compatibility_error va vb).
Proof.
  intros Ha Hb Hn. unfold union.
  apply (operands_Raise _ _ _ _ _ _ _ Ha Hb). intros r1 r2 σ' H1 H2.
  apply bind_Raise. rewrite (check_operands _ _ _ _ _ H1 H2).
  rewrite decide_False by exact Hn. reflexivity.
Qed.

Lemma intersection_Raise σ a b va vb :
  view_of σ a = Some va → view_of σ b = Some vb → ¬ compatible va vb →
  intersection a b σ = Raise (compatibility_error va vb).
Proof.
  intros Ha Hb Hn. unfold intersection.
  apply (operands_Raise _ _ _ _ _ _ _ Ha Hb). intros r1 r2 σ' H1 H2.
  apply bind_Raise. rewrite (check_operands _ _ _ _ _ H1 H2).
  rewrite decide_False by exact Hn. reflexivity.
Qed.

Lemma normalization_guard {B} σ a b va vb (k : M B) :
  view_of σ a = Some va → view_of σ b = Some vb →
  (s ← get_obj a; o ← get_obj b;
   if negb (eqb (_normalized s) (_normalized o))
   then raise (ValueError normalization_differs) else k) σ
  = if eqb (normalized va) (normalized vb) then k σ
    else Raise (ValueError normalization_differs).
Proof.
  intros Ha Hb.
  destruct (view_of_obj _ _ _ Ha) as (oa & Hoa & _ & _ & Hna & _).
  destruct (view_of_obj _ _ _ Hb) as (ob & Hob & _ & _ & Hnb & _).
  unfold mbind, M_bind.
  rewrite (get_obj_Ok _ _ _ Hoa), (get_obj_Ok _ _ _ Hob), Hna, Hnb.
  destruct (eqb _ _); reflexivity.
Qed.

Lemma intersection_area_run σ a b va vb :
  view_of σ a = Some va → view_of σ b = Some vb →
  normalized va = normalized vb → compatible va vb →
  ∃ σ', intersection_area a b σ =
          Ok (area_row XYWH <$> coordinates (intersection_view va vb), σ')
        ∧ ext σ σ'.
Proof.
  intros Ha Hb Hn Hcomp. unfold intersection_area.
  rewrite (normalization_guard _ _ _ _ _ _ Ha Hb), Hn, eqb_reflx.
  destruct (intersection_spec _ _ _ _ _ Ha Hb Hcomp) as (r & σ' & Hi & E & Hr).
  exists σ'. rewrite (bind_Ok _ _ _ _ _ Hi), (area_run _ _ _ Hr). auto.
Qed.

Lemma intersection_area_Raise σ a b va vb :
  view_of σ a = Some va → view_of σ b = Some vb →
  intersection_area a b σ =
    if eqb (normalized va) (normalized vb)
    then (if decide (compatible va vb) then intersection_area a b σ
          else Raise (compatibility_error va vb))
    else Raise (ValueError normalization_differs).
Proof.
  intros Ha Hb. destruct (eqb (normalized va) (normalized vb)) eqn:En.
  - destruct (decide (compatible va vb)) as [|Hn]; [reflexivity|].
    unfold intersection_area.
    rewrite (normalization_guard _ _ _ _ _ _ Ha Hb), En.
    apply bind_Raise, (intersection_Raise _ _ _ _ _ Ha Hb Hn).
  - unfold intersection_area.
    rewrite (normalization_guard _ _ _ _ _ _ Ha Hb), En. reflexivity.
Qed.

Lemma union_area_run σ a b va vb :
  view_of σ a = Some va → view_of σ b = Some vb →
  normalized va = normalized vb → compatible va vb →
  ∃ σ', union_area a b σ =
          Ok (zip_with Qminus
                (zip_with Qplus (area_row (format va) <$> coordinates va)
                                (area_row (format vb) <$> coordinates vb))
                (area_row XYWH <$> coordinates (intersection_view va vb)), σ')
        ∧ ext σ σ'.
Proof.
  intros Ha Hb Hn Hcomp. unfold union_area.
  rewrite (normalization_guard _ _ _ _ _ _ Ha Hb), Hn, eqb_reflx.
  rewrite (bind_Ok _ _ _ _ _ (area_run _ _ _ Ha)).
  rewrite (bind_Ok _ _ _ _ _ (area_run _ _ _ Hb)).
  destruct (intersection_area_run _ _ _ _ _ Ha Hb Hn Hcomp) as (σ' & Hi & E).
  rewrite (bind_Ok _ _ _ _ _ Hi). exists σ'. split; [|exact E].
  destruct Hcomp as [Hlen _].
  assert (Hl : length (area_row (format va) <$> coordinates va)
               = length (area_row (format vb) <$> coordinates vb)).
  { rewrite !length_fmap. exact Hlen. }
  rewrite (bind_Ok _ _ _ _ _ (elementwise_run _ _ _ _ Hl)).
  apply elementwise_run.
  rewrite length_zip_with, !length_fmap. unfold intersection_view.
  cbn [coordinates].
  rewrite length_zip_with. destruct (operand_lengths va vb) as [-> ->]. lia.
Qed.

Lemma union_area_Raise σ a b va vb :
  view_of σ a = Some va → view_of σ b = Some vb →
  (normalized va ≠ normalized vb → union_area a b σ = Raise (ValueError normalization_differs))
  ∧ (normalized va = normalized vb → ¬ compatible va vb →
     union_area a b σ = Raise (compatibility_error va vb)).
Proof.
  intros Ha Hb. unfold union_area.
  rewrite (normalization_guard _ _ _ _ _ _ Ha Hb). split.
  - intros Hn. destruct (eqb_spec (normalized va) (normalized vb)); [tauto|reflexivity].
  - intros Hn Hc. rewrite Hn, eqb_reflx.
    rewrite (bind_Ok _ _ _ _ _ (area_run _ _ _ Ha)).
    rewrite (bind_Ok _ _ _ _ _ (area_run _ _ _ Hb)).
    apply bind_Raise. rewrite (intersection_area_Raise _ _ _ _ _ Ha Hb).
    rewrite Hn, eqb_reflx, decide_False by exact Hc. reflexivity.
Qed.

(** ** Examples used below *)

Lemma example_boxes_built :
  (a ← BoundingBoxes_new [Row 0 0 2 2] XYXY false (10, 10)%Z;
   b ← BoundingBoxes_new [Row 1 1 3 3] XYXY false (10, 10)%Z;
   mret (a, b)) empty_store = Ok ((0%nat, 1%nat), example_boxes).
Proof. reflexivity. Qed.

(** ** The properties *)

(** C5 (as amended).  For a box set whose image has non-zero height and
    width, converting to any format and normalization state and back to
    the original ones gives the original coordinates (exactly, over exact
    arithmetic) with the original format, normalized flag and image size. *)
Theorem convert_roundtrip σ self v f2 n2 :
  view_of σ self = Some v →
  fst (image_size v) ≠ 0%Z → snd (image_size v) ≠ 0%Z →
  ∃ r1 σ1 r2 σ2 v2,
    convert self (Some f2) (Some n2) σ = Ok (r1, σ1) ∧
    convert r1 (Some (format v)) (Some (normalized v)) σ1 = Ok (r2, σ2) ∧
    view_of σ2 r2 = Some v2 ∧
    tensor_eq (coordinates v2) (coordinates v) ∧
    format v2 = format v ∧ normalized v2 = normalized v ∧
    image_size v2 = image_size v.
Proof.
  intros Hv HH HW.
  destruct (convert_spec σ self v f2 n2 Hv) as (r1 & σ1 & H1 & _ & Hv1).
  destruct (convert_spec σ1 r1 _ (format v) (normalized v) Hv1)
    as (r2 & σ2 & H2 & _ & Hv2).
  exists r1, σ1, r2, σ2, (convert_view (format v) (normalized v) (convert_view f2 n2 v)).
  repeat split; auto.
  unfold convert_view. cbn [coordinates format normalized image_size].
  rewrite !fmap_fmap. apply tensor_eq_fmap. intros r.
  apply convert_row_roundtrip; assumption.
Qed.

Lemma convert_roundtrip_witness :
  view_of example_boxes 0 = Some (mkView [Row 0 0 2 2] XYXY false (10, 10)%Z) ∧
  ∃ r1 σ1 r2 σ2 v2,
    convert 0 (Some CXCYWH) (Some true) example_boxes = Ok (r1, σ1) ∧
    convert r1 (Some XYXY) (Some false) σ1 = Ok (r2, σ2) ∧
    view_of σ2 r2 = Some v2 ∧
    tensor_eq (coordinates v2) [Row 0 0 2 2] ∧
    format v2 = XYXY ∧ normalized v2 = false ∧ image_size v2 = (10, 10)%Z.
Proof.
  split; [reflexivity|].
  apply (convert_roundtrip example_boxes 0
           (mkView [Row 0 0 2 2] XYXY false (10, 10)%Z) CXCYWH true);
    [reflexivity | simpl; lia | simpl; lia].
Defined.

(** C5 as stated fails when the image size has a zero dimension: the
    normalization divides by zero and the coordinates cannot be recovered
    (the source gets [inf] and then [nan]; [Q] gives 0). *)
Lemma convert_roundtrip_counterexample :
  view_of degenerate_image 0 = Some (mkView [Row 1 1 2 2] XYXY false (0, 0)%Z) ∧
  ∃ r1 σ1 r2 σ2 v2,
    convert 0 (Some XYXY) (Some true) degenerate_image = Ok (r1, σ1) ∧
    convert r1 (Some XYXY) (Some false) σ1 = Ok (r2, σ2) ∧
    view_of σ2 r2 = Some v2 ∧
    ¬ tensor_eq (coordinates v2) [Row 1 1 2 2].
Proof.
  split; [reflexivity|].
  eexists _, _, _, _, _. split; [reflexivity|]. split; [reflexivity|].
  split; [reflexivity|]. simpl. intros H.
  inversion H as [|? ? ? ? Hr _]; subst. destruct Hr as [Hr _].
  vm_compute in Hr. discriminate Hr.
Qed.

(** C8.  A conversion method called on a set that already is in the
    requested state returns [self]: the very reference it was given, with
    the store left as it was. *)
Theorem conversions_return_self σ self v :
  view_of σ self = Some v →
  (format v = XYXY → to_xyxy self σ = Ok (self, σ)) ∧
  (format v = XYWH → to_xywh self σ = Ok (self, σ)) ∧
  (format v = CXCYWH → to_cxcywh self σ = Ok (self, σ)) ∧
  (normalized v = true → normalize self σ = Ok (self, σ)) ∧
  (normalized v = false → denormalize self σ = Ok (self, σ)).
Proof.
  intros Hv. destruct (view_of_obj _ _ _ Hv) as (b & Hb & _ & Hf & Hn & _).
  unfold to_xyxy, to_xywh, to_cxcywh, normalize, denormalize.
  repeat split; intros E;
    rewrite (bind_Ok _ _ _ _ _ (get_obj_Ok _ _ _ Hb)), ?Hf, ?Hn, E; reflexivity.
Qed.

Lemma conversions_return_self_witness :
  to_xyxy 0 example_boxes = Ok (0%nat, example_boxes) ∧
  denormalize 0 example_boxes = Ok (0%nat, example_boxes) ∧
  to_cxcywh 1 mixed_boxes = Ok (1%nat, mixed_boxes) ∧
  normalize 1 mixed_boxes = Ok (1%nat, mixed_boxes) ∧
  to_xywh 3 mixed_boxes = Ok (3%nat, mixed_boxes).
Proof.
  pose proof (conversions_return_self example_boxes 0
                (mkView [Row 0 0 2 2] XYXY false (10, 10)%Z) eq_refl)
    as (H1 & _ & _ & _ & H5).
  pose proof (conversions_return_self mixed_boxes 1
                (mkView [Row (1#5) (1#5) (1#10) (1#10)] CXCYWH true (10, 10)%Z) eq_refl)
    as (_ & _ & H3 & H4 & _).
  pose proof (conversions_return_self mixed_boxes 3
                (mkView [Row 0 0 2 2] XYWH false (10, 10)%Z) eq_refl)
    as (_ & H2 & _).
  repeat split; auto.
Defined.

(** C9.  [horizontal_flip] is an involution on the coordinates (exactly,
    over exact arithmetic) and keeps format, normalized flag and image
    size; it works on a clone: every buffer of the store it started from,
    the one of [self] included, is left as it was. *)
Theorem horizontal_flip_involution σ self v :
  view_of σ self = Some v →
  ∃ r1 σ1 r2 σ2 v2,
    horizontal_flip self σ = Ok (r1, σ1) ∧
    horizontal_flip r1 σ1 = Ok (r2, σ2) ∧
    view_of σ2 r2 = Some v2 ∧
    tensor_eq (coordinates v2) (coordinates v) ∧
    format v2 = format v ∧ normalized v2 = normalized v ∧
    image_size v2 = image_size v ∧
    (∀ l t, tensors σ !! l = Some t →
            tensors σ1 !! l = Some t ∧ tensors σ2 !! l = Some t) ∧
    view_of σ1 self = Some v ∧ view_of σ2 self = Some v.
Proof.
  intros Hv.
  pose proof (horizontal_flip_run σ self v Hv) as H1.
  set (v1 := mkView (flip_row (format v) (flip_width v) <$> coordinates v)
                    (format v) (normalized v) (image_size v)).
  set (σ1 := mkStore (tensors σ ++ [coordinates v1])
                     (objects σ ++ [mkBoundingBoxes (length (tensors σ)) (format v)
                                      (normalized v) (image_size v)])) in *.
  assert (Hv1 : view_of σ1 (length (objects σ)) = Some v1).
  { unfold view_of, σ1. cbn [objects tensors].
    rewrite lookup_snoc. cbn [_coordinates]. rewrite lookup_snoc. reflexivity. }
  pose proof (horizontal_flip_run σ1 _ v1 Hv1) as H2.
  set (v2 := mkView (flip_row (format v1) (flip_width v1) <$> coordinates v1)
                    (format v1) (normalized v1) (image_size v1)).
  set (σ2 := mkStore (tensors σ1 ++ [coordinates v2])
                     (objects σ1 ++ [mkBoundingBoxes (length (tensors σ1)) (format v1)
                                       (normalized v1) (image_size v1)])) in *.
  assert (E1 : ext σ σ1) by (split; apply prefix_app_r; reflexivity).
  assert (E2 : ext σ1 σ2) by (split; apply prefix_app_r; reflexivity).
  exists (length (objects σ)), σ1, (length (objects σ1)), σ2, v2.
  split; [exact H1|]. split; [exact H2|]. split.
  { unfold view_of, σ2. cbn [objects tensors].
    rewrite lookup_snoc. cbn [_coordinates]. rewrite lookup_snoc. reflexivity. }
  split.
  { unfold v2, v1. cbn [coordinates format]. rewrite fmap_fmap.
    apply tensor_eq_fmap. intros r. apply flip_row_involutive. }
  repeat split; try reflexivity.
  - eapply prefix_lookup_Some; [eassumption|apply E1].
  - eapply prefix_lookup_Some; [eassumption|]. etrans; [apply E1|apply E2].
  - eapply view_of_ext; eauto.
  - eapply view_of_ext; [|exact Hv]. etrans; eauto.
Qed.

Lemma horizontal_flip_involution_witness :
  ∃ r1 σ1 r2 σ2 v2,
    horizontal_flip 0 example_boxes = Ok (r1, σ1) ∧
    horizontal_flip r1 σ1 = Ok (r2, σ2) ∧
    view_of σ2 r2 = Some v2 ∧
    tensor_eq (coordinates v2) [Row 0 0 2 2] ∧
    format v2 = XYXY ∧ normalized v2 = false ∧ image_size v2 = (10, 10)%Z ∧
    (∀ l t, tensors example_boxes !! l = Some t →
            tensors σ1 !! l = Some t ∧ tensors σ2 !! l = Some t) ∧
    view_of σ1 0 = Some (mkView [Row 0 0 2 2] XYXY false (10, 10)%Z) ∧
    view_of σ2 0 = Some (mkView [Row 0 0 2 2] XYXY false (10, 10)%Z).
Proof.
  apply (horizontal_flip_involution example_boxes 0
           (mkView [Row 0 0 2 2] XYXY false (10, 10)%Z)).
  reflexivity.
Defined.

(** C6.  [union], [intersection] and [union_area] raise a ValueError
    whenever the operands differ in box count or in image size; the
    operands' formats play no part (with equal counts and image sizes the
    operations return, whatever the formats); [union_area] and
    [intersection_area] raise the normalization ValueError whenever the
    operands differ in normalization state. *)
Theorem set_operations_errors σ a b va vb :
  view_of σ a = Some va → view_of σ b = Some vb →
  (length (coordinates va) ≠ length (coordinates vb)
   ∨ image_size va ≠ image_size vb →
     raises_ValueError (union a b) σ ∧
     raises_ValueError (intersection a b) σ ∧
     raises_ValueError (union_area a b) σ) ∧
  (compatible va vb →
     (∃ r σ', union a b σ = Ok (r, σ')) ∧
     (∃ r σ', intersection a b σ = Ok (r, σ')) ∧
     (normalized va = normalized vb →
        (∃ x σ', union_area a b σ = Ok (x, σ')) ∧
        (∃ x σ', intersection_area a b σ = Ok (x, σ')))) ∧
  (normalized va ≠ normalized vb →
     union_area a b σ = Raise (ValueError normalization_differs) ∧
     intersection_area a b σ = Raise (ValueError normalization_differs)).
Proof.
  intros Ha Hb. split; [|split].
  - intros Hdiff.
    assert (Hn : ¬ compatible va vb) by (intros [? ?]; destruct Hdiff; auto).
    split; [|split].
    + exists (compatibility_error va vb).
      split; [apply (union_Raise _ _ _ _ _ Ha Hb Hn)|apply compatibility_error_ValueError].
    + exists (compatibility_error va vb).
      split; [apply (intersection_Raise _ _ _ _ _ Ha Hb Hn)
             |apply compatibility_error_ValueError].
    + destruct (union_area_Raise _ _ _ _ _ Ha Hb) as [Hd He].
      destruct (decide (normalized va = normalized vb)) as [En|En].
      * exists (compatibility_error va vb).
        split; [apply (He En Hn)|apply compatibility_error_ValueError].
      * exists (ValueError normalization_differs). split; [apply (Hd En)|reflexivity].
  - intros Hc. split; [|split].
    + destruct (union_spec _ _ _ _ _ Ha Hb Hc) as (r & σ' & H & _). eauto.
    + destruct (intersection_spec _ _ _ _ _ Ha Hb Hc) as (r & σ' & H & _). eauto.
    + intros En. split.
      * destruct (union_area_run _ _ _ _ _ Ha Hb En Hc) as (σ' & H & _). eauto.
      * destruct (intersection_area_run _ _ _ _ _ Ha Hb En Hc) as (σ' & H & _). eauto.
  - intros Hn. split.
    + apply (union_area_Raise _ _ _ _ _ Ha Hb), Hn.
    + rewrite (intersection_area_Raise _ _ _ _ _ Ha Hb).
      destruct (eqb_spec (normalized va) (normalized vb)); [tauto|reflexivity].
Qed.

Lemma set_operations_errors_witness :
  (* a set of one box against a set of two *)
  (raises_ValueError (union 0 2) mixed_boxes ∧
   raises_ValueError (intersection 0 2) mixed_boxes ∧
   raises_ValueError (union_area 0 2) mixed_boxes) ∧
  (* XYXY against normalized CXCYWH *)
  ((∃ r σ', union 0 1 mixed_boxes = Ok (r, σ')) ∧
   (∃ r σ', intersection 0 1 mixed_boxes = Ok (r, σ'))) ∧
  (union_area 0 1 mixed_boxes = Raise (ValueError normalization_differs) ∧
   intersection_area 0 1 mixed_boxes = Raise (ValueError normalization_differs)) ∧
  (* XYXY against XYWH, both not normalized *)
  ((∃ x σ', union_area 0 3 mixed_boxes = Ok (x, σ')) ∧
   (∃ x σ', intersection_area 0 3 mixed_boxes = Ok (x, σ'))).
Proof.
  pose (v0 := mkView [Row 0 0 2 2] XYXY false (10, 10)%Z).
  pose (v1 := mkView [Row (1#5) (1#5) (1#10) (1#10)] CXCYWH true (10, 10)%Z).
  pose (v2 := mkView [Row 0 0 1 1; Row 1 1 2 2] XYXY false (10, 10)%Z).
  pose (v3 := mkView [Row 0 0 2 2] XYWH false (10, 10)%Z).
  destruct (set_operations_errors mixed_boxes 0 2 v0 v2 eq_refl eq_refl) as (H02 & _).
  destruct (set_operations_errors mixed_boxes 0 1 v0 v1 eq_refl eq_refl)
    as (_ & H01 & N01).
  destruct (set_operations_errors mixed_boxes 0 3 v0 v3 eq_refl eq_refl)
    as (_ & H03 & _).
  split; [apply H02; left; simpl; lia|].
  destruct H01 as (U & I & _); [split; reflexivity|].
  split; [split; assumption|].
  split; [apply N01; discriminate|].
  destruct H03 as (_ & _ & A); [split; reflexivity|].
  apply A. reflexivity.
Defined.

(** C7.  For [[0,0,2,2]] and [[1,1,3,3]] (XYXY, not normalized, image
    size (10, 10)): [intersection_area] is 1, [union_area] is 7, and [iou]
    is 1/7 up to the epsilon in its denominator (here: within 10^-6). *)
Theorem iou_example :
  (∃ σ', intersection_area 0 1 example_boxes = Ok ([1], σ')) ∧
  (∃ σ', union_area 0 1 example_boxes = Ok ([7], σ')) ∧
  (∃ x σ', iou 0 1 example_boxes = Ok ([x], σ') ∧
           Qabs (x - (1 # 7)) < (1 # 1000000)).
Proof.
  split; [|split].
  - eexists. vm_compute. reflexivity.
  - eexists. vm_compute. reflexivity.
  - eexists _, _. split; [vm_compute; reflexivity|]. vm_compute. reflexivity.
Qed.





End Bboxes_facts.

Module Bboxes_float_facts.
Import Bboxes Bboxes_float.


End Bboxes_float_facts.

Module Batched_images_facts.
Import Batched_images Batched_images_spec.

(** ** The mask built from the sizes *)

Lemma assign_false_shape mask i size : shape (assign_false mask i size) = shape mask.
Proof. reflexivity. Qed.

Lemma mask_fold_shape sizes k mask :
  shape (fold_left (λ mask '(i, size), assign_false mask i size)
                   (zip (seq k (length sizes)) sizes) mask) = shape mask
  ∧ t_device (fold_left (λ mask '(i, size), assign_false mask i size)
                   (zip (seq k (length sizes)) sizes) mask) = t_device mask
  ∧ t_dtype (fold_left (λ mask '(i, size), assign_false mask i size)
                   (zip (seq k (length sizes)) sizes) mask) = t_dtype mask.
Proof.
  revert k mask. induction sizes as [|s sizes IH]; intros k mask; simpl; [auto|].
  destruct (IH (S k) (assign_false mask k s)) as (-> & -> & ->). auto.
Qed.

Lemma assign_false_at mask i size n H W b y x :
  shape mask = [n; H; W] →
  at_ (assign_false mask i size) [b; y; x]
  = if (b =? i)%nat && in_region size H W y x then false else at_ mask [b; y; x].
Proof.
  intros Hs. unfold assign_false, in_region. cbn [at_]. rewrite Hs. cbn [nth].
  rewrite andb_assoc. reflexivity.
Qed.

Lemma mask_fold_at sizes k mask n H W b y x :
  shape mask = [n; H; W] →
  at_ (fold_left (λ mask '(i, size), assign_false mask i size)
                 (zip (seq k (length sizes)) sizes) mask) [b; y; x]
  = match (if (k <=? b)%nat then sizes !! (b - k)%nat else None) with
    | Some size => if in_region size H W y x then false else at_ mask [b; y; x]
    | None => at_ mask [b; y; x]
    end.
Proof.
  revert k mask. induction sizes as [|s sizes IH]; intros k mask Hs; simpl.
  - destruct (k <=? b)%nat; reflexivity.
  - rewrite (IH (S k) (assign_false mask k s)) by exact Hs.
    rewrite (assign_false_at _ _ _ _ _ _ _ _ _ Hs).
    destruct (Nat.leb_spec (S k) b) as [Hl|Hl].
    + destruct (Nat.leb_spec k b) as [_|]; [|lia].
      replace (b - k)%nat with (S (b - S k)) by lia. cbn [lookup list_lookup].
      destruct (Nat.eqb_spec b k); [lia|]. reflexivity.
    + destruct (Nat.leb_spec k b) as [Hk|Hk].
      * assert (b = k) as -> by lia. rewrite Nat.sub_diag, Nat.eqb_refl.
        reflexivity.
      * destruct (Nat.eqb_spec b k); [lia|]. reflexivity.
Qed.

Lemma mask_from_sizes_shape sizes H W dev :
  shape (_compute_mask_from_sizes sizes H W dev) = [length sizes; H; W]
  ∧ t_device (_compute_mask_from_sizes sizes H W dev) = dev
  ∧ t_dtype (_compute_mask_from_sizes sizes H W dev) = torch_bool.
Proof. unfold _compute_mask_from_sizes. apply mask_fold_shape. Qed.

(** The mask is False exactly on the top-left region of each item. *)
Lemma mask_from_sizes_at sizes H W dev b y x :
  at_ (_compute_mask_from_sizes sizes H W dev) [b; y; x]
  = match sizes !! b with
    | Some size => negb (in_region size H W y x)
    | None => true
    end.
Proof.
  unfold _compute_mask_from_sizes.
  rewrite (mask_fold_at sizes 0 _ (length sizes) H W) by reflexivity.
  simpl. rewrite Nat.sub_0_r. destruct (sizes !! b); [|reflexivity].
  destruct (in_region _ _ _ _ _); reflexivity.
Qed.

(** ** [batch] *)

Section Batch.

Context {A P : Type} (to_dtype : dtype → P → option A).
Implicit Types (images rest : list (Tensor A)) (image first : Tensor A).

Lemma existsb_false {X} (f : X → bool) (l : list X) :
  existsb f l = false → Forall (λ x, f x = false) l.
Proof.
  induction l as [|x l IH]; simpl; intros H; constructor.
  - apply orb_false_iff in H. apply H.
  - apply IH. apply orb_false_iff in H. apply H.
Qed.

Lemma existsb_true {X} (f : X → bool) (l : list X) :
  existsb f l = true → ∃ x, x ∈ l ∧ f x = true.
Proof.
  intros H. apply existsb_exists in H as (x & Hin & Hx).
  exists x. split; [apply list_elem_of_In, Hin|exact Hx].
Qed.

Lemma check_images_cases images :
  (_check_images images = Ok tt ∧
   ∃ first rest, images = first :: rest ∧ Forall (accepted_like first) images)
  ∨ (∃ e, _check_images images = Raise (ValueError e) ∧ refused images).
Proof.
  destruct images as [|first rest]; [right; exists no_images; split; [reflexivity|left; reflexivity]|].
  unfold _check_images.
  set (images := first :: rest).
  assert (Hfirst : first ∈ images) by (left).
  destruct (existsb (λ image, negb (ndim image =? 3)%nat) images) eqn:E1.
  { right. exists not_3d. split; [reflexivity|]. right. left.
    apply existsb_true in E1 as (x & Hin & Hx). exists x. split; [exact Hin|].
    apply negb_true_iff, Nat.eqb_neq in Hx. exact Hx. }
  destruct (existsb (λ image, negb (nth 0 (shape image) 0 =? nth 0 (shape first) 0)%nat)
              images) eqn:E2.
  { right. exists channels_differ. split; [reflexivity|]. right. right. left.
    apply existsb_true in E2 as (x & Hin & Hx). exists x, first.
    repeat split; auto. apply negb_true_iff, Nat.eqb_neq in Hx. exact Hx. }
  destruct (existsb (λ image, negb (bool_decide (t_dtype image = t_dtype first)))
              images) eqn:E3.
  { right. exists dtypes_differ. split; [reflexivity|]. right. right. right. left.
    apply existsb_true in E3 as (x & Hin & Hx). exists x, first.
    repeat split; auto. apply negb_true_iff, bool_decide_eq_false in Hx. exact Hx. }
  destruct (existsb (λ image, negb (bool_decide (t_device image = t_device first)))
              images) eqn:E4.
  { right. exists devices_differ. split; [reflexivity|]. right. right. right. right.
    apply existsb_true in E4 as (x & Hin & Hx). exists x, first.
    repeat split; auto. apply negb_true_iff, bool_decide_eq_false in Hx. exact Hx. }
  left. split; [reflexivity|]. exists first, rest. split; [reflexivity|].
  apply existsb_false in E1, E2, E3, E4.
  rewrite Forall_forall in *. intros x Hx.
  specialize (E1 x Hx). specialize (E2 x Hx). specialize (E3 x Hx). specialize (E4 x Hx).
  simpl in *.
  apply negb_false_iff in E1, E2, E3, E4.
  apply Nat.eqb_eq in E1, E2. apply bool_decide_eq_true in E3, E4.
  repeat split; assumption.
Qed.

Lemma accepted_not_refused first rest :
  Forall (accepted_like first) (first :: rest) → ¬ refused (first :: rest).
Proof.
  intros HF. rewrite Forall_forall in HF.
  intros [H|[(x & Hx & Hn)|[(a & b & Ha & Hb & Hn)|[(a & b & Ha & Hb & Hn)|(a & b & Ha & Hb & Hn)]]]].
  - discriminate.
  - apply Hn, (HF x Hx).
  - apply Hn. destruct (HF a Ha) as (_ & -> & _), (HF b Hb) as (_ & -> & _). reflexivity.
  - apply Hn. destruct (HF a Ha) as (_ & _ & -> & _), (HF b Hb) as (_ & _ & -> & _).
    reflexivity.
  - apply Hn. destruct (HF a Ha) as (_ & _ & _ & ->), (HF b Hb) as (_ & _ & _ & ->).
    reflexivity.
Qed.

Lemma accepted_shape first image :
  accepted_like first image →
  shape image = [channels first; height image; width image].
Proof.
  intros (Hd & Hc & _). unfold ndim, channels, height, width in *.
  destruct (shape image) as [|c [|h [|w [|]]]]; simpl in *; try discriminate.
  subst. reflexivity.
Qed.

Lemma max_of_ge (l : list nat) (x : nat) : x ∈ l → (x ≤ max_of l)%nat.
Proof.
  induction 1 as [x l|x y l _ IH]; simpl; lia.
Qed.

Lemma sizes_mapM first images :
  Forall (accepted_like first) images →
  mapM (λ img, let* h := size img 1 in let* w := size img 2 in Ok (h, w)) images
  = Ok ((λ img, (height img, width img)) <$> images).
Proof.
  induction 1 as [|image images Hi _ IH]; [reflexivity|].
  cbn [mapM fmap list_fmap]. rewrite IH. unfold size.
  rewrite (accepted_shape _ _ Hi). reflexivity.
Qed.

(** The copy loop: item [b] of the canvas receives image [b], top-left
    aligned; everything else keeps the value it had. *)
Lemma copy_loop first images k data B Hm Wm :
  shape data = [B; channels first; Hm; Wm] →
  Forall (λ image, accepted_like first image
                   ∧ (height image ≤ Hm)%nat ∧ (width image ≤ Wm)%nat) images →
  ∃ data',
    foldM (λ data '(i, image), slice_copy_ data i image) data
          (zip (seq k (length images)) images) = Ok data'
    ∧ shape data' = shape data
    ∧ t_dtype data' = t_dtype data ∧ t_device data' = t_device data
    ∧ ∀ b c y x,
        at_ data' [b; c; y; x]
        = match (if (k <=? b)%nat then images !! (b - k)%nat else None) with
          | Some image =>
              if (y <? height image)%nat && (x <? width image)%nat
              then at_ image [c; y; x]
              else at_ data [b; c; y; x]
          | None => at_ data [b; c; y; x]
          end.
Proof.
  intros Hs HF. revert k data Hs.
  induction HF as [|image images (Hi & Hh & Hw) _ IH]; intros k data Hs.
  - exists data. repeat split; auto. intros. simpl. destruct (k <=? b)%nat; reflexivity.
  - cbn [length seq zip zip_with foldM].
    assert (Hcopy : slice_copy_ data k image =
      Ok (mkTensor (shape data) (t_dtype data) (t_device data)
            (λ idx, match idx with
                    | [b; c; y; x] =>
                        if (b =? k)%nat && (y <? height image)%nat
                           && (x <? width image)%nat
                        then at_ image [c; y; x] else at_ data idx
                    | _ => at_ data idx
                    end))).
    { unfold slice_copy_, size. rewrite (accepted_shape _ _ Hi), Hs.
      cbn [lookup list_lookup obind nth].
      rewrite !Nat.min_l by assumption.
      rewrite bool_decide_eq_true_2 by reflexivity. reflexivity. }
    rewrite Hcopy. cbn [obind].
    edestruct (IH (S k)) as (data' & Hf & Hs' & Hdt & Hdv & Hat); [|].
    2:{ exists data'. split; [exact Hf|]. split; [exact Hs'|].
        split; [exact Hdt|]. split; [exact Hdv|].
        intros b c y x. rewrite Hat. cbn [at_].
        destruct (Nat.leb_spec (S k) b) as [Hl|Hl].
        - destruct (Nat.leb_spec k b) as [_|]; [|lia].
          replace (b - k)%nat with (S (b - S k)) by lia. cbn [lookup list_lookup].
          destruct (Nat.eqb_spec b k); [lia|]. reflexivity.
        - destruct (Nat.leb_spec k b) as [Hk|Hk].
          + assert (b = k) as -> by lia. rewrite Nat.sub_diag, Nat.eqb_refl.
            reflexivity.
          + destruct (Nat.eqb_spec b k); [lia|]. reflexivity. }
    exact Hs.
Qed.

Lemma slice_stop_of_nat (h n : nat) : (h ≤ n)%nat → slice_stop (Z.of_nat h) n = h.
Proof.
  intros Hle. unfold slice_stop.
  destruct (Z.ltb_spec (Z.of_nat h) 0); lia.
Qed.

Lemma batch_prefix first rest padding_value :
  Forall (accepted_like first) (first :: rest) →
  batch to_dtype (first :: rest) padding_value
  = let* data := full to_dtype
                   [length (first :: rest); channels first;
                    max_of (height <$> first :: rest); max_of (width <$> first :: rest)]
                   padding_value (t_dtype first) (t_device first) in
    let* data := foldM (λ data '(i, image), slice_copy_ data i image) data
                       (zip (seq 0 (length (first :: rest))) (first :: rest)) in
    __init__ data
      (Some ((λ s, (Z.of_nat (fst s), Z.of_nat (snd s))) <$>
               ((λ img, (height img, width img)) <$> first :: rest)))
      None false.
Proof.
  intros HF. set (images := first :: rest) in *.
  assert (Hcheck : _check_images images = Ok tt).
  { destruct (check_images_cases images) as [[H _]|(e & _ & Hr)]; [exact H|].
    destruct (accepted_not_refused _ _ HF Hr). }
  assert (Hfirst : accepted_like first first).
  { rewrite Forall_forall in HF. apply HF. left. }
  unfold batch. rewrite Hcheck. cbn [obind].
  rewrite (sizes_mapM first images HF). cbn [obind].
  rewrite <- !list_fmap_compose.
  change (fst ∘ (λ img : Tensor A, (height img, width img))) with (@height A).
  change (snd ∘ (λ img : Tensor A, (height img, width img))) with (@width A).
  subst images. cbn [obind].
  unfold size at 1. rewrite (accepted_shape _ _ Hfirst).
  cbn [lookup list_lookup obind]. reflexivity.
Qed.

(** On accepted images [batch] raises the RuntimeError of [torch.full]
    when the padding value does not convert to their dtype. *)
Lemma batch_overflow first rest padding_value :
  Forall (accepted_like first) (first :: rest) →
  to_dtype (t_dtype first) padding_value = None →
  batch to_dtype (first :: rest) padding_value = Raise RuntimeError.
Proof.
  intros HF Hno. rewrite (batch_prefix _ _ _ HF). unfold full. rewrite Hno.
  reflexivity.
Qed.

Lemma batch_accepted first rest padding_value fill :
  Forall (accepted_like first) (first :: rest) →
  to_dtype (t_dtype first) padding_value = Some fill →
  ∃ bi, batch to_dtype (first :: rest) padding_value = Ok bi
        ∧ batched (first :: rest) fill first bi.
Proof.
  intros HF Hfill. rewrite (batch_prefix _ _ _ HF).
  set (images := first :: rest) in *.
  assert (Hcheck : _check_images images = Ok tt).
  { destruct (check_images_cases images) as [[H _]|(e & _ & Hr)]; [exact H|].
    destruct (accepted_not_refused _ _ HF Hr). }
  set (Hm := max_of (height <$> images)). set (Wm := max_of (width <$> images)).
  assert (HF' : Forall (λ image, accepted_like first image
                   ∧ (height image ≤ Hm)%nat ∧ (width image ≤ Wm)%nat) images).
  { rewrite Forall_forall in *. intros x Hx. split; [apply HF, Hx|].
    split; apply max_of_ge, list_elem_of_fmap; exists x; auto. }
  set (data0 := mkTensor [length images; channels first; Hm; Wm]
                  (t_dtype first) (t_device first) (λ _, fill)).
  destruct (copy_loop first images 0 data0 (length images) Hm Wm eq_refl HF')
    as (data' & Hfold & Hs & Hdt & Hdv & Hat).
  assert (Hfirst : accepted_like first first).
  { rewrite Forall_forall in HF. apply HF. left. }
  exists (mkBatchedImages data'
            ((λ s, (Z.of_nat (fst s), Z.of_nat (snd s))) <$>
               ((λ img, (height img, width img)) <$> images))
            (_compute_mask_from_sizes
               ((λ s, (Z.of_nat (fst s), Z.of_nat (snd s))) <$>
                  ((λ img, (height img, width img)) <$> images))
               Hm Wm (t_device data'))).
  split.
  - unfold full. rewrite Hfill. cbn [obind].
    fold Hm Wm. fold data0. rewrite Hfold. cbn [obind].
    unfold __init__, size. rewrite Hs. cbn [shape data0 lookup list_lookup obind].
    reflexivity.
  - unfold batched. cbn [_data _mask _image_sizes]. fold Hm Wm.
    split; [rewrite Hs; reflexivity|]. split; [exact Hdt|]. split; [exact Hdv|].
    split.
    { destruct (mask_from_sizes_shape
                  ((λ s, (Z.of_nat (fst s), Z.of_nat (snd s))) <$>
                     ((λ img, (height img, width img)) <$> images))
                  Hm Wm (t_device data')) as (-> & _).
      rewrite !length_fmap. reflexivity. }
    split; [rewrite <- list_fmap_compose; reflexivity|].
    intros i image Hi c y x. split.
    + rewrite Hat. cbn [Nat.leb]. rewrite Nat.sub_0_r, Hi. reflexivity.
    + rewrite mask_from_sizes_at, !list_lookup_fmap, Hi. cbn [fmap option_fmap option_map].
      unfold in_region. cbn [fst snd].
      rewrite Forall_forall in HF'.
      destruct (HF' image) as (_ & Hh & Hw); [eapply list_elem_of_lookup_2, Hi|].
      rewrite !slice_stop_of_nat by assumption. reflexivity.
Qed.

(** C4 (as amended).  [batch] raises a ValueError exactly when the list is
    empty, or some image is not three-dimensional, or the images disagree
    in channel count, dtype or device.  On every other list it raises the
    RuntimeError of [torch.full] when [padding_value] does not convert to
    the dtype of the images, and otherwise returns the padded canvas of
    shape (B, C, max height, max width), filled with the converted
    [padding_value], holding each image top-left aligned, with the mask
    False exactly on each item's copied region. *)
Theorem batch_contract (images : list (Tensor A)) (padding_value : P) :
  ((∃ e, batch to_dtype images padding_value = Raise (ValueError e)) ↔ refused images) ∧
  (¬ refused images →
   ∃ first, head images = Some first ∧
     match to_dtype (t_dtype first) padding_value with
     | Some fill => ∃ bi, batch to_dtype images padding_value = Ok bi
                          ∧ batched images fill first bi
     | None => batch to_dtype images padding_value = Raise RuntimeError
     end).
Proof.
  destruct (check_images_cases images) as [(Hc & first & rest & -> & HF)|(e & Hc & Hr)].
  - assert (Hcases : match to_dtype (t_dtype first) padding_value with
                     | Some fill =>
                         ∃ bi, batch to_dtype (first :: rest) padding_value = Ok bi
                               ∧ batched (first :: rest) fill first bi
                     | None =>
                         batch to_dtype (first :: rest) padding_value = Raise RuntimeError
                     end).
    { destruct (to_dtype (t_dtype first) padding_value) as [fill|] eqn:Hfill.
      - apply (batch_accepted first rest padding_value fill HF Hfill).
      - apply (batch_overflow first rest padding_value HF Hfill). }
    split; [split|].
    + intros (e & He).
      destruct (to_dtype (t_dtype first) padding_value).
      * destruct Hcases as (bi & Hb & _). rewrite Hb in He. discriminate.
      * rewrite Hcases in He. discriminate.
    + intros Hr. destruct (accepted_not_refused _ _ HF Hr).
    + intros _. exists first. split; [reflexivity|exact Hcases].
  - split; [split|].
    + intros _. exact Hr.
    + intros _. exists e. unfold batch. rewrite Hc. reflexivity.
    + intros Hn. destruct (Hn Hr).
Qed.

End Batch.

Lemma batch_contract_witness :
  ∃ bi, batch number_to_dtype [img_a; img_b] number_0 = Ok bi
        ∧ shape (_data bi) = [2; 3; 6; 5]%nat
        ∧ (∀ y x, at_ (_mask bi) [0; y; x]%nat = negb ((y <? 4)%nat && (x <? 5)%nat))
        ∧ (∀ y x, at_ (_mask bi) [1; y; x]%nat = negb ((y <? 6)%nat && (x <? 3)%nat))
        ∧ at_ (_data bi) [0; 2; 3; 4]%nat = 1%Z
        ∧ at_ (_data bi) [0; 2; 4; 4]%nat = 0%Z
        ∧ at_ (_data bi) [1; 0; 5; 2]%nat = 2%Z.
Proof.
  destruct (batch_contract number_to_dtype [img_a; img_b] number_0) as [_ H].
  destruct H as (first & Hh & bi & Hb & Hs & _ & _ & _ & _ & Hat).
  { apply accepted_not_refused. repeat constructor. }
  injection Hh as <-. exists bi. split; [exact Hb|]. split; [exact Hs|].
  split; [intros y x; apply (Hat 0%nat img_a eq_refl 0%nat y x)|].
  split; [intros y x; apply (Hat 1%nat img_b eq_refl 0%nat y x)|].
  split; [apply (Hat 0%nat img_a eq_refl 2%nat 3%nat 4%nat)|].
  split; [apply (Hat 0%nat img_a eq_refl 2%nat 4%nat 4%nat)|].
  apply (Hat 1%nat img_b eq_refl 0%nat 5%nat 2%nat).
Defined.

(** C4 as stated fails: one uint8 image is none of the lists the claim
    names, and [batch] raises on it when the padding value is 300, which
    uint8 cannot hold. *)
Lemma batch_overflow_counterexample :
  ¬ refused [img_u8]
  ∧ batch number_to_dtype [img_u8] number_300 = Raise RuntimeError.
Proof.
  split; [|reflexivity].
  apply (accepted_not_refused img_u8). repeat constructor.
Qed.

(** ** The sizes computed from a mask *)

Lemma sum_upto_ext n f g :
  (∀ j, (j < n)%nat → f j = g j) → sum_upto n f = sum_upto n g.
Proof.
  induction n as [|n IH]; intros H; simpl; [reflexivity|].
  rewrite IH, H by (intros; try apply H; lia). reflexivity.
Qed.

Lemma sum_upto_indicator n k c d :
  (k ≤ n)%nat →
  sum_upto n (λ j, if (j <? k)%nat then c else d)
  = (Z.of_nat k * c + Z.of_nat (n - k) * d)%Z.
Proof.
  induction n as [|n IH]; intros Hk; simpl.
  - assert (k = 0%nat) as -> by lia. simpl. lia.
  - destruct (Nat.ltb_spec n k).
    + assert (k = S n) as -> by lia.
      rewrite (sum_upto_ext n _ (λ _, c)).
      2:{ intros j Hj. destruct (Nat.ltb_spec j (S n)); [reflexivity|lia]. }
      rewrite Nat.sub_diag.
      clear. induction n as [|n IH]; simpl; [lia|].
      rewrite IH. lia.
    + rewrite IH by lia. replace (S n - k)%nat with (S (n - k)) by lia. lia.
Qed.

(** The number of padded (True) entries of an item of padded size (H, W)
    whose top-left (h, w) region is valid. *)
Lemma padded_count h w H W :
  (h ≤ H)%nat → (w ≤ W)%nat →
  sum_upto W (λ x, sum_upto H (λ y,
    Z.b2z (negb ((y <? h)%nat && (x <? w)%nat))))
  = (Z.of_nat (H * W) - Z.of_nat (h * w))%Z.
Proof.
  intros Hh Hw.
  rewrite (sum_upto_ext W _
             (λ x, if (x <? w)%nat then Z.of_nat (H - h) else Z.of_nat H)).
  - rewrite sum_upto_indicator by exact Hw. nia.
  - intros x _. destruct (x <? w)%nat.
    + rewrite (sum_upto_ext H _ (λ y, if (y <? h)%nat then 0%Z else 1%Z)).
      * rewrite sum_upto_indicator by exact Hh. lia.
      * intros y _. destruct (y <? h)%nat; reflexivity.
    + rewrite (sum_upto_ext H _ (λ y, if (y <? 0)%nat then 0%Z else 1%Z)).
      * rewrite sum_upto_indicator by lia. lia.
      * intros y _. rewrite andb_false_r. reflexivity.
Qed.

Lemma slice_stop_le s n : (slice_stop s n ≤ n)%nat.
Proof. unfold slice_stop. destruct (Z.ltb_spec s 0); lia. Qed.

Lemma mapM_seq {B} (f : nat → outcome B) (l : list B) k :
  (∀ i x, l !! i = Some x → f (k + i)%nat = Ok x) →
  mapM f (seq k (length l)) = Ok l.
Proof.
  revert k. induction l as [|x l IH]; intros k H; [reflexivity|].
  cbn [length seq mapM]. rewrite <- (Nat.add_0_r k) at 1.
  rewrite (H 0%nat x eq_refl). cbn [obind].
  rewrite (IH (S k)); [reflexivity|].
  intros i y Hi. replace (S k + i)%nat with (k + S i)%nat by lia.
  apply H. exact Hi.
Qed.

Lemma sizes_from_mask_from_sizes sizes H W dev :
  _compute_sizes_from_mask (_compute_mask_from_sizes sizes H W dev)
  = Ok (sizes_of_padded H W <$> sizes).
Proof.
  unfold _compute_sizes_from_mask.
  destruct (mask_from_sizes_shape sizes H W dev) as (Hs & _). rewrite Hs.
  cbn [nth]. rewrite <- (length_fmap (sizes_of_padded H W) sizes).
  apply mapM_seq. intros i x Hi.
  rewrite list_lookup_fmap in Hi.
  destruct (sizes !! i) as [sz|] eqn:Hsz; [|discriminate].
  injection Hi as <-. cbn [Nat.add].
  unfold size, select. cbn [shape]. rewrite Hs.
  cbn [tail lookup list_lookup obind].
  unfold sum0. cbn [shape t_device at_]. unfold item, numel, ndim.
  cbn [shape foldr length replicate at_].
  rewrite decide_True by reflexivity. cbn [obind].
  unfold sizes_of_padded.
  rewrite (sum_upto_ext W _ (λ x, sum_upto H (λ y,
             Z.b2z (negb ((y <? slice_stop (fst sz) H)%nat
                          && (x <? slice_stop (snd sz) W)%nat))))).
  - rewrite padded_count by apply slice_stop_le. reflexivity.
  - intros x _. apply sum_upto_ext. intros y _.
    rewrite mask_from_sizes_at, Hsz. reflexivity.
Qed.

(** C1 (fails in the code).  The mask of one image of size (1, 2) padded
    to (2, 2) is False exactly on the top-left 1 x 2 region, yet the sizes
    computed from it are (0, 0): height and width are both reduced by the
    count of all padded pixels.  In general the sizes computed from the
    mask built for [sizes] are [sizes_of_padded], not [sizes]. *)
Theorem sizes_from_mask_disagree :
  (∀ sizes H W dev,
     _compute_sizes_from_mask (_compute_mask_from_sizes sizes H W dev)
     = Ok (sizes_of_padded H W <$> sizes))
  ∧ (∀ y x, at_ padded_mask [0; y; x]%nat = negb ((y <? 1)%nat && (x <? 2)%nat))
  ∧ _compute_sizes_from_mask padded_mask = Ok [(0, 0)%Z]
  ∧ ∃ bi, __init__ padded_data None (Some padded_mask) true = Ok bi
          ∧ _image_sizes bi = [(0, 0)%Z] ∧ _image_sizes bi ≠ [(1, 2)%Z].
Proof.
  split; [exact sizes_from_mask_from_sizes|].
  split; [intros y x; unfold padded_mask; rewrite mask_from_sizes_at; reflexivity|].
  split; [unfold padded_mask; rewrite sizes_from_mask_from_sizes; reflexivity|].
  eexists. unfold __init__, padded_mask. rewrite sizes_from_mask_from_sizes.
  cbn [obind].
  destruct (mask_from_sizes_shape [(1, 2)%Z] 2 2 cpu) as (Hs & Hd & Ht).
  rewrite Hd, Ht. unfold _check_data_mask. rewrite Hs.
  split; [reflexivity|]. split; [reflexivity|discriminate].
Qed.

End Batched_images_facts.

Module Decoder_facts.
Import Torch Structures Decoder_spec.
Local Open Scope R_scope.

(** ** Lists and [mapM] *)

Lemma mapM_lookup {A B} (f : A → outcome B) (l : list A) (l' : list B) i y :
  mapM f l = Ok l' → l' !! i = Some y → ∃ x, l !! i = Some x ∧ f x = Ok y.
Proof.
  revert l' i. induction l as [|a l IH]; intros l' i; cbn [mapM].
  - intros [= <-]. rewrite lookup_nil. discriminate.
  - unfold obind. destruct (f a) as [b| |] eqn:Hf; try discriminate.
    destruct (mapM f l) as [bs| |] eqn:Hm; try discriminate.
    intros [= <-]. destruct i as [|i]; cbn [lookup list_lookup].
    + intros [= <-]. eauto.
    + intros Hi. apply (IH bs i eq_refl Hi).
Qed.

Lemma mapM_length {A B} (f : A → outcome B) (l : list A) (l' : list B) :
  mapM f l = Ok l' → length l' = length l.
Proof.
  revert l'. induction l as [|a l IH]; intros l'; cbn [mapM].
  - intros [= <-]. reflexivity.
  - unfold obind. destruct (f a) as [b| |]; try discriminate.
    destruct (mapM f l) as [bs| |]; try discriminate.
    intros [= <-]. simpl. f_equal. apply IH. reflexivity.
Qed.

(** ** Softmax *)

Lemma sum_nonneg (l : list R) : Forall (λ x, 0 <= x) l → 0 <= sum l.
Proof. induction 1; simpl; lra. Qed.

Lemma sum_pos (l : list R) j x :
  Forall (λ x, 0 <= x) l → l !! j = Some x → 0 < x → 0 < sum l.
Proof.
  intros HF. revert j. induction HF as [|y l Hy HF IH]; intros j.
  - rewrite lookup_nil. discriminate.
  - destruct j as [|j]; cbn [lookup list_lookup]; simpl.
    + intros [= ->] Hx. pose proof (sum_nonneg l HF). lra.
    + intros Hj Hx. specialize (IH j Hj Hx). lra.
Qed.

Lemma xexp_nonneg a : 0 <= xexp a.
Proof. destruct a; simpl; [left; apply exp_pos|lra]. Qed.

(** A key with logit minus infinity has weight exactly 0. *)
Lemma softmax_NegInf row j x :
  row !! j = Some NegInf → softmax row !! j = Some x → x = 0.
Proof.
  unfold softmax. rewrite list_lookup_fmap. intros ->. cbn.
  intros [= <-]. unfold Rdiv. apply Rmult_0_l.
Qed.

(** A key with a finite logit has a positive weight. *)
Lemma softmax_Fin row j r x :
  row !! j = Some (Fin r) → softmax row !! j = Some x → 0 < x.
Proof.
  unfold softmax. rewrite list_lookup_fmap. intros Hj. rewrite Hj. cbn.
  intros [= <-]. apply Rdiv_lt_0_compat; [apply exp_pos|].
  apply (sum_pos _ j (exp r)).
  - apply Forall_fmap, Forall_true. intros a. apply xexp_nonneg.
  - rewrite list_lookup_fmap, Hj. reflexivity.
  - apply exp_pos.
Qed.

(** ** CrossAttention of [tasks/hoic]: masked keys *)

Lemma entry_inv {A} (t : list (list (list (list A)))) b h i j x :
  entry t b h i j = Some x →
  ∃ item head row, t !! b = Some item ∧ item !! h = Some head
                   ∧ head !! i = Some row ∧ row !! j = Some x.
Proof.
  unfold entry. destruct (t !! b) as [item|] eqn:E1; [|discriminate].
  destruct (item !! h) as [head|] eqn:E2; [|discriminate].
  destruct (head !! i) as [row|] eqn:E3; [|discriminate].
  intros Hx. exists item, head, row. repeat split; assumption.
Qed.

(** Every entry of the attention mask at a padded key is minus infinity,
    whatever the bias there. *)
Lemma masked_fill__padded cpb mask m b h i j x mask_b :
  Decoder_hoic.masked_fill_ cpb mask = Ok m →
  mask !! b = Some mask_b → mask_b !! j = Some true →
  entry m b h i j = Some x → x = NegInf.
Proof.
  unfold Decoder_hoic.masked_fill_. destruct (decide _) as [Hl|]; [|discriminate].
  intros Hm Hb Hj He.
  apply entry_inv in He as (item & head & row & H1 & H2 & H3 & H4).
  destruct (mapM_lookup _ _ _ _ _ Hm H1) as ([cb mb] & Hz & Hitem).
  apply lookup_zip_with_Some in Hz as (cb' & mb' & [= <- <-] & Hcb & Hmb).
  rewrite Hb in Hmb. injection Hmb as <-. cbn [fst snd] in Hitem.
  destruct (mapM_lookup _ _ _ _ _ Hitem H2) as (chead & _ & Hhead).
  destruct (mapM_lookup _ _ _ _ _ Hhead H3) as (crow & _ & Hrow).
  destruct (decide _); [|discriminate]. injection Hrow as <-.
  unfold masked_fill in H4.
  apply lookup_zip_with_Some in H4 as (c & mj & -> & _ & Hmj).
  rewrite Hj in Hmj. injection Hmj as <-. reflexivity.
Qed.

Lemma attend_entry {X} (f : list (list R) → list (list R) → list (list R)
                             → list (list xreal) → list (list X))
    q k v m b h i j x :
  entry (Decoder_hoic.attend f q k v m) b h i j = Some x →
  ∃ qh kh vh mh, (∃ item, q !! b = Some item ∧ item !! h = Some qh)
                 ∧ (∃ item, k !! b = Some item ∧ item !! h = Some kh)
                 ∧ (∃ item, m !! b = Some item ∧ item !! h = Some mh)
                 ∧ ∃ row, f qh kh vh mh !! i = Some row ∧ row !! j = Some x.
Proof.
  intros He. apply entry_inv in He as (item & head & row & H1 & H2 & H3 & H4).
  unfold Decoder_hoic.attend in H1.
  apply lookup_zip_with_Some in H1 as ([qb kb] & [vb mb] & -> & Hqk & Hvm).
  apply lookup_zip_with_Some in Hqk as (? & ? & [= <- <-] & Hq & Hk).
  apply lookup_zip_with_Some in Hvm as (? & ? & [= <- <-] & Hv & Hm).
  cbn [fst snd] in H2.
  apply lookup_zip_with_Some in H2 as ([qh kh] & [vh mh] & -> & Hqk' & Hvm').
  apply lookup_zip_with_Some in Hqk' as (? & ? & [= <- <-] & Hq' & Hk').
  apply lookup_zip_with_Some in Hvm' as (? & ? & [= <- <-] & Hv' & Hm').
  cbn [fst snd] in H3.
  exists qh, kh, vh, mh.
  split; [exists qb; split; assumption|].
  split; [exists kb; split; assumption|].
  split; [exists mb; split; assumption|].
  exists row. split; assumption.
Qed.

Lemma sdpa_logits_padded q k m i j lrow mrow :
  sdpa_logits q k m !! i = Some lrow → m !! i = Some mrow →
  mrow !! j = Some NegInf → ∀ x, lrow !! j = Some x → x = NegInf.
Proof.
  unfold sdpa_logits. intros Hl Hm Hj x Hx.
  apply lookup_zip_with_Some in Hl as (qi & mi & -> & _ & Hmi).
  rewrite Hm in Hmi. injection Hmi as <-.
  apply lookup_zip_with_Some in Hx as (kj & mij & -> & _ & Hmij).
  rewrite Hj in Hmij. injection Hmij as <-. destruct (Fin _); reflexivity.
Qed.

Lemma sdpa_logits_row q k m i lrow :
  sdpa_logits q k m !! i = Some lrow →
  ∃ mrow, m !! i = Some mrow ∧ (length lrow ≤ length mrow)%nat.
Proof.
  unfold sdpa_logits. intros Hl.
  apply lookup_zip_with_Some in Hl as (qi & mi & -> & _ & Hmi).
  exists mi. split; [exact Hmi|]. rewrite length_zip_with. lia.
Qed.

Lemma obind_Ok {A B} (m : outcome A) (f : A → outcome B) y :
  obind m f = Ok y → ∃ x, m = Ok x ∧ f x = Ok y.
Proof. destruct m as [x| |]; try discriminate. simpl. eauto. Qed.

Lemma attention_inputs_mask self nodes images rd q k v m :
  Decoder_hoic.attention_inputs self nodes images rd = Ok (q, k, v, m) →
  ∃ cpb, Decoder_hoic.masked_fill_ cpb (mask images) = Ok m.
Proof.
  unfold Decoder_hoic.attention_inputs. intros H.
  apply obind_Ok in H as (q0 & _ & H).
  apply obind_Ok in H as (q1 & _ & H).
  apply obind_Ok in H as (kv0 & _ & H).
  apply obind_Ok in H as (kv1 & _ & H).
  apply obind_Ok in H as (cpb & _ & H).
  apply obind_Ok in H as (m' & Hm & H).
  injection H as <- <- <- <-. eauto.
Qed.

Lemma hoic_logits_padded self nodes images rd l b h i j x mask_b :
  Decoder_hoic.attention_logits self nodes images rd = Ok l →
  mask images !! b = Some mask_b → mask_b !! j = Some true →
  entry l b h i j = Some x → x = NegInf.
Proof.
  unfold Decoder_hoic.attention_logits. intros H Hb Hj He.
  apply obind_Ok in H as ([[[q k] v] m] & Hin & H). injection H as <-.
  destruct (attention_inputs_mask _ _ _ _ _ _ _ _ Hin) as (cpb & Hm).
  apply attend_entry in He
    as (qh & kh & vh & mh & _ & _ & (mb & Hmb & Hmh) & lrow & Hl & Hx).
  destruct (sdpa_logits_row _ _ _ _ _ Hl) as (mrow & Hmrow & Hlen).
  destruct (lookup_lt_is_Some_2 mrow j) as [mj Hmj].
  { apply lookup_lt_Some in Hx. lia. }
  assert (mj = NegInf) as ->.
  { apply (masked_fill__padded cpb (mask images) m b h i j mj mask_b Hm Hb Hj).
    unfold entry. rewrite Hmb, Hmh, Hmrow. exact Hmj. }
  apply (sdpa_logits_padded _ _ _ _ _ _ _ Hl Hmrow Hmj _ Hx).
Qed.

Lemma hoic_weights_padded self nodes images rd w b h i j x mask_b :
  Decoder_hoic.attention_weights self nodes images rd = Ok w →
  mask images !! b = Some mask_b → mask_b !! j = Some true →
  entry w b h i j = Some x → x = 0.
Proof.
  intros H Hb Hj He.
  assert (Hl : ∃ l, Decoder_hoic.attention_logits self nodes images rd = Ok l
                    ∧ ∃ lrow, (∃ item head, l !! b = Some item ∧ item !! h = Some head
                                            ∧ head !! i = Some lrow)
                              ∧ softmax lrow !! j = Some x).
  { unfold Decoder_hoic.attention_weights, Decoder_hoic.attention_logits in *.
    apply obind_Ok in H as ([[[q k] v] m] & Hin & H). injection H as <-.
    rewrite Hin. cbn [obind]. eexists. split; [reflexivity|].
    apply entry_inv in He as (item & head & row & H1 & H2 & H3 & H4).
    unfold Decoder_hoic.attend in *.
    apply lookup_zip_with_Some in H1 as ([qb kb] & [vb mb] & -> & Hqk & Hvm).
    cbn [fst snd] in H2.
    apply lookup_zip_with_Some in H2 as ([qh kh] & [vh mh] & -> & Hqk' & Hvm').
    cbn [fst snd] in H3. unfold sdpa_weights in H3.
    rewrite list_lookup_fmap in H3.
    destruct (sdpa_logits qh kh mh !! i) as [lrow|] eqn:Hlrow; [|discriminate].
    injection H3 as <-. exists lrow. split; [|exact H4].
    eexists _, _. split; [|split].
    - apply lookup_zip_with_Some. exists (qb, kb), (vb, mb). eauto.
    - cbn [fst snd]. apply lookup_zip_with_Some. exists (qh, kh), (vh, mh). eauto.
    - exact Hlrow. }
  destruct Hl as (l & Hl & lrow & (item & head & H1 & H2 & H3) & Hs).
  destruct (lookup_lt_is_Some_2 lrow j) as [lj Hlj].
  { apply lookup_lt_Some in Hs. unfold softmax in Hs. rewrite length_fmap in Hs. exact Hs. }
  assert (lj = NegInf) as ->.
  { apply (hoic_logits_padded self nodes images rd l b h i j lj mask_b Hl Hb Hj).
    unfold entry. rewrite H1, H2, H3. exact Hlj. }
  apply (softmax_NegInf _ _ _ Hlj Hs).
Qed.

(** The attention output is the weighted sum of the values with these
    weights, so the value of a key of weight 0 plays no part in it. *)
Lemma sdpa_is_weighted_sum q k v m :
  scaled_dot_product_attention q k v m
  = (λ w, weighted_sum (length (default [] (head v))) w v) <$> sdpa_weights q k m.
Proof. reflexivity. Qed.

Lemma weighted_sum_zero_weight d (w : list R) (v v' : list (list R)) j :
  w !! j = Some 0 →
  (∀ i, i ≠ j → v !! i = v' !! i) → length v = length v' →
  weighted_sum d w v = weighted_sum d w v'.
Proof.
  intros Hw Hv Hlen. unfold weighted_sum.
  apply list_fmap_ext. intros _ c _. f_equal.
  apply list_eq. intros i. rewrite !lookup_zip_with.
  destruct (decide (i = j)) as [->|Hij].
  - rewrite Hw. cbn.
    destruct (v !! j) as [x|] eqn:Hx, (v' !! j) as [y|] eqn:Hy; cbn.
    + f_equal. rewrite !Rmult_0_l. reflexivity.
    + apply lookup_lt_Some in Hx. apply lookup_ge_None in Hy. lia.
    + apply lookup_ge_None in Hx. apply lookup_lt_Some in Hy. lia.
    + reflexivity.
  - rewrite (Hv i Hij). reflexivity.
Qed.

(** ** CrossAttention of [models/gahoi]: every key gets a positive weight *)

Lemma gahoi_weights_positive self entities images rd w v b h i j x :
  Decoder_gahoi.attention_weights self entities images rd = Ok (w, v) →
  entry w b h i j = Some x → 0 < x.
Proof.
  unfold Decoder_gahoi.attention_weights. intros H He.
  apply obind_Ok in H as (q0 & _ & H).
  apply obind_Ok in H as (q1 & _ & H).
  apply obind_Ok in H as (kv0 & _ & H).
  apply obind_Ok in H as (kv1 & _ & H).
  apply obind_Ok in H as (rd0 & _ & H).
  apply obind_Ok in H as (cpb0 & _ & H).
  apply obind_Ok in H as (cpb1 & _ & H).
  apply obind_Ok in H as (logits & _ & H).
  injection H as <- <-.
  apply entry_inv in He as (item & head & row & H1 & H2 & H3 & H4).
  rewrite list_lookup_fmap in H1.
  destruct (logits !! b) as [litem|]; [|discriminate]. injection H1 as <-.
  rewrite list_lookup_fmap in H2.
  destruct (litem !! h) as [lhead|]; [|discriminate]. injection H2 as <-.
  rewrite list_lookup_fmap in H3.
  destruct (lhead !! i) as [lrow|]; [|discriminate]. injection H3 as <-.
  destruct (lookup_lt_is_Some_2 lrow j) as [r Hr].
  { apply lookup_lt_Some in H4. unfold softmax in H4.
    rewrite !length_fmap in H4. exact H4. }
  apply (softmax_Fin (Fin <$> lrow) j r x); [|exact H4].
  rewrite list_lookup_fmap, Hr. reflexivity.
Qed.

(** ** Examples *)

(** C2 (as amended).  In the CrossAttention of [tasks/hoic], every key
    whose mask entry is True has logit minus infinity once bias and mask
    are added, for every query and head and whatever the bias network
    computes; and in an item with at least one valid key its attention
    weight is exactly 0 (with no valid key the softmax of torch is 0/0).
    The CrossAttention of [models/gahoi] has no mask input: see the
    counterexample below. *)
Theorem cross_attention_padding self nodes images rd b h i j mask_b :
  mask images !! b = Some mask_b → mask_b !! j = Some true →
  (∀ l x, Decoder_hoic.attention_logits self nodes images rd = Ok l →
          entry l b h i j = Some x → x = NegInf)
  ∧ ((∃ j', mask_b !! j' = Some false) →
     ∀ w x, Decoder_hoic.attention_weights self nodes images rd = Ok w →
            entry w b h i j = Some x → x = 0).
Proof.
  intros Hb Hj. split.
  - intros l x Hl. apply (hoic_logits_padded _ _ _ _ _ _ _ _ _ _ _ Hl Hb Hj).
  - intros _ w x Hw. apply (hoic_weights_padded _ _ _ _ _ _ _ _ _ _ _ Hw Hb Hj).
Qed.

Lemma cross_attention_padding_witness :
  ∃ l w x y,
    Decoder_hoic.attention_logits hoic_cross_attention example_nodes
      example_patches example_distances = Ok l
    ∧ Decoder_hoic.attention_weights hoic_cross_attention example_nodes
        example_patches example_distances = Ok w
    ∧ entry l 0 0 0 1 = Some x ∧ x = NegInf
    ∧ entry w 0 0 0 1 = Some y ∧ y = 0.
Proof.
  destruct (cross_attention_padding hoic_cross_attention example_nodes
              example_patches example_distances 0 0 0 1 [false; true]
              eq_refl eq_refl) as (Hl & Hw).
  eexists _, _, _, _.
  split; [reflexivity|]. split; [reflexivity|].
  split; [reflexivity|]. split; [eapply Hl; reflexivity|].
  split; [reflexivity|].
  eapply (Hw (ex_intro _ 0%nat eq_refl)); reflexivity.
Defined.

(** C2 as stated fails for [models/gahoi]: the image features of a padded
    batch whose second key is padding, given to its CrossAttention; that
    key has a non-zero weight. *)
Lemma cross_attention_gahoi_counterexample :
  ∃ w v x,
    Decoder_gahoi.attention_weights gahoi_cross_attention example_entities
      (data example_patches) example_distances = Ok (w, v)
    ∧ (mask example_patches !! 0%nat) ≫= (.!! 1%nat) = Some true
    ∧ entry w 0 0 0 1 = Some x ∧ x ≠ 0.
Proof.
  eexists _, _, _. split; [reflexivity|]. split; [reflexivity|].
  split; [reflexivity|].
  apply Rgt_not_eq.
  eapply (gahoi_weights_positive gahoi_cross_attention example_entities
            (data example_patches) example_distances _ _ 0 0 0 1);
    reflexivity.
Qed.

(** ** GraphAttention: segment softmax and segment sum *)

(** Two edges of one node with logits 1 and 1 get the weights 1/2 and 1/2;
    the only edge of another node gets 1, whatever its logit. *)
Lemma segment_softmax_weights (x : R) (n m : nat) :
  n ≠ m →
  ∃ w1 w2 w3,
    scatter_softmax [[1]; [1]; [x]] [n; n; m] = Ok [[w1]; [w2]; [w3]]
    ∧ w1 = 1 / 2 ∧ w2 = 1 / 2 ∧ w3 = 1.
Proof.
  intros Hnm. unfold scatter_softmax, group_total.
  cbn [length zip zip_with fmap list_fmap imap fst snd nth sum foldr decide].
  rewrite decide_True by reflexivity.
  rewrite (decide_True (P := n = n)) by reflexivity.
  rewrite (decide_False (P := m = n)) by congruence.
  rewrite (decide_False (P := n = m)) by congruence.
  rewrite (decide_True (P := m = m)) by reflexivity.
  eexists _, _, _. split; [reflexivity|].
  pose proof (exp_pos 1). pose proof (exp_pos x).
  repeat split; field; lra.
Qed.

Lemma foldr_other_groups (zero : list (list R)) (l : list (list (list R) * nat)) n :
  n ∉ (snd <$> l) →
  foldr (λ p acc, if decide (snd p = n) then add_entry acc (fst p) else acc) zero l
  = zero.
Proof.
  induction l as [|p l IH]; simpl; [reflexivity|]. intros Hn.
  rewrite decide_False.
  - apply IH. intros Hin. apply Hn. right. exact Hin.
  - intros Hp. apply Hn. rewrite <- Hp. left.
Qed.

(** With an output size the segment sum has that many entries, and the
    entry of an index that does not occur is all zero. *)
Lemma scatter_sum_sized zero src index n out :
  scatter_sum zero src index (Some n) = Ok out →
  length out = n ∧ ∀ i, (i < n)%nat → i ∉ index → out !! i = Some zero.
Proof.
  unfold scatter_sum. destruct (decide _) as [Hl|]; [|discriminate].
  destruct (forallb _ _); [|discriminate]. intros [= <-]. split.
  - rewrite length_fmap, length_seq. reflexivity.
  - intros i Hi Hn. rewrite list_lookup_fmap, lookup_seq_lt by exact Hi.
    cbn. f_equal. apply foldr_other_groups.
    rewrite snd_zip by lia. exact Hn.
Qed.

(** Without one it stops at the largest index that occurs. *)
Lemma scatter_sum_default zero src index out :
  scatter_sum zero src index None = Ok out →
  length out = match index with
               | [] => 0%nat
               | _ => S (foldr Nat.max 0%nat index)
               end.
Proof.
  unfold scatter_sum. destruct (decide _) as [Hl|]; [|discriminate].
  destruct (forallb _ _); [|discriminate]. intros [= <-].
  rewrite length_fmap, length_seq. reflexivity.
Qed.

(** [tasks/hoic]: the summed messages have one entry per node of the
    batch, all zero for a node without edges. *)
Lemma hoic_aggregate_sized self graphs nj scores m :
  Decoder_hoic.aggregate self graphs nj scores = Ok m →
  length m = num_nodes graphs
  ∧ ∀ i, (i < num_nodes graphs)%nat → i ∉ fst (adjacency_indices graphs) →
         m !! i = Some (zeros (Decoder_hoic.num_heads self) (Decoder_hoic.head_dim self)).
Proof.
  unfold Decoder_hoic.aggregate. intros H.
  apply obind_Ok in H as (m0 & _ & H).
  apply obind_Ok in H as (m1 & _ & H).
  apply obind_Ok in H as (m2 & _ & H).
  apply obind_Ok in H as (m3 & _ & H).
  apply (scatter_sum_sized _ _ _ _ _ H).
Qed.

(** [models/gahoi]: they stop at the largest node index with an edge. *)
Lemma gahoi_aggregate_sized self graphs nj scores m :
  Decoder_gahoi.aggregate self graphs nj scores = Ok m →
  length m = match fst (adjacency_indices graphs) with
             | [] => 0%nat
             | index => S (foldr Nat.max 0%nat index)
             end.
Proof.
  unfold Decoder_gahoi.aggregate. intros H.
  apply obind_Ok in H as (m0 & _ & H).
  apply obind_Ok in H as (m1 & _ & H).
  apply obind_Ok in H as (m2 & _ & H).
  apply obind_Ok in H as (m3 & _ & H).
  rewrite (scatter_sum_default _ _ _ _ H).
  destruct (fst (adjacency_indices graphs)); reflexivity.
Qed.

(** The all-zero entry has the full node-feature width. *)
Lemma hoic_zero_width node_dim edge_dim hidden share use_bias heads self :
  Decoder_hoic.constructed node_dim edge_dim hidden share use_bias heads self →
  length (concat (zeros (Decoder_hoic.num_heads self) (Decoder_hoic.head_dim self)))
  = node_dim.
Proof.
  intros (Hmod & -> & -> & _). unfold zeros.
  rewrite length_concat, fmap_replicate, length_replicate.
  rewrite sum_list_replicate.
  destruct heads as [|k]; [simpl in *; lia|].
  pose proof (Nat.div_mod_eq node_dim (S k)). lia.
Qed.

Lemma const_linear_shaped i o w b : Decoder_hoic.shaped (const_linear i o w b) i o true.
Proof.
  unfold Decoder_hoic.shaped, const_linear. cbn.
  rewrite !length_replicate. repeat split; auto.
  apply Forall_replicate, length_replicate.
Qed.

Lemma hoic_graph_attention_constructed :
  Decoder_hoic.constructed 2 (Some 1%nat) None false true 1 hoic_graph_attention.
Proof.
  unfold Decoder_hoic.constructed. cbn.
  repeat split; try apply const_linear_shaped; auto.
Qed.

Lemma gahoi_graph_attention_constructed :
  Decoder_gahoi.constructed 2 (Some 1%nat) None false true 1 gahoi_graph_attention.
Proof.
  unfold Decoder_gahoi.constructed. cbn.
  repeat split; try apply const_linear_shaped; auto.
Qed.

(** C3 (fails in the code of [models/gahoi]).  On a graph of three nodes
    whose node 2 has no edge, the GraphAttention of [tasks/hoic] sums the
    messages into three entries, the one of node 2 all zero, and returns
    three node features; the GraphAttention of [models/gahoi], which
    passes no output size to the segment sum, gets two entries and
    returns two node features for the three nodes. *)
Theorem graph_attention_isolated_node :
  (∃ a m g,
     Decoder_hoic.attention hoic_graph_attention isolated_graph = Ok a
     ∧ Decoder_hoic.aggregate hoic_graph_attention isolated_graph (fst a) (snd a) = Ok m
     ∧ length m = 3%nat ∧ m !! 2%nat = Some [[0; 0]]
     ∧ Decoder_hoic.forward hoic_graph_attention isolated_graph = Ok g
     ∧ num_nodes g = 3%nat)
  ∧ (∃ a m g,
       Decoder_gahoi.attention gahoi_graph_attention isolated_graph = Ok a
       ∧ Decoder_gahoi.aggregate gahoi_graph_attention isolated_graph (fst a) (snd a) = Ok m
       ∧ length m = 2%nat
       ∧ Decoder_gahoi.forward gahoi_graph_attention isolated_graph = Ok g
       ∧ num_nodes g = 2%nat ∧ num_nodes isolated_graph = 3%nat).
Proof.
  split.
  - eexists _, _, _. split; [reflexivity|]. split; [reflexivity|].
    split; [reflexivity|]. split; [reflexivity|]. split; reflexivity.
  - eexists _, _, _. split; [reflexivity|]. split; [reflexivity|].
    split; [reflexivity|]. split; [reflexivity|]. split; reflexivity.
Qed.

End Decoder_facts.

(* ---------------------------------------------------------------------- *)
(** ** [_bboxes.py]: resizing, cropping and validation                      *)
(* ---------------------------------------------------------------------- *)

Module Bboxes_transforms_facts.
Import Python Bboxes Bboxes_spec Bboxes_facts Bboxes_transforms Bboxes_transforms_spec.

Local Open Scope Q_scope.

#[local] Existing Instance ext_preorder.

(** ** [resize] *)

Lemma truediv_nonzero a b : b ≠ 0%Z → truediv a b = Return (a / inject_Z b).
Proof. intros H. unfold truediv. rewrite decide_False by exact H. reflexivity. Qed.

Lemma truediv_zero a : truediv a 0 = Throw ZeroDivisionError.
Proof. reflexivity. Qed.

(** A new object over an existing buffer. *)
Lemma init_returns σ l t f n sz :
  tensors σ !! l = Some t →
  returns (__init__ l f n sz) σ
    (λ r σ', view_of σ' r = Some (mkView t f n sz) ∧ r = length (objects σ)
             ∧ tensors σ' = tensors σ
             ∧ objects σ' = objects σ ++ [mkBoundingBoxes l f n sz]).
Proof.
  intros Hl. eexists _, _. split; [reflexivity|]. split; [|split; [|auto]].
  - split; [reflexivity|apply prefix_app_r; reflexivity].
  - unfold view_of. simpl. rewrite lookup_snoc. simpl. rewrite Hl. reflexivity.
Qed.

Lemma returns_new {B} σ t f n sz (k : nat → M B) Q :
  (∀ r σ', ext σ σ' → view_of σ' r = Some (mkView t f n sz) →
           objects σ !! r = None → returns (k r) σ' Q) →
  returns (l ← fresh t; r ← __init__ l f n sz; k r) σ Q.
Proof.
  intros Hk.
  destruct (new_returns σ t f n sz) as (r & σ' & Hm & He & Hr & Hnew).
  destruct (Hk r σ' He Hr Hnew) as (x & σ2 & Hx & He2 & HQ).
  exists x, σ2. split; [|split; [etrans; eauto|exact HQ]].
  revert Hm. unfold mbind, M_bind, fresh, __init__. intros [= <- <-]. exact Hx.
Qed.

Lemma resize_returns σ self v sz :
  view_of σ self = Some v → ¬ divides_by_zero sz v →
  returns (resize self sz) σ
    (λ a σ', ∃ r, a = Return r ∧ view_of σ' r = Some (resize_view sz v)).
Proof.
  intros Hv Hz. unfold resize, resize_view. start_method Hv.
  destruct (decide (image_size v = sz)) as [E|E].
  { apply returns_ret. eauto. }
  destruct (normalized v) eqn:En.
  { eapply returns_bind; [apply (init_returns _ _ _ _ _ _ Hc)|].
    intros r σ' _ (Hr & _). apply returns_ret. eauto. }
  assert (fst (image_size v) ≠ 0%Z ∧ snd (image_size v) ≠ 0%Z) as [H0 H1].
  { split; intros H; apply Hz; unfold divides_by_zero; auto. }
  rewrite !truediv_nonzero by assumption.
  read_coords Hc. apply returns_new.
  intros r σ' _ Hr _. apply returns_ret. eauto.
Qed.

Lemma resize_throws σ self v sz :
  view_of σ self = Some v → divides_by_zero sz v →
  resize self sz σ = Ok (Throw ZeroDivisionError, σ).
Proof.
  intros Hv (En & E & Hz). unfold resize.
  destruct (view_of_obj _ _ _ Hv) as (b & Hb & Hc & Hf & Hn & Hs).
  rewrite (bind_Ok _ _ _ _ _ (get_obj_Ok _ _ _ Hb)). rewrite Hs, Hn, En.
  rewrite decide_False by exact E.
  destruct Hz as [-> | ->]; [reflexivity|].
  unfold truediv at 1. destruct (decide (fst (image_size v) = 0%Z)); reflexivity.
Qed.

(** X1 (resize, errors).  [resize] raises ZeroDivisionError exactly when
    the boxes are in pixels, the size differs from the current one and a
    dimension of the current image size is 0; the store is then as it was.
    In every other case it returns boxes for the new image size, in the
    same format and normalization. *)
Theorem resize_zero_division σ self v sz :
  view_of σ self = Some v →
  (divides_by_zero sz v → resize self sz σ = Ok (Throw ZeroDivisionError, σ)) ∧
  (¬ divides_by_zero sz v →
   ∃ r σ' v', resize self sz σ = Ok (Return r, σ') ∧ view_of σ' r = Some v' ∧
              format v' = format v ∧ normalized v' = normalized v ∧
              image_size v' = sz ∧
              length (coordinates v') = length (coordinates v)).
Proof.
  intros Hv. split; [apply (resize_throws _ _ _ _ Hv)|].
  intros Hz. destruct (resize_returns _ _ _ _ Hv Hz) as (a & σ' & Hr & _ & r & -> & Hr').
  exists r, σ', (resize_view sz v). split; [exact Hr|]. split; [exact Hr'|].
  unfold resize_view. destruct (decide (image_size v = sz)) as [E|E]; [auto|].
  simpl. repeat split. destruct (normalized v); [reflexivity|].
  apply length_fmap.
Qed.

Lemma resize_zero_division_witness :
  resize 0 (5, 5)%Z degenerate_image = Ok (Throw ZeroDivisionError, degenerate_image) ∧
  ∃ r σ' v', resize 0 (20, 20)%Z example_boxes = Ok (Return r, σ') ∧
             view_of σ' r = Some v' ∧ image_size v' = (20, 20)%Z.
Proof.
  split.
  - apply (resize_zero_division degenerate_image 0
             (mkView [Row 1 1 2 2] XYXY false (0, 0)%Z) (5, 5)%Z eq_refl).
    split; [reflexivity|]. split; [discriminate|left; reflexivity].
  - destruct (resize_zero_division example_boxes 0
                (mkView [Row 0 0 2 2] XYXY false (10, 10)%Z) (20, 20)%Z eq_refl)
      as [_ H].
    destruct H as (r & σ' & v' & H1 & H2 & _ & _ & H3 & _).
    + intros (_ & _ & [H|H]); discriminate H.
    + exists r, σ', v'. auto.
Defined.

(** X2 (resize, sharing).  [resize] to the current image size returns
    [self] and leaves the store as it is; [resize] of normalized boxes to
    another size builds one new object over the coordinate buffer of
    [self], without copying it. *)
Theorem resize_shares_coordinates σ self v sz :
  view_of σ self = Some v →
  (sz = image_size v → resize self sz σ = Ok (Return self, σ)) ∧
  (sz ≠ image_size v → normalized v = true →
   ∃ b, objects σ !! self = Some b ∧
        resize self sz σ =
          Ok (Return (length (objects σ)),
              mkStore (tensors σ)
                      (objects σ ++ [mkBoundingBoxes (_coordinates b) (format v) true sz]))).
Proof.
  intros Hv. destruct (view_of_obj _ _ _ Hv) as (b & Hb & Hc & Hf & Hn & Hs).
  split.
  - intros ->. unfold resize.
    rewrite (bind_Ok _ _ _ _ _ (get_obj_Ok _ _ _ Hb)).
    rewrite decide_True by exact Hs. reflexivity.
  - intros E En. exists b. split; [exact Hb|]. unfold resize.
    rewrite (bind_Ok _ _ _ _ _ (get_obj_Ok _ _ _ Hb)).
    rewrite decide_False by congruence. rewrite Hn, En, Hf. reflexivity.
Qed.

Lemma resize_shares_coordinates_witness :
  resize 1 (10, 10)%Z mixed_boxes = Ok (Return 1%nat, mixed_boxes) ∧
  ∃ b, objects mixed_boxes !! 1%nat = Some b ∧
       resize 1 (20, 20)%Z mixed_boxes =
         Ok (Return 4%nat,
             mkStore (tensors mixed_boxes)
                     (objects mixed_boxes
                      ++ [mkBoundingBoxes (_coordinates b) CXCYWH true (20, 20)%Z])).
Proof.
  split.
  - apply (resize_shares_coordinates mixed_boxes 1
             (mkView [Row (1#5) (1#5) (1#10) (1#10)] CXCYWH true (10, 10)%Z)
             (10, 10)%Z eq_refl). reflexivity.
  - apply (resize_shares_coordinates mixed_boxes 1
             (mkView [Row (1#5) (1#5) (1#10) (1#10)] CXCYWH true (10, 10)%Z)
             (20, 20)%Z eq_refl); [discriminate|reflexivity].
Defined.

Lemma scale_back_row (old new : Z * Z) r :
  fst old ≠ 0%Z → snd old ≠ 0%Z → fst new ≠ 0%Z → snd new ≠ 0%Z →
  row_eq (row_mul (scale_factor new old) (row_mul (scale_factor old new) r)) r.
Proof.
  intros Ho0 Ho1 Hn0 Hn1.
  apply inject_Z_nonzero in Ho0, Ho1, Hn0, Hn1.
  destruct r. unfold row_eq, row_mul, scale_factor. simpl.
  repeat split; field; auto.
Qed.

(** X3 (resize, round trip).  Resizing to another image size and back to
    the first gives the coordinates [self] had, with its format,
    normalization and image size: always for normalized boxes, and for
    boxes in pixels when no dimension of the two sizes is 0. *)
Theorem resize_roundtrip σ self v sz :
  view_of σ self = Some v →
  (normalized v = false →
   fst (image_size v) ≠ 0%Z ∧ snd (image_size v) ≠ 0%Z ∧ fst sz ≠ 0%Z ∧ snd sz ≠ 0%Z) →
  ∃ r1 σ1 r2 σ2 v2,
    resize self sz σ = Ok (Return r1, σ1) ∧
    resize r1 (image_size v) σ1 = Ok (Return r2, σ2) ∧
    view_of σ2 r2 = Some v2 ∧
    tensor_eq (coordinates v2) (coordinates v) ∧
    format v2 = format v ∧ normalized v2 = normalized v ∧
    image_size v2 = image_size v.
Proof.
  intros Hv Hnz.
  assert (Hz1 : ¬ divides_by_zero sz v).
  { intros (En & _ & Hz). destruct (Hnz En) as (? & ? & _). destruct Hz; auto. }
  destruct (resize_returns _ _ _ _ Hv Hz1) as (a & σ1 & Hr1 & _ & r1 & -> & Hv1).
  assert (Hz2 : ¬ divides_by_zero (image_size v) (resize_view sz v)).
  { unfold resize_view. destruct (decide (image_size v = sz)) as [E|E].
    - intros (_ & Hne & _). auto.
    - intros (En & _ & Hz). simpl in *. destruct (Hnz En) as (_ & _ & ? & ?).
      destruct Hz; auto. }
  destruct (resize_returns _ _ _ _ Hv1 Hz2) as (a & σ2 & Hr2 & _ & r2 & -> & Hv2).
  exists r1, σ1, r2, σ2, (resize_view (image_size v) (resize_view sz v)).
  split; [exact Hr1|]. split; [exact Hr2|]. split; [exact Hv2|].
  unfold resize_view at 2 4 6 8.
  destruct (decide (image_size v = sz)) as [E|E].
  - unfold resize_view. rewrite decide_True by reflexivity.
    repeat split. apply Forall2_same_length_lookup_2; [reflexivity|].
    intros i x y Hx Hy. rewrite Hx in Hy. injection Hy as <-.
    repeat split; reflexivity.
  - unfold resize_view. simpl. rewrite decide_False by congruence. simpl.
    repeat split. destruct (normalized v) eqn:En.
    + apply Forall2_same_length_lookup_2; [reflexivity|].
      intros i x y Hx Hy. rewrite Hx in Hy. injection Hy as <-.
      repeat split; reflexivity.
    + destruct (Hnz eq_refl) as (? & ? & ? & ?).
      rewrite fmap_fmap. apply tensor_eq_fmap. intros r.
      apply scale_back_row; assumption.
Qed.

Lemma resize_roundtrip_witness :
  ∃ r1 σ1 r2 σ2 v2,
    resize 0 (20, 40)%Z example_boxes = Ok (Return r1, σ1) ∧
    resize r1 (10, 10)%Z σ1 = Ok (Return r2, σ2) ∧
    view_of σ2 r2 = Some v2 ∧
    tensor_eq (coordinates v2) [Row 0 0 2 2] ∧
    format v2 = XYXY ∧ normalized v2 = false ∧ image_size v2 = (10, 10)%Z.
Proof.
  apply (resize_roundtrip example_boxes 0
           (mkView [Row 0 0 2 2] XYXY false (10, 10)%Z) (20, 40)%Z eq_refl).
  intros _. repeat split; discriminate.
Defined.

Lemma tensor_eq_refl c : tensor_eq c c.
Proof. induction c; constructor; [repeat split; reflexivity|assumption]. Qed.

Lemma tensor_eq_fmap2 (g h : row → row) (c : tensor) :
  (∀ r, row_eq (g r) (h r)) → tensor_eq (g <$> c) (h <$> c).
Proof. intros H. induction c; constructor; auto. Qed.

(** X4 (resize, relative position).  [resize] keeps every box at the same
    relative position in the image: the normalized coordinates after a
    resize are the normalized coordinates before it. *)
Theorem resize_keeps_normalized_coordinates σ self v sz :
  view_of σ self = Some v →
  (normalized v = false →
   fst (image_size v) ≠ 0%Z ∧ snd (image_size v) ≠ 0%Z ∧ fst sz ≠ 0%Z ∧ snd sz ≠ 0%Z) →
  ∃ r1 σ1 r2 σ2 v2 r3 σ3 v3,
    resize self sz σ = Ok (Return r1, σ1) ∧
    normalize r1 σ1 = Ok (r2, σ2) ∧ view_of σ2 r2 = Some v2 ∧
    normalize self σ = Ok (r3, σ3) ∧ view_of σ3 r3 = Some v3 ∧
    tensor_eq (coordinates v2) (coordinates v3) ∧
    format v2 = format v3 ∧ image_size v2 = sz ∧ image_size v3 = image_size v.
Proof.
  intros Hv Hnz.
  assert (Hz1 : ¬ divides_by_zero sz v).
  { intros (En & _ & Hz). destruct (Hnz En) as (? & ? & _). destruct Hz; auto. }
  destruct (resize_returns _ _ _ _ Hv Hz1) as (a & σ1 & Hr1 & _ & r1 & -> & Hv1).
  destruct (normalize_spec _ _ _ Hv1) as (r2 & σ2 & Hr2 & _ & Hv2).
  destruct (normalize_spec _ _ _ Hv) as (r3 & σ3 & Hr3 & _ & Hv3).
  eexists r1, σ1, r2, σ2, _, r3, σ3, _.
  split; [exact Hr1|]. split; [exact Hr2|]. split; [exact Hv2|].
  split; [exact Hr3|]. split; [exact Hv3|]. simpl.
  unfold resize_view. destruct (decide (image_size v = sz)) as [E|E].
  - subst sz. repeat split. apply tensor_eq_refl.
  - simpl. repeat split. destruct (normalized v) eqn:En.
    + apply tensor_eq_refl.
    + destruct (Hnz eq_refl) as (Ho0 & Ho1 & Hn0 & Hn1).
      apply inject_Z_nonzero in Ho0, Ho1, Hn0, Hn1.
      rewrite fmap_fmap. apply tensor_eq_fmap2. intros r.
      destruct r, sz as [H' W'], (image_size v) as [H W].
      unfold row_eq, normalization_row, row_div, row_mul, scale_factor, norm_factor.
      simpl in *. repeat split; field; auto.
Qed.

Lemma resize_keeps_normalized_coordinates_witness :
  ∃ r1 σ1 r2 σ2 v2 r3 σ3 v3,
    resize 0 (20, 40)%Z example_boxes = Ok (Return r1, σ1) ∧
    normalize r1 σ1 = Ok (r2, σ2) ∧ view_of σ2 r2 = Some v2 ∧
    normalize 0 example_boxes = Ok (r3, σ3) ∧ view_of σ3 r3 = Some v3 ∧
    tensor_eq (coordinates v2) (coordinates v3) ∧
    format v2 = format v3 ∧ image_size v2 = (20, 40)%Z ∧
    image_size v3 = (10, 10)%Z.
Proof.
  apply (resize_keeps_normalized_coordinates example_boxes 0
           (mkView [Row 0 0 2 2] XYXY false (10, 10)%Z) (20, 40)%Z eq_refl).
  intros _. repeat split; discriminate.
Defined.

(** ** [clamp_to_image] *)

Lemma bounds_view b v :
  _normalized b = normalized v → _image_size b = image_size v →
  bounds b = view_bounds v.
Proof. unfold bounds, view_bounds. intros -> ->. reflexivity. Qed.


Lemma normalization_row_same sz n r : normalization_row sz n n r = r.
Proof. destruct n; reflexivity. Qed.





















(** ** [is_valid] *)

Lemma is_valid_returns σ self v mw mh :
  view_of σ self = Some v →
  returns (is_valid self mw mh) σ (λ a _, a = is_valid_result v mw mh).
Proof.
  intros Hv. unfold is_valid.
  eapply returns_bind; [apply (to_xyxy_spec _ _ _ Hv)|].
  intros boxes σ1 He1 Hb1. cbv beta.
  pose proof (view_of_ext _ _ _ _ He1 Hv) as Hv1.
  start_method Hb1. cbn [normalized image_size coordinates format] in *.
  destruct (view_of_obj _ _ _ Hv1) as (s & Hs' & _ & _ & _ & Hss).
  apply (returns_get_obj _ _ _ _ _ Hs'). rewrite Hss.
  rewrite (bounds_view b v) by assumption.
  unfold is_valid_result, minimum.
  destruct (view_bounds v) as [H W] eqn:EHW.
  destruct (normalized v).
  - destruct (truediv mw (snd (image_size v))) as [mw'|e]; simpl;
      [|apply returns_ret; reflexivity].
    destruct (truediv mh (fst (image_size v))) as [mh'|e]; simpl;
      [|apply returns_ret; reflexivity].
    read_coords Hc. apply returns_ret. reflexivity.
  - simpl. read_coords Hc. apply returns_ret. reflexivity.
Qed.

(** X7 (is_valid, errors).  [is_valid] raises ZeroDivisionError exactly
    for normalized boxes whose image size has a dimension 0 (it divides
    the minimum width and height by them); in every other case it returns
    one flag per box. *)
Theorem is_valid_zero_division σ self v mw mh :
  view_of σ self = Some v →
  ∃ a σ', is_valid self mw mh σ = Ok (a, σ') ∧
    (normalized v = true ∧ (fst (image_size v) = 0%Z ∨ snd (image_size v) = 0%Z) →
     a = Throw ZeroDivisionError) ∧
    (normalized v = false ∨ (fst (image_size v) ≠ 0%Z ∧ snd (image_size v) ≠ 0%Z) →
     ∃ flags, a = Return flags ∧ length flags = length (coordinates v)).
Proof.
  intros Hv. destruct (is_valid_returns _ _ _ mw mh Hv) as (a & σ' & Hr & _ & ->).
  exists (is_valid_result v mw mh), σ'. split; [exact Hr|].
  unfold is_valid_result, minimum, truediv. split.
  - intros [-> Hz].
    destruct (decide (snd (image_size v) = 0%Z)); [reflexivity|].
    destruct Hz as [Hz|Hz]; [|contradiction].
    simpl. rewrite decide_True by exact Hz. reflexivity.
  - intros Hnz. destruct (normalized v).
    + destruct Hnz as [?|[H0 H1]]; [discriminate|].
      rewrite decide_False by exact H1. simpl.
      rewrite decide_False by exact H0. simpl.
      eexists. split; [reflexivity|]. rewrite !length_fmap. reflexivity.
    + simpl. eexists. split; [reflexivity|]. rewrite !length_fmap. reflexivity.
Qed.

Lemma is_valid_zero_division_witness :
  (∃ σ', is_valid 0 1 1 normalized_degenerate = Ok (Throw ZeroDivisionError, σ')) ∧
  (∃ flags σ', is_valid 0 1 1 outside_boxes = Ok (Return flags, σ') ∧
               length flags = 2%nat).
Proof.
  split.
  - destruct (is_valid_zero_division normalized_degenerate 0
                (mkView [Row 0 0 1 1] XYXY true (0, 5)%Z) 1 1 eq_refl)
      as (a & σ' & Hr & Hz & _).
    exists σ'. rewrite Hr, Hz; [reflexivity|]. split; [reflexivity|left; reflexivity].
  - destruct (is_valid_zero_division outside_boxes 0
                (mkView [Row (-2) 3 6 20; Row 1 1 2 2] XYWH false (10, 10)%Z) 1 1 eq_refl)
      as (a & σ' & Hr & _ & Hf).
    destruct Hf as (flags & -> & Hl); [left; reflexivity|].
    exists flags, σ'. split; [exact Hr|exact Hl].
Defined.




(** ** [crop] *)












(** ** Measures and transforms do not depend on the format *)

Lemma convert_format_spec σ self v f2 :
  view_of σ self = Some v →
  converts (convert self (Some f2) None) σ (format_view f2 v).
Proof.
  intros Hv. unfold converts, convert, format_view.
  destruct f2.
  - eapply returns_bind; [apply (to_xyxy_spec _ _ _ Hv)|].
    intros r σ' _ Hr. apply returns_ret. exact Hr.
  - eapply returns_bind; [apply (to_xywh_spec _ _ _ Hv)|].
    intros r σ' _ Hr. apply returns_ret. exact Hr.
  - eapply returns_bind; [apply (to_cxcywh_spec _ _ _ Hv)|].
    intros r σ' _ Hr. apply returns_ret. exact Hr.
Qed.

Lemma aspect_ratio_run σ r v :
  view_of σ r = Some v →
  aspect_ratio r σ = Ok (aspect_row (format v) <$> coordinates v, σ).
Proof.
  intros Hv. destruct (view_of_obj _ _ _ Hv) as (b & Hb & Hc & Hf & Hn & Hs).
  unfold aspect_ratio.
  rewrite (bind_Ok _ _ _ _ _ (get_obj_Ok _ _ _ Hb)).
  rewrite (bind_Ok _ _ _ _ _ (read_Ok _ _ _ Hc)).
  rewrite Hf. unfold widths_heights.
  destruct (format v); rowwise; reflexivity.
Qed.

Lemma area_row_format f f2 r : area_row f2 (format_row f f2 r) == area_row f r.
Proof. destruct r, f, f2; simpl; field. Qed.

Lemma aspect_row_format f f2 r : aspect_row f2 (format_row f f2 r) == aspect_row f r.
Proof.
  assert (H : ∀ w w' h h' : Q, w' == w → h' == h → w' / h' == w / h).
  { intros w w' h h' -> ->. reflexivity. }
  destruct r, f, f2; simpl; apply H; ring.
Qed.

(** X11 (measures).  [area] and [aspect_ratio] do not depend on the format
    the boxes are stored in: they give the same values on [self] and on
    [self] converted to any format. *)
Theorem measures_do_not_depend_on_format σ self v f2 :
  view_of σ self = Some v →
  ∃ r σ1 a a1 q q1,
    convert self (Some f2) None σ = Ok (r, σ1) ∧
    area self σ = Ok (a, σ) ∧ area r σ1 = Ok (a1, σ1) ∧ Forall2 Qeq a1 a ∧
    aspect_ratio self σ = Ok (q, σ) ∧ aspect_ratio r σ1 = Ok (q1, σ1) ∧
    Forall2 Qeq q1 q.
Proof.
  intros Hv.
  destruct (convert_format_spec _ _ _ f2 Hv) as (r & σ1 & Hr & _ & Hv1).
  eexists r, σ1, _, _, _, _. split; [exact Hr|].
  split; [apply (area_run _ _ _ Hv)|]. split; [apply (area_run _ _ _ Hv1)|].
  split; [|split; [apply (aspect_ratio_run _ _ _ Hv)|
                   split; [apply (aspect_ratio_run _ _ _ Hv1)|]]].
  - unfold format_view. cbn [coordinates format]. rewrite fmap_fmap.
    generalize (coordinates v). intros c.
    induction c; constructor; [apply area_row_format|assumption].
  - unfold format_view. cbn [coordinates format]. rewrite fmap_fmap.
    generalize (coordinates v). intros c.
    induction c; constructor; [apply aspect_row_format|assumption].
Qed.

Lemma measures_do_not_depend_on_format_witness :
  ∃ r σ1 a a1 q q1,
    convert 0 (Some CXCYWH) None example_boxes = Ok (r, σ1) ∧
    area 0 example_boxes = Ok (a, example_boxes) ∧ area r σ1 = Ok (a1, σ1) ∧
    Forall2 Qeq a1 a ∧
    aspect_ratio 0 example_boxes = Ok (q, example_boxes) ∧
    aspect_ratio r σ1 = Ok (q1, σ1) ∧ Forall2 Qeq q1 q.
Proof.
  apply (measures_do_not_depend_on_format example_boxes 0
           (mkView [Row 0 0 2 2] XYXY false (10, 10)%Z) CXCYWH eq_refl).
Defined.




(** ** [iou], [union] and [intersection] *)

Lemma compatible_normalized va vb :
  compatible va vb → compatible (normalized_view va) (normalized_view vb).
Proof.
  intros [Hl Hs]. unfold compatible, normalized_view. simpl.
  rewrite !length_fmap. auto.
Qed.

Lemma iou_run σ a b va vb :
  view_of σ a = Some va → view_of σ b = Some vb → compatible va vb →
  ∃ σ', iou a b σ = Ok (iou_values (normalized_view va) (normalized_view vb), σ').
Proof.
  intros Ha Hb Hcomp. unfold iou.
  destruct (normalize_spec _ _ _ Ha) as (r1 & σ1 & Hr1 & He1 & Hv1).
  rewrite (bind_Ok _ _ _ _ _ Hr1).
  destruct (normalize_spec _ _ _ (view_of_ext _ _ _ _ He1 Hb))
    as (r2 & σ2 & Hr2 & He2 & Hv2).
  rewrite (bind_Ok _ _ _ _ _ Hr2).
  pose proof (view_of_ext _ _ _ _ He2 Hv1) as Hv1'.
  fold (normalized_view va) in Hv1'. fold (normalized_view vb) in Hv2.
  pose proof (compatible_normalized _ _ Hcomp) as Hcomp'.
  destruct (intersection_area_run _ _ _ _ _ Hv1' Hv2 eq_refl Hcomp')
    as (σ3 & Hi & He3).
  rewrite (bind_Ok _ _ _ _ _ Hi).
  destruct (union_area_run _ _ _ _ _ (view_of_ext _ _ _ _ He3 Hv1')
              (view_of_ext _ _ _ _ He3 Hv2) eq_refl Hcomp') as (σ4 & Hu & _).
  rewrite (bind_Ok _ _ _ _ _ Hu). exists σ4.
  apply elementwise_run.
  destruct Hcomp' as [Hl _].
  rewrite !length_fmap, !length_zip_with, !length_fmap.
  unfold intersection_view. cbn [coordinates]. rewrite length_zip_with.
  destruct (operand_lengths (normalized_view va) (normalized_view vb)) as [-> ->].
  lia.
Qed.

Lemma iou_values_rows na nb :
  normalized na = true → normalized nb = true →
  iou_values na nb
  = zip_with (iou_row (format na) (format nb)) (coordinates na) (coordinates nb).
Proof.
  intros Hna Hnb. unfold iou_values, intersection_view, operand1, operand2, convert_view.
  cbn [coordinates]. rewrite Hna, Hnb.
  generalize (coordinates na) as la, (coordinates nb) as lb.
  induction la as [|x la IH]; intros [|y lb]; try reflexivity.
  simpl. f_equal. apply IH.
Qed.

Lemma Forall_zip_with {A B C} (f : A → B → C) (P : A → Prop) (Q : B → Prop)
    (R : C → Prop) la lb :
  (∀ x y, P x → Q y → R (f x y)) → Forall P la → Forall Q lb →
  Forall R (zip_with f la lb).
Proof.
  intros H Ha. revert lb. induction Ha as [|x la Hx _ IH]; intros lb Hb; [constructor|].
  destruct Hb as [|y lb Hy Hb]; simpl; constructor; auto.
Qed.

Lemma Forall2_zip_with_flip {A B C} (f : A → B → C) (g : B → A → C)
    (R : C → C → Prop) la lb :
  (∀ x y, R (f x y) (g y x)) → Forall2 R (zip_with f la lb) (zip_with g lb la).
Proof.
  intros H. revert lb. induction la as [|x la IH]; intros [|y lb]; simpl;
    constructor; auto.
Qed.

Lemma eps_pos : 0 < eps.
Proof. reflexivity. Qed.

(** The overlap of two intervals is no longer than either. *)
Lemma overlap_bounds a0 a2 b0 b2 :
  a0 <= a2 → b0 <= b2 →
  0 <= Qmax 0 (Qmin a2 b2 - Qmax a0 b0)
  ∧ Qmax 0 (Qmin a2 b2 - Qmax a0 b0) <= a2 - a0
  ∧ Qmax 0 (Qmin a2 b2 - Qmax a0 b0) <= b2 - b0.
Proof.
  intros Ha Hb.
  pose proof (Q.le_min_l a2 b2) as H1. pose proof (Q.le_min_r a2 b2) as H2.
  pose proof (Q.le_max_l a0 b0) as H3. pose proof (Q.le_max_r a0 b0) as H4.
  split; [apply Q.le_max_l|].
  revert H1 H2 H3 H4. generalize (Qmin a2 b2) as m, (Qmax a0 b0) as M.
  intros m M H1 H2 H3 H4. split; apply Q.max_lub; Lqa.lra.
Qed.

Lemma iou_row_bounds fa fb xa xb :
  wellformed_row fa xa → wellformed_row fb xb →
  0 <= iou_row fa fb xa xb ∧ iou_row fa fb xa xb < 1.
Proof.
  unfold wellformed_row, iou_row.
  rewrite <- (area_row_format fa XYXY xa), <- (area_row_format fb XYXY xb).
  destruct (format_row fa XYXY xa) as [a0 a1 a2 a3].
  destruct (format_row fb XYXY xb) as [b0 b1 b2 b3].
  unfold intersection_row. simpl. intros [Ha0 Ha1] [Hb0 Hb1].
  destruct (overlap_bounds a0 a2 b0 b2 Ha0 Hb0) as (Hw0 & Hwa & Hwb).
  destruct (overlap_bounds a1 a3 b1 b3 Ha1 Hb1) as (Hh0 & Hha & Hhb).
  set (w := Qmax 0 (Qmin a2 b2 - Qmax a0 b0)) in *.
  set (h := Qmax 0 (Qmin a3 b3 - Qmax a1 b1)) in *.
  pose proof eps_pos as He.
  assert (Hi : 0 <= w * h) by Lqa.nra.
  assert (Hia : w * h <= (a2 - a0) * (a3 - a1)) by Lqa.nra.
  assert (Hib : w * h <= (b2 - b0) * (b3 - b1)) by Lqa.nra.
  split.
  - apply Qle_shift_div_l; Lqa.lra.
  - apply Qlt_shift_div_r; Lqa.lra.
Qed.

Lemma wellformed_row_normalized sz n f r :
  (n = false → (0 < fst sz)%Z ∧ (0 < snd sz)%Z) →
  wellformed_row f r → wellformed_row f (normalization_row sz n true r).
Proof.
  intros Hpos. destruct n; [auto|]. destruct (Hpos eq_refl) as [H0 H1].
  rewrite Zlt_Qlt in H0, H1. apply Qinv_lt_0_compat in H0, H1.
  destruct sz as [H W], r as [x0 x1 x2 x3].
  unfold wellformed_row, normalization_row, row_div, norm_factor, Qdiv. simpl in *.
  set (iH := / inject_Z H) in *. set (iW := / inject_Z W) in *.
  destruct f; simpl; unfold Qdiv; intros [Hx Hy]; split; Lqa.nra.
Qed.

Lemma wellformed_normalized v :
  positive_image v → wellformed v → wellformed (normalized_view v).
Proof.
  intros Hpos Hwf. unfold wellformed, normalized_view. cbn [coordinates format].
  rewrite Forall_fmap. eapply Forall_impl; [exact Hwf|].
  intros r Hr. apply wellformed_row_normalized; assumption.
Qed.

(** X13 (iou, bounds).  For two sets of as many boxes, over the same image
    of positive height and width, whose boxes have no negative width or
    height, [iou] returns one value per box pair, and every value is at
    least 0 and strictly below 1 (the epsilon in the denominator keeps it
    from 1, also for a box against itself). *)
Theorem iou_between_0_and_1 σ a b va vb :
  view_of σ a = Some va → view_of σ b = Some vb → compatible va vb →
  positive_image va → positive_image vb → wellformed va → wellformed vb →
  ∃ x σ', iou a b σ = Ok (x, σ') ∧ length x = length (coordinates va) ∧
          Forall (λ q, 0 <= q ∧ q < 1) x.
Proof.
  intros Ha Hb Hcomp Hpa Hpb Hwa Hwb.
  destruct (iou_run _ _ _ _ _ Ha Hb Hcomp) as (σ' & Hr).
  eexists _, σ'. split; [exact Hr|].
  rewrite iou_values_rows by reflexivity. split.
  - destruct Hcomp as [Hl _]. unfold normalized_view. cbn [coordinates].
    rewrite length_zip_with, !length_fmap. lia.
  - eapply Forall_zip_with; [|apply (wellformed_normalized _ Hpa Hwa)
                              |apply (wellformed_normalized _ Hpb Hwb)].
    intros x y Hx Hy. apply iou_row_bounds; assumption.
Qed.

Lemma iou_between_0_and_1_witness :
  ∃ x σ', iou 0 1 example_boxes = Ok (x, σ') ∧ length x = 1%nat ∧
          Forall (λ q, 0 <= q ∧ q < 1) x.
Proof.
  apply (iou_between_0_and_1 example_boxes 0 1
           (mkView [Row 0 0 2 2] XYXY false (10, 10)%Z)
           (mkView [Row 1 1 3 3] XYXY false (10, 10)%Z) eq_refl eq_refl).
  - split; reflexivity.
  - intros _. simpl. lia.
  - intros _. simpl. lia.
  - repeat constructor; simpl; unfold Qle; simpl; lia.
  - repeat constructor; simpl; unfold Qle; simpl; lia.
Defined.

Lemma intersection_area_row_comm a b :
  area_row XYWH (intersection_row a b) == area_row XYWH (intersection_row b a).
Proof.
  destruct a as [a0 a1 a2 a3], b as [b0 b1 b2 b3]. unfold intersection_row. simpl.
  rewrite (Q.min_comm b2 a2), (Q.max_comm b0 a0), (Q.min_comm b3 a3), (Q.max_comm b1 a1).
  reflexivity.
Qed.

Lemma iou_row_comm fa fb xa xb : iou_row fa fb xa xb == iou_row fb fa xb xa.
Proof.
  unfold iou_row.
  rewrite (intersection_area_row_comm (format_row fb XYXY xb)).
  rewrite (Qplus_comm (area_row fb xb)). reflexivity.
Qed.

(** X14 (iou, symmetry).  [a.iou(b)] and [b.iou(a)] are the same values. *)
Theorem iou_symmetric σ a b va vb :
  view_of σ a = Some va → view_of σ b = Some vb → compatible va vb →
  ∃ x σ1 y σ2, iou a b σ = Ok (x, σ1) ∧ iou b a σ = Ok (y, σ2) ∧ Forall2 Qeq x y.
Proof.
  intros Ha Hb Hcomp.
  destruct (iou_run _ _ _ _ _ Ha Hb Hcomp) as (σ1 & Hr1).
  assert (Hcomp' : compatible vb va) by (destruct Hcomp; split; auto).
  destruct (iou_run _ _ _ _ _ Hb Ha Hcomp') as (σ2 & Hr2).
  eexists _, σ1, _, σ2. split; [exact Hr1|]. split; [exact Hr2|].
  rewrite !iou_values_rows by reflexivity.
  apply Forall2_zip_with_flip. intros x y. apply iou_row_comm.
Qed.

Lemma iou_symmetric_witness :
  ∃ x σ1 y σ2, iou 0 1 mixed_boxes = Ok (x, σ1) ∧ iou 1 0 mixed_boxes = Ok (y, σ2) ∧
               Forall2 Qeq x y.
Proof.
  apply (iou_symmetric mixed_boxes 0 1
           (mkView [Row 0 0 2 2] XYXY false (10, 10)%Z)
           (mkView [Row (1#5) (1#5) (1#10) (1#10)] CXCYWH true (10, 10)%Z)
           eq_refl eq_refl).
  split; reflexivity.
Defined.

Lemma union_row_comm a b : row_eq (union_row a b) (union_row b a).
Proof.
  destruct a as [a0 a1 a2 a3], b as [b0 b1 b2 b3]. unfold row_eq, union_row. simpl.
  repeat split; apply Q.min_comm || apply Q.max_comm.
Qed.

Lemma intersection_row_comm a b :
  row_eq (intersection_row a b) (intersection_row b a).
Proof.
  destruct a as [a0 a1 a2 a3], b as [b0 b1 b2 b3].
  unfold row_eq, intersection_row. simpl.
  rewrite (Q.min_comm b2 a2), (Q.max_comm b0 a0), (Q.min_comm b3 a3), (Q.max_comm b1 a1).
  repeat split; reflexivity.
Qed.

Lemma operand2_same_normalization va vb :
  normalized va = normalized vb →
  coordinates (operand2 va vb) = coordinates (operand1 vb).
Proof.
  intros E. unfold operand2, operand1, convert_view. cbn [coordinates]. rewrite E.
  rewrite <- (list_fmap_id (format_row (format vb) XYXY <$> coordinates vb)) at 2.
  apply list_fmap_ext. intros _ x _. apply normalization_row_same.
Qed.

(** X15 (union and intersection, commutativity).  For two compatible sets
    in the same normalization, [a | b] and [b | a] are the same boxes, and
    so are [a & b] and [b & a]. *)
Theorem union_and_intersection_commute σ a b va vb :
  view_of σ a = Some va → view_of σ b = Some vb →
  compatible va vb → normalized va = normalized vb →
  (∃ r1 σ1 v1 r2 σ2 v2,
     __or__ a b σ = Ok (r1, σ1) ∧ view_of σ1 r1 = Some v1 ∧
     __or__ b a σ = Ok (r2, σ2) ∧ view_of σ2 r2 = Some v2 ∧
     tensor_eq (coordinates v1) (coordinates v2) ∧ format v1 = format v2 ∧
     normalized v1 = normalized v2 ∧ image_size v1 = image_size v2) ∧
  (∃ r1 σ1 v1 r2 σ2 v2,
     __and__ a b σ = Ok (r1, σ1) ∧ view_of σ1 r1 = Some v1 ∧
     __and__ b a σ = Ok (r2, σ2) ∧ view_of σ2 r2 = Some v2 ∧
     tensor_eq (coordinates v1) (coordinates v2) ∧ format v1 = format v2 ∧
     normalized v1 = normalized v2 ∧ image_size v1 = image_size v2).
Proof.
  intros Ha Hb Hcomp Hn.
  assert (Hcomp' : compatible vb va) by (destruct Hcomp; split; auto).
  pose proof (operand2_same_normalization va vb Hn) as E1.
  pose proof (operand2_same_normalization vb va (eq_sym Hn)) as E2.
  pose proof (proj2 Hcomp) as Hs. unfold __or__, __and__. split.
  - destruct (union_spec _ _ _ _ _ Ha Hb Hcomp) as (r1 & σ1 & Hr1 & _ & Hv1).
    destruct (union_spec _ _ _ _ _ Hb Ha Hcomp') as (r2 & σ2 & Hr2 & _ & Hv2).
    eexists r1, σ1, _, r2, σ2, _.
    split; [exact Hr1|]. split; [exact Hv1|]. split; [exact Hr2|]. split; [exact Hv2|].
    cbn [coordinates format normalized image_size]. split; [|auto].
    rewrite E1, E2. apply Forall2_zip_with_flip. intros x y. apply union_row_comm.
  - destruct (intersection_spec _ _ _ _ _ Ha Hb Hcomp) as (r1 & σ1 & Hr1 & _ & Hv1).
    destruct (intersection_spec _ _ _ _ _ Hb Ha Hcomp') as (r2 & σ2 & Hr2 & _ & Hv2).
    eexists r1, σ1, _, r2, σ2, _.
    split; [exact Hr1|]. split; [exact Hv1|]. split; [exact Hr2|]. split; [exact Hv2|].
    cbn [coordinates format normalized image_size]. split; [|auto].
    rewrite E1, E2. apply Forall2_zip_with_flip. intros x y. apply intersection_row_comm.
Qed.

Lemma union_and_intersection_commute_witness :
  (∃ r1 σ1 v1 r2 σ2 v2,
     __or__ 0 3 mixed_boxes = Ok (r1, σ1) ∧ view_of σ1 r1 = Some v1 ∧
     __or__ 3 0 mixed_boxes = Ok (r2, σ2) ∧ view_of σ2 r2 = Some v2 ∧
     tensor_eq (coordinates v1) (coordinates v2) ∧ format v1 = format v2 ∧
     normalized v1 = normalized v2 ∧ image_size v1 = image_size v2) ∧
  (∃ r1 σ1 v1 r2 σ2 v2,
     __and__ 0 3 mixed_boxes = Ok (r1, σ1) ∧ view_of σ1 r1 = Some v1 ∧
     __and__ 3 0 mixed_boxes = Ok (r2, σ2) ∧ view_of σ2 r2 = Some v2 ∧
     tensor_eq (coordinates v1) (coordinates v2) ∧ format v1 = format v2 ∧
     normalized v1 = normalized v2 ∧ image_size v1 = image_size v2).
Proof.
  apply (union_and_intersection_commute mixed_boxes 0 3
           (mkView [Row 0 0 2 2] XYXY false (10, 10)%Z)
           (mkView [Row 0 0 2 2] XYWH false (10, 10)%Z) eq_refl eq_refl).
  - split; reflexivity.
  - reflexivity.
Defined.





End Bboxes_transforms_facts.

(* ---------------------------------------------------------------------- *)
(** ** [_batched_images.py]: access and replacement                         *)
(* ---------------------------------------------------------------------- *)

Module Batched_images_methods_facts.
Import Batched_images Batched_images_spec Batched_images_facts Batched_images_methods.

Section Access.

Context {A : Type}.
Implicit Types (images : list (Tensor A)) (self bi : BatchedImages A).

Lemma mapM_fmap {X Y} (f : X → outcome Y) (g : X → Y) (l : list X) :
  Forall (λ x, f x = Ok (g x)) l → mapM f l = Ok (g <$> l).
Proof.
  induction 1 as [|x l Hx _ IH]; [reflexivity|].
  cbn [mapM]. rewrite Hx, IH. reflexivity.
Qed.

Lemma py_index_of_nat (n k : nat) : (k < n)%nat → py_index n (Z.of_nat k) = Some k.
Proof.
  intros H. unfold py_index.
  destruct (Z.leb_spec 0 (Z.of_nat k)); [|lia].
  destruct (Z.ltb_spec (Z.of_nat k) (Z.of_nat n)); [|lia].
  simpl. f_equal. lia.
Qed.

Lemma py_index_lt (n : nat) (i : Z) k : py_index n i = Some k → (k < n)%nat.
Proof.
  unfold py_index.
  destruct (Z.leb_spec 0 i), (Z.ltb_spec i (Z.of_nat n)); simpl;
    try (intros [= <-]; lia);
    destruct (Z.leb_spec (- Z.of_nat n) i), (Z.ltb_spec i 0); simpl;
    try discriminate; intros [= <-]; lia.
Qed.

(** X17 (unbatch after batch).  For images that [batch] accepts and a
    padding value that converts to their dtype,
    [BatchedImages.batch(images, padding_value).unbatch()] gives the
    images back: as many tensors, each with the shape, dtype, device and
    elements of the image it was built from. *)
Theorem unbatch_batch {P} (to_dtype : dtype → P → option A) images
    (padding_value : P) :
  ¬ refused images →
  (∀ first, head images = Some first →
            is_Some (to_dtype (t_dtype first) padding_value)) →
  ∃ bi out, batch to_dtype images padding_value = Ok bi ∧ unbatch bi = Ok out ∧
            __len__ bi = Ok (length images) ∧
            Forall2 same_image out images.
Proof.
  intros Hok Hconv.
  destruct (check_images_cases images) as [(_ & first & rest & -> & Hacc)|(e & _ & Hr)];
    [|contradiction].
  destruct (Hconv first eq_refl) as [fill Hfill].
  destruct (batch_accepted to_dtype first rest padding_value fill Hacc Hfill)
    as (bi & Hb & Hsh & Hdt & Hdev & _ & Hsz & Hat).
  set (images := first :: rest) in *.
  set (g := λ p : nat * (Z * Z),
         mkTensor [channels first; slice_stop (fst (snd p)) (max_of (height <$> images));
                   slice_stop (snd (snd p)) (max_of (width <$> images))]
                  (t_dtype (_data bi)) (t_device (_data bi))
                  (λ idx, at_ (_data bi) (fst p :: idx))).
  exists bi, (g <$> zip (seq 0 (length (_image_sizes bi))) (_image_sizes bi)).
  split; [exact Hb|]. split; [|split].
  - unfold unbatch. apply mapM_fmap. apply Forall_forall. intros [i [h w]] Hin.
    apply list_elem_of_lookup in Hin as (k & Hk).
    apply lookup_zip_with_Some in Hk as (i' & hw & [= <- <-] & Hi & Hhw).
    apply lookup_seq in Hi as [-> Hlt]. simpl in Hlt.
    unfold item_slice. rewrite Hsh. rewrite Hsz, length_fmap in Hlt.
    rewrite Nat.add_0_l, (py_index_of_nat _ _ Hlt). reflexivity.
  - unfold __len__, size. rewrite Hsh. reflexivity.
  - rewrite Hsz. apply Forall2_same_length_lookup_2.
    { rewrite length_fmap, length_zip_with, length_seq, !length_fmap. lia. }
    intros i t image Ht Himg.
    rewrite list_lookup_fmap in Ht.
    destruct (zip _ _ !! i) as [[i' [h w]]|] eqn:Hz; [|discriminate].
    injection Ht as <-.
    apply lookup_zip_with_Some in Hz as (i'' & hw & [= <- <-] & Hi & Hhw).
    apply lookup_seq in Hi as [-> _]. rewrite Nat.add_0_l.
    rewrite list_lookup_fmap, Himg in Hhw. injection Hhw as <- <-.
    pose proof (proj1 (Forall_lookup _ _) Hacc i image Himg) as Hai.
    assert (Hin : image ∈ images) by (eapply list_elem_of_lookup_2; exact Himg).
    assert (Hh : (height image ≤ max_of (height <$> images))%nat).
    { apply max_of_ge. apply list_elem_of_fmap. eauto. }
    assert (Hw : (width image ≤ max_of (width <$> images))%nat).
    { apply max_of_ge. apply list_elem_of_fmap. eauto. }
    unfold same_image, g. cbn [shape t_dtype t_device at_ fst snd].
    rewrite !slice_stop_of_nat by assumption.
    rewrite (accepted_shape _ _ Hai). destruct Hai as (_ & _ & Hd1 & Hd2).
    split; [reflexivity|]. split; [congruence|]. split; [congruence|].
    intros c y x Hy Hx. cbn [nth] in Hy, Hx.
    destruct (Hat i image Himg c y x) as [-> _].
    destruct (Nat.ltb_spec y (height image)); [|lia].
    destruct (Nat.ltb_spec x (width image)); [|lia]. reflexivity.
Qed.

Lemma unbatch_length self out :
  unbatch self = Ok out → length out = length (_image_sizes self).
Proof.
  intros H. apply Decoder_facts.mapM_length in H.
  rewrite H, length_zip_with, length_seq. lia.
Qed.

(** X18 (indexing).  On a batch with as many image sizes as items,
    [self[index]] is the entry of [self.unbatch()] at that index, counted
    from the end for a negative index; an index beyond the batch raises
    IndexError. *)
Theorem getitem_agrees_with_unbatch self out index :
  unbatch self = Ok out →
  size (_data self) 0 = Ok (length (_image_sizes self)) →
  match py_index (length out) index with
  | Some k => ∃ t, out !! k = Some t ∧ __getitem__ self index = Ok t
  | None => __getitem__ self index = Raise IndexError
  end.
Proof.
  intros Hun Hlen. rewrite (unbatch_length _ _ Hun). unfold __getitem__.
  destruct (py_index (length (_image_sizes self)) index) as [k|] eqn:Hk; [|reflexivity].
  pose proof (py_index_lt _ _ _ Hk) as Hlt.
  destruct (lookup_lt_is_Some_2 out k) as [t Ht].
  { rewrite (unbatch_length _ _ Hun). exact Hlt. }
  exists t. split; [exact Ht|].
  destruct (Decoder_facts.mapM_lookup _ _ _ _ _ Hun Ht) as ([i [h w]] & Hz & Hf).
  apply lookup_zip_Some in Hz as [Hi Hhw].
  apply lookup_seq in Hi as [-> _]. rewrite Nat.add_0_l in Hf.
  rewrite Hhw. revert Hf Hlen. unfold item_slice, size.
  destruct (shape (_data self)) as [|B [|C [|H [|W rest]]]]; try discriminate.
  cbn [lookup list_lookup]. intros Hf [= ->].
  rewrite Hk. rewrite (py_index_of_nat _ _ Hlt) in Hf. exact Hf.
Qed.

(** X19 (replace).  On a batch whose mask has shape (B, H, W),
    [replace(data)] accepts exactly the tensors of shape (B, C, H, W), for
    any number of channels [C]; it keeps the image sizes and the mask and
    checks neither the dtype nor the device of [data].  Every other
    tensor with a dimension raises the ValueError of the data and mask
    check. *)
Theorem replace_checks_the_shape self (data : Tensor A) B H W :
  shape (_mask self) = [B; H; W] → shape data ≠ [] →
  ((∃ C, shape data = [B; C; H; W]) →
   replace self data = Ok (mkBatchedImages data (_image_sizes self) (_mask self))) ∧
  ((¬ ∃ C, shape data = [B; C; H; W]) →
   replace self data = Raise (ValueError data_mask_incompatible)).
Proof.
  intros Hm Hnd. unfold replace, _check_data_mask, size. rewrite Hm. split.
  - intros [C ->]. cbn [lookup list_lookup drop obind].
    rewrite Nat.eqb_refl, bool_decide_true by reflexivity. reflexivity.
  - intros Hno.
    destruct (shape data) as [|b rest] eqn:Hs; [contradiction|].
    cbn [lookup list_lookup obind].
    destruct (Nat.eqb_spec b B) as [->|]; [|reflexivity].
    destruct (bool_decide (drop 2 (B :: rest) = drop 1 [B; H; W])) eqn:E1;
      [|reflexivity].
    apply bool_decide_eq_true in E1. exfalso. apply Hno.
    destruct rest as [|c rest]; [discriminate|].
    cbn [drop] in E1. rewrite drop_0 in E1. rewrite E1. eauto.
Qed.

(** X20 (constructor without sizes and mask).  [BatchedImages(data)] on a
    tensor of shape (B, C, H, W) takes every image to have the full size
    (H, W) and marks no pixel as padded, whatever [check_validity];
    [unbatch] then returns the B items of [data] as they are. *)
Theorem constructor_without_sizes_and_mask (data : Tensor A) B C H W check_validity :
  shape data = [B; C; H; W] →
  ∃ bi out,
    __init__ data None None check_validity = Ok bi ∧
    _data bi = data ∧ _image_sizes bi = replicate B (Z.of_nat H, Z.of_nat W) ∧
    shape (_mask bi) = [B; H; W] ∧ (∀ idx, at_ (_mask bi) idx = false) ∧
    unbatch bi = Ok out ∧ length out = B ∧
    ∀ i t, out !! i = Some t →
           shape t = [C; H; W] ∧ ∀ idx, at_ t idx = at_ data (i :: idx).
Proof.
  intros Hsh.
  set (g := λ p : nat * (Z * Z),
         mkTensor [C; H; W] (t_dtype data) (t_device data)
                  (λ idx, at_ data (fst p :: idx))).
  set (sizes := replicate B (Z.of_nat H, Z.of_nat W)).
  eexists _, (g <$> zip (seq 0 (length sizes)) sizes).
  split.
  { unfold __init__, size. rewrite Hsh. cbn [lookup list_lookup obind]. reflexivity. }
  cbn [_data _image_sizes _mask shape at_]. fold sizes.
  split; [reflexivity|]. split; [reflexivity|]. split; [reflexivity|].
  split; [reflexivity|]. split; [|split].
  - unfold unbatch. cbn [_data _image_sizes]. fold sizes.
    apply mapM_fmap. apply Forall_forall. intros [i [h w]] Hin.
    apply list_elem_of_lookup in Hin as (k & Hk).
    apply lookup_zip_Some in Hk as [Hi Hhw].
    apply lookup_seq in Hi as [-> Hlt]. rewrite Nat.add_0_l.
    apply lookup_replicate in Hhw as [[= -> ->] _].
    unfold item_slice. rewrite Hsh. unfold sizes in Hlt. rewrite length_replicate in Hlt.
    rewrite (py_index_of_nat _ _ Hlt).
    rewrite !slice_stop_of_nat by lia. reflexivity.
  - unfold sizes. rewrite length_fmap, length_zip_with, length_seq, !length_replicate. lia.
  - intros i t Ht. rewrite list_lookup_fmap in Ht.
    destruct (zip _ _ !! i) as [[i' hw]|] eqn:Hz; [|discriminate].
    injection Ht as <-. apply lookup_zip_Some in Hz as [Hi _].
    apply lookup_seq in Hi as [-> _]. split; reflexivity.
Qed.

End Access.

Lemma unbatch_batch_witness :
  ∃ bi out, batch number_to_dtype [img_a; img_b] number_0 = Ok bi
            ∧ unbatch bi = Ok out
            ∧ __len__ bi = Ok 2%nat ∧ Forall2 same_image out [img_a; img_b].
Proof.
  apply (unbatch_batch number_to_dtype [img_a; img_b] number_0).
  - apply accepted_not_refused. repeat constructor.
  - intros first [= <-]. eexists. reflexivity.
Defined.

Lemma getitem_agrees_with_unbatch_witness :
  ∃ t, __getitem__ padded_batch (-1) = Ok t ∧ __getitem__ padded_batch 0 = Ok t
       ∧ shape t = [3; 1; 2]%nat
       ∧ __getitem__ padded_batch 1 = Raise IndexError
       ∧ __getitem__ padded_batch (-2) = Raise IndexError.
Proof.
  pose proof (λ out H index,
                getitem_agrees_with_unbatch padded_batch out index H eq_refl) as G.
  destruct (unbatch padded_batch) as [out| |] eqn:Hun; try discriminate Hun.
  specialize (G out eq_refl).
  injection Hun as <-.
  destruct (G (-1)%Z) as (t & [= <-] & H1).
  destruct (G 0%Z) as (t' & [= <-] & H0).
  eexists. split; [exact H1|]. split; [exact H0|]. split; [reflexivity|].
  split; [exact (G 1%Z)|exact (G (-2)%Z)].
Defined.

Lemma replace_checks_the_shape_witness :
  replace padded_batch (mkTensor [1; 7; 2; 2]%nat torch_float32 (cuda 0) (λ _, 5%Z))
  = Ok (mkBatchedImages (mkTensor [1; 7; 2; 2]%nat torch_float32 (cuda 0) (λ _, 5%Z))
                        (_image_sizes padded_batch) (_mask padded_batch))
  ∧ replace padded_batch (mkTensor [1; 3; 2; 3]%nat torch_int64 cpu (λ _, 5%Z))
    = Raise (ValueError data_mask_incompatible).
Proof.
  split.
  - apply (replace_checks_the_shape padded_batch _ 1 2 2 eq_refl); [discriminate|].
    exists 7%nat. reflexivity.
  - apply (replace_checks_the_shape padded_batch _ 1 2 2 eq_refl); [discriminate|].
    intros [C HC]. discriminate HC.
Defined.

Lemma constructor_without_sizes_and_mask_witness :
  ∃ bi out,
    __init__ (mkTensor [2; 3; 4; 5]%nat torch_int64 cpu (λ _, 1%Z)) None None true = Ok bi ∧
    _image_sizes bi = [(4, 5)%Z; (4, 5)%Z] ∧
    unbatch bi = Ok out ∧ length out = 2%nat.
Proof.
  destruct (constructor_without_sizes_and_mask
              (mkTensor [2; 3; 4; 5]%nat torch_int64 cpu (λ _, 1%Z)) 2 3 4 5 true eq_refl)
    as (bi & out & H1 & _ & H2 & _ & _ & H3 & H4 & _).
  exists bi, out. auto.
Defined.

End Batched_images_methods_facts.

(* ---------------------------------------------------------------------- *)
(** ** [utils/_misc.py], [_color.py] and [vit/_config.py]                   *)
(* ---------------------------------------------------------------------- *)

Module Utils_misc_facts.
Import Python Utils_misc.

(** X21 (to_2tuple).  What [to_2tuple] returns has two entries and is left
    as it is by [to_2tuple]; it raises, a ValueError, exactly on a tuple
    that does not have two entries. *)
Theorem to_2tuple_gives_a_pair {T} (v : value T) :
  (∀ r, to_2tuple v = Return r →
        length r = 2%nat ∧ to_2tuple (Tuple r) = Return r) ∧
  (∀ e, to_2tuple v = Throw e →
        is_ValueError e = true ∧ ∃ xs, v = Tuple xs ∧ length xs ≠ 2%nat) ∧
  (∀ xs : list T, length xs ≠ 2%nat → ∃ e, to_2tuple (Tuple xs) = Throw e) ∧
  (∀ x : T, to_2tuple (Single x) = Return [x; x]).
Proof.
  split; [|split; [|split]].
  - intros r. destruct v as [x|xs]; simpl.
    + intros [= <-]. split; reflexivity.
    + destruct (decide (length xs ≠ 2%nat)) as [H|H]; [discriminate|].
      intros [= <-]. split; [|rewrite decide_False by exact H; reflexivity].
      destruct (decide (length xs = 2%nat)); [assumption|contradiction].
  - intros e. destruct v as [x|xs]; simpl; [discriminate|].
    destruct (decide (length xs ≠ 2%nat)) as [H|H]; [|discriminate].
    intros [= <-]. split; [reflexivity|eauto].
  - intros xs H. simpl. rewrite decide_True by exact H. eauto.
  - reflexivity.
Qed.

End Utils_misc_facts.

Module Color_facts.
Import Python Color.

Local Open Scope Q_scope.

Lemma check_jitter_valid value center bounds clip r :
  _check_jitter_properties value center bounds clip = Return r →
  valid_range (fst bounds) (snd bounds) r ∧ (r = None ↔ value = None).
Proof.
  unfold _check_jitter_properties. destruct value as [value|].
  2:{ intros [= <-]. split; [exact I|tauto]. }
  destruct (match value with Number _ => _ | Range _ _ => _ end) as [[a b]|e];
    simpl; [|discriminate].
  destruct (Qle_bool (fst bounds) a) eqn:E1; simpl; [|discriminate].
  destruct (Qle_bool a b) eqn:E2; simpl; [|discriminate].
  destruct (le_bound b (snd bounds)) eqn:E3; simpl; [|discriminate].
  intros [= <-]. split; [|split; discriminate].
  apply Qle_bool_iff in E1, E2. simpl. split; [exact E1|]. split; [exact E2|].
  destruct (snd bounds); [apply Qle_bool_iff; exact E3|exact I].
Qed.

(** X22 (ColorJitter, ranges).  Every range a [ColorJitter] holds after
    [__init__] is ordered and within the bounds of its property: at least
    0 for brightness, contrast and saturation, within [-0.5, 0.5] for
    hue; and a property is left out exactly when its argument was
    [None]. *)
Theorem color_jitter_ranges brightness contrast saturation hue self :
  __init__ brightness contrast saturation hue = Return self →
  valid_range 0 Inf (_brightness self) ∧ valid_range 0 Inf (_contrast self) ∧
  valid_range 0 Inf (_saturation self) ∧
  valid_range (- (1 # 2)) (Num (1 # 2)) (_hue self) ∧
  (_brightness self = None ↔ brightness = None) ∧
  (_contrast self = None ↔ contrast = None) ∧
  (_saturation self = None ↔ saturation = None) ∧
  (_hue self = None ↔ hue = None).
Proof.
  unfold __init__.
  destruct (_check_jitter_properties brightness _ _ _) as [b|] eqn:Eb; [|discriminate].
  destruct (_check_jitter_properties contrast _ _ _) as [c|] eqn:Ec; [|discriminate].
  destruct (_check_jitter_properties saturation _ _ _) as [s|] eqn:Es; [|discriminate].
  destruct (_check_jitter_properties hue _ _ _) as [h|] eqn:Eh; [|discriminate].
  simpl. intros [= <-]. simpl.
  apply check_jitter_valid in Eb, Ec, Es, Eh. tauto.
Qed.

Lemma color_jitter_ranges_witness :
  ∃ self, __init__ (Some (Number (3 # 2))) None (Some (Range (1 # 2) 2))
                   (Some (Number (1 # 10))) = Return self ∧
          valid_range 0 Inf (_brightness self) ∧
          valid_range (- (1 # 2)) (Num (1 # 2)) (_hue self) ∧
          (_contrast self = None ↔ @None jitter = None).
Proof.
  eexists. split; [reflexivity|].
  destruct (color_jitter_ranges (Some (Number (3 # 2))) None (Some (Range (1 # 2) 2))
              (Some (Number (1 # 10))) _ eq_refl) as (H1 & _ & _ & H4 & _ & H6 & _).
  split; [exact H1|]. split; [exact H4|exact H6].
Defined.

Lemma Qle_bool_false x y : Qle_bool x y = false ↔ ¬ x <= y.
Proof.
  rewrite <- Qle_bool_iff. destruct (Qle_bool x y); split; try discriminate; auto.
  intros H. exfalso. apply H. reflexivity.
Qed.

(** X23 (jitter of a single number).  For brightness, contrast and
    saturation a single number [x] is accepted exactly when it is not
    negative, and stands for the range [max(0, 1 - x), 1 + x]; for hue it
    is accepted exactly when it lies in [0, 0.5], and stands for
    [-x, x].  Every other number raises a ValueError. *)
Theorem jitter_of_a_number (x : Q) :
  (0 <= x →
   _check_jitter_properties (Some (Number x)) 1 (0, Inf) true
   = Return (Some (Qmax 0 (1 - x), 1 + x))) ∧
  (¬ 0 <= x →
   _check_jitter_properties (Some (Number x)) 1 (0, Inf) true = Throw negative_jitter) ∧
  (0 <= x ∧ x <= 1 # 2 →
   _check_jitter_properties (Some (Number x)) 0 (- (1 # 2), Num (1 # 2)) false
   = Return (Some (0 - x, 0 + x))) ∧
  (¬ (0 <= x ∧ x <= 1 # 2) →
   ∃ e, _check_jitter_properties (Some (Number x)) 0 (- (1 # 2), Num (1 # 2)) false
        = Throw e ∧ is_ValueError e = true).
Proof.
  unfold _check_jitter_properties. split; [|split; [|split]].
  - intros Hx. rewrite (proj2 (Qle_bool_iff 0 x) Hx). simpl.
    assert (H1 : Qle_bool 0 (Qmax 0 (1 - x)) = true)
      by (apply Qle_bool_iff, Q.le_max_l).
    assert (H2 : Qle_bool (Qmax 0 (1 - x)) (1 + x) = true).
    { apply Qle_bool_iff, Q.max_lub; Lqa.lra. }
    rewrite H1, H2. reflexivity.
  - intros Hx. rewrite (proj2 (Qle_bool_false 0 x) Hx). reflexivity.
  - intros [H0 H1]. rewrite (proj2 (Qle_bool_iff 0 x) H0). simpl.
    assert (E1 : Qle_bool (- (1 # 2)) (0 - x) = true) by (apply Qle_bool_iff; Lqa.lra).
    assert (E2 : Qle_bool (0 - x) (0 + x) = true) by (apply Qle_bool_iff; Lqa.lra).
    assert (E3 : Qle_bool (0 + x) (1 # 2) = true) by (apply Qle_bool_iff; Lqa.lra).
    rewrite E1, E2, E3. reflexivity.
  - intros Hno. destruct (Qle_bool 0 x) eqn:E0; simpl; [|eauto].
    apply Qle_bool_iff in E0.
    assert (E3 : Qle_bool (0 + x) (1 # 2) = false).
    { apply Qle_bool_false. intros H. apply Hno. split; [exact E0|Lqa.lra]. }
    rewrite E3, andb_false_r. simpl. eauto.
Qed.

Lemma jitter_of_a_number_witness :
  _check_jitter_properties (Some (Number (3 # 2))) 1 (0, Inf) true
  = Return (Some (Qmax 0 (1 - (3 # 2)), 1 + (3 # 2))) ∧
  _check_jitter_properties (Some (Number (- (1 # 10)))) 1 (0, Inf) true
  = Throw negative_jitter ∧
  ∃ e, _check_jitter_properties (Some (Number (3 # 4))) 0 (- (1 # 2), Num (1 # 2)) false
       = Throw e ∧ is_ValueError e = true.
Proof.
  split; [|split].
  - apply (jitter_of_a_number (3 # 2)). unfold Qle. simpl. lia.
  - apply (jitter_of_a_number (- (1 # 10))). unfold Qle. simpl. lia.
  - apply (jitter_of_a_number (3 # 4)). unfold Qle. simpl. lia.
Defined.

End Color_facts.

Module Vit_config_facts.
Import Python Vit_config.

(** X24 (EncoderConfig, checks).  An [EncoderConfig] is accepted exactly
    when [num_heads] is not 0 and divides [embed_dim], and
    [num_register_tokens] is not negative (a negative [num_heads] that
    divides [embed_dim] passes).  With [num_heads] 0 the check raises
    ZeroDivisionError; otherwise the divisibility ValueError comes before
    the one for the register tokens. *)
Theorem encoder_config_checks (c : EncoderConfig) :
  (new c = Return c ↔
   num_heads c ≠ 0%Z ∧ (num_heads c | embed_dim c)%Z ∧ (0 <= num_register_tokens c)%Z) ∧
  (num_heads c = 0%Z → new c = Throw ZeroDivisionError) ∧
  (num_heads c ≠ 0%Z → ¬ (num_heads c | embed_dim c)%Z →
   new c = Throw (embed_dim_not_divisible (embed_dim c) (num_heads c))) ∧
  (num_heads c ≠ 0%Z → (num_heads c | embed_dim c)%Z → (num_register_tokens c < 0)%Z →
   new c = Throw (negative_register_tokens (num_register_tokens c))).
Proof.
  unfold new, __post_init__, mod_.
  destruct (decide (num_heads c = 0%Z)) as [E|E].
  { simpl. split; [|split; [|split]]; try tauto.
    split; [discriminate|tauto]. }
  simpl. rewrite <- (Z.mod_divide _ _ E).
  destruct (decide ((embed_dim c `mod` num_heads c)%Z ≠ 0%Z)) as [Hm|Hm].
  { simpl. split; [|split; [|split]]; try tauto.
    split; [discriminate|tauto]. }
  assert (Hm' : (embed_dim c `mod` num_heads c)%Z = 0%Z)
    by (destruct (decide ((embed_dim c `mod` num_heads c)%Z = 0%Z)); tauto).
  destruct (decide (num_register_tokens c < 0)%Z) as [Hr|Hr]; simpl.
  - split; [|split; [|split]]; try tauto.
    split; [discriminate|]. intros (_ & _ & ?). lia.
  - split; [|split; [|split]]; try tauto; try lia.
    split; [|reflexivity]. intros _. repeat split; auto. lia.
Qed.

(** X25 (predefined variants).  [from_variant] builds a configuration for
    every predefined variant: none fails the checks.  Each has 12 heads
    of dimension 64, and an image size that is a whole number of
    patches. *)
Theorem every_variant_builds (variant : Variant) :
  ∃ c n, from_variant variant = Return c ∧
         num_heads c = 12%Z ∧ (embed_dim c `div` num_heads c = 64)%Z ∧
         patches_per_side c = Some n.
Proof. destruct variant; eexists _, _; repeat split. Qed.

End Vit_config_facts.

(* ---------------------------------------------------------------------- *)
(** ** The decoders: what [GraphAttention.forward] needs                    *)
(* ---------------------------------------------------------------------- *)

Module Decoder_forward_facts.
Import Torch Structures Decoder_spec Decoder_examples Decoder_facts.

Local Open Scope R_scope.

Lemma mapM_Forall {X Y} (f : X → outcome Y) (l : list X) (l' : list Y) :
  mapM f l = Ok l' → Forall (λ x, ∃ y, f x = Ok y) l.
Proof.
  revert l'. induction l as [|x l IH]; intros l'; cbn [mapM]; [constructor|].
  intros H. apply obind_Ok in H as (y & Hy & H).
  apply obind_Ok in H as (ys & Hys & _). constructor; eauto.
Qed.

Lemma mapM_Ok {X Y} (f : X → outcome Y) (l : list X) :
  Forall (λ x, ∃ y, f x = Ok y) l → ∃ l', mapM f l = Ok l'.
Proof.
  induction 1 as [|x l [y Hy] _ [l' IH]]; cbn [mapM]; [eauto|].
  rewrite Hy, IH. simpl. eauto.
Qed.

Lemma linear_Ok_length l x y : linear l x = Ok y → length x = in_features l.
Proof. unfold linear. destruct (decide (length x = in_features l)); [auto|discriminate]. Qed.

Lemma linear_Ok l x : length x = in_features l → ∃ y, linear l x = Ok y.
Proof. intros H. unfold linear. rewrite decide_True by exact H. eauto. Qed.

Lemma index_select_Ok {X} (t : list X) (index : list nat) :
  Forall (λ i, (i < length t)%nat) index → ∃ l, index_select t index = Ok l ∧ Forall (λ r, r ∈ t) l.
Proof.
  unfold index_select. induction 1 as [|i index Hi _ (l & IH & Hin)]; cbn [mapM].
  - exists []. split; [reflexivity|constructor].
  - destruct (lookup_lt_is_Some_2 t i Hi) as [r Hr]. rewrite Hr, IH. simpl.
    exists (r :: l). split; [reflexivity|]. constructor; [|exact Hin].
    eapply list_elem_of_lookup_2. exact Hr.
Qed.

(** What [forward] reads before it looks at the edge features: the
    features of the two ends of every edge, projected. *)
Lemma node_projections ni_proj nj_proj (graphs : Graph) :
  Forall (λ i, (i < num_nodes graphs)%nat) (fst (adjacency_indices graphs)) →
  Forall (λ i, (i < num_nodes graphs)%nat) (snd (adjacency_indices graphs)) →
  Forall (λ r, length r = in_features ni_proj ∧ length r = in_features nj_proj)
         (node_features graphs) →
  ∃ ni nj ni_hidden nj_hidden,
    index_select (node_features graphs) (fst (adjacency_indices graphs)) = Ok ni ∧
    index_select (node_features graphs) (snd (adjacency_indices graphs)) = Ok nj ∧
    mapM (linear ni_proj) ni = Ok ni_hidden ∧ mapM (linear nj_proj) nj = Ok nj_hidden.
Proof.
  intros Hi Hj Hw.
  destruct (index_select_Ok _ _ Hi) as (ni & Hni & Hin_i).
  destruct (index_select_Ok _ _ Hj) as (nj & Hnj & Hin_j).
  destruct (mapM_Ok (linear ni_proj) ni) as [nih Hnih].
  { eapply Forall_impl; [exact Hin_i|]. intros r Hr. apply linear_Ok.
    exact (proj1 (proj1 (Forall_forall _ _) Hw r Hr)). }
  destruct (mapM_Ok (linear nj_proj) nj) as [njh Hnjh].
  { eapply Forall_impl; [exact Hin_j|]. intros r Hr. apply linear_Ok.
    exact (proj2 (proj1 (Forall_forall _ _) Hw r Hr)). }
  eauto 10.
Qed.

(** X26 (missing edge features).  A [GraphAttention] layer built with an
    [edge_dim] never returns a graph for a graph without edge features, in
    either decoder; when the node features and the edge indices fit the
    layer, what it raises is the ValueError "edge features must be
    provided.". *)
Theorem graph_attention_needs_edge_features (graphs : Graph) :
  edge_features graphs = None →
  (∀ self p, Decoder_hoic.e_proj self = Some p →
     (∀ out, Decoder_hoic.forward self graphs ≠ Ok out) ∧
     (Forall (λ i, (i < num_nodes graphs)%nat) (fst (adjacency_indices graphs)) →
      Forall (λ i, (i < num_nodes graphs)%nat) (snd (adjacency_indices graphs)) →
      Forall (λ r, length r = in_features (Decoder_hoic.ni_proj self)
                   ∧ length r = in_features (Decoder_hoic.nj_proj self))
             (node_features graphs) →
      Decoder_hoic.forward self graphs = Raise (ValueError edge_features_missing))) ∧
  (∀ self p, Decoder_gahoi.e_proj self = Some p →
     (∀ out, Decoder_gahoi.forward self graphs ≠ Ok out) ∧
     (Forall (λ i, (i < num_nodes graphs)%nat) (fst (adjacency_indices graphs)) →
      Forall (λ i, (i < num_nodes graphs)%nat) (snd (adjacency_indices graphs)) →
      Forall (λ r, length r = in_features (Decoder_gahoi.ni_proj self)
                   ∧ length r = in_features (Decoder_gahoi.nj_proj self))
             (node_features graphs) →
      Decoder_gahoi.forward self graphs = Raise (ValueError edge_features_missing))).
Proof.
  intros He. split; intros self p Hp; split.
  - intros out H. unfold Decoder_hoic.forward in H.
    apply obind_Ok in H as (a & Ha & _). revert Ha.
    unfold Decoder_hoic.attention. rewrite Hp, He.
    destruct (index_select _ _) as [ni| |]; try discriminate. simpl.
    destruct (index_select _ _) as [nj| |]; try discriminate. simpl.
    destruct (mapM _ ni) as [nih| |]; try discriminate. simpl.
    destruct (mapM _ nj) as [njh| |]; discriminate.
  - intros Hi Hj Hw.
    destruct (node_projections _ _ _ Hi Hj Hw) as (ni & nj & nih & njh & E1 & E2 & E3 & E4).
    unfold Decoder_hoic.forward, Decoder_hoic.attention.
    rewrite Hp, He, E1. simpl. rewrite E2. simpl. rewrite E3. simpl. rewrite E4.
    reflexivity.
  - intros out H. unfold Decoder_gahoi.forward in H.
    apply obind_Ok in H as (a & Ha & _). revert Ha.
    unfold Decoder_gahoi.attention. rewrite Hp, He.
    destruct (index_select _ _) as [ni| |]; try discriminate. simpl.
    destruct (index_select _ _) as [nj| |]; try discriminate. simpl.
    destruct (mapM _ ni) as [nih| |]; try discriminate. simpl.
    destruct (mapM _ nj) as [njh| |]; discriminate.
  - intros Hi Hj Hw.
    destruct (node_projections _ _ _ Hi Hj Hw) as (ni & nj & nih & njh & E1 & E2 & E3 & E4).
    unfold Decoder_gahoi.forward, Decoder_gahoi.attention.
    rewrite Hp, He, E1. simpl. rewrite E2. simpl. rewrite E3. simpl. rewrite E4.
    reflexivity.
Qed.

Lemma gahoi_attention_nj self graphs a :
  Decoder_gahoi.attention self graphs = Ok a →
  index_select (node_features graphs) (snd (adjacency_indices graphs)) = Ok (fst a)
  ∧ ∃ nj_hidden, mapM (linear (Decoder_gahoi.nj_proj self)) (fst a) = Ok nj_hidden.
Proof.
  unfold Decoder_gahoi.attention. intros H.
  apply obind_Ok in H as (ni & _ & H).
  apply obind_Ok in H as (nj & Hnj & H).
  apply obind_Ok in H as (nih & _ & H).
  apply obind_Ok in H as (njh & Hnjh & H).
  apply obind_Ok in H as (hidden & _ & H). cbv zeta in H.
  apply obind_Ok in H as (hidden' & _ & H).
  apply obind_Ok in H as (logits & _ & H).
  apply obind_Ok in H as (scores & _ & H).
  injection H as <-. simpl. eauto.
Qed.

(** X27 (models/gahoi, no edge_dim).  In [models/gahoi] the input size of
    [message_proj] is [node_dim + edge_dim if edge_dim is not None else
    0]: a layer built without [edge_dim] projects messages of size 0, and
    its [forward] never returns a graph for a graph with an edge. *)
Theorem gahoi_graph_attention_without_edge_dim
    node_dim hidden share_weights use_bias heads self graphs :
  Decoder_gahoi.constructed node_dim None hidden share_weights use_bias heads self →
  node_dim ≠ 0%nat → snd (adjacency_indices graphs) ≠ [] →
  in_features (Decoder_gahoi.message_proj self) = 0%nat ∧
  ∀ out, Decoder_gahoi.forward self graphs ≠ Ok out.
Proof.
  intros (_ & _ & _ & Hni & Hnj & _ & _ & _ & Hmsg & _) Hnd Hne.
  assert (Hin : in_features (Decoder_gahoi.message_proj self) = 0%nat)
    by exact (proj1 Hmsg).
  split; [exact Hin|]. intros out H.
  assert (Hnjin : in_features (Decoder_gahoi.nj_proj self) = node_dim).
  { destruct share_weights; [rewrite Hnj|]; [exact (proj1 Hni)|exact (proj1 Hnj)]. }
  unfold Decoder_gahoi.forward in H.
  apply obind_Ok in H as (a & Ha & H).
  apply obind_Ok in H as (m & Hm & _).
  destruct (gahoi_attention_nj _ _ _ Ha) as (Hsel & njh & Hproj).
  destruct (fst a) as [|r nj] eqn:Enj.
  { apply mapM_length in Hsel. simpl in Hsel.
    destruct (snd (adjacency_indices graphs)); [contradiction|discriminate]. }
  assert (Hr : length r = node_dim).
  { cbn [mapM] in Hproj. apply obind_Ok in Hproj as (y & Hy & _).
    rewrite <- Hnjin. exact (linear_Ok_length _ _ _ Hy). }
  unfold Decoder_gahoi.aggregate in Hm.
  apply obind_Ok in Hm as (messages & Hcat & Hm).
  apply obind_Ok in Hm as (projected & Hlin & _).
  assert (Hfirst : ∃ row rest, messages = row :: rest ∧ (node_dim ≤ length row)%nat).
  { destruct (edge_features graphs) as [ef|].
    - unfold Decoder_hoic.cat_last in Hcat.
      destruct (decide (length (r :: nj) = length ef)) as [Hl|]; [|discriminate].
      injection Hcat as <-. destruct ef as [|e ef]; [discriminate|].
      exists (r ++ e), (zip_with app nj ef). split; [reflexivity|].
      rewrite length_app. lia.
    - injection Hcat as <-. exists r, nj. split; [reflexivity|lia]. }
  destruct Hfirst as (row & rest & -> & Hrow).
  cbn [mapM] in Hlin. apply obind_Ok in Hlin as (y & Hy & _).
  apply linear_Ok_length in Hy. lia.
Qed.

Lemma gahoi_graph_attention_without_edge_dim_witness :
  in_features (Decoder_gahoi.message_proj gahoi_without_edge_dim) = 0%nat ∧
  ∀ out, Decoder_gahoi.forward gahoi_without_edge_dim connected_graph ≠ Ok out.
Proof.
  apply (gahoi_graph_attention_without_edge_dim 2 None false true 1
           gahoi_without_edge_dim connected_graph).
  - unfold Decoder_gahoi.constructed, gahoi_without_edge_dim. simpl.
    repeat split; try apply const_linear_shaped; repeat constructor.
  - discriminate.
  - discriminate.
Defined.

Lemma graph_attention_needs_edge_features_witness :
  Decoder_hoic.forward hoic_graph_attention connected_graph
  = Raise (ValueError edge_features_missing) ∧
  Decoder_gahoi.forward gahoi_graph_attention connected_graph
  = Raise (ValueError edge_features_missing).
Proof.
  destruct (graph_attention_needs_edge_features connected_graph eq_refl) as [Hh Hg].
  split.
  - apply (Hh hoic_graph_attention _ eq_refl).
    + repeat constructor.
    + repeat constructor.
    + repeat constructor.
  - apply (Hg gahoi_graph_attention _ eq_refl).
    + repeat constructor.
    + repeat constructor.
    + repeat constructor.
Defined.

Lemma chunks_length {X} (n k : nat) (l : list X) : length (chunks n k l) = n.
Proof. revert l. induction n as [|n IH]; intros l; simpl; [reflexivity|]. f_equal. apply IH. Qed.

Lemma view_as_Ok {X} (n w : nat) (flat : list X) rows :
  view_as n w flat = Ok rows → rows = chunks n w flat ∧ length flat = (n * w)%nat.
Proof.
  unfold view_as. destruct (decide (length flat = (n * w)%nat)); [|discriminate].
  intros [= <-]. auto.
Qed.

(** X28 (models/gahoi, bias network).  In [models/gahoi] the bias network
    of [CrossAttention] is built for inputs of size [embed_dim] and applied
    to the relative distances, of size 2: for every other [embed_dim],
    [forward] never returns, whatever the entities, image features and
    distances (one entity and one image position at least). *)
Theorem gahoi_cross_attention_bias_network
    embed_dim cpb_hidden_dim use_bias heads self entities images rd :
  ca_constructed embed_dim cpb_hidden_dim use_bias heads self →
  embed_dim ≠ 2%nat →
  data entities ≠ [] → default [] (head (data entities)) ≠ [] →
  default [] (head images) ≠ [] →
  ∀ out, Decoder_gahoi.ca_forward self entities images rd ≠ Ok out.
Proof.
  intros (_ & _ & _ & _ & _ & _ & Hcpb & _) Hne HB HQ HK out H.
  unfold Decoder_gahoi.ca_forward in H.
  apply obind_Ok in H as (a & Ha & _).
  unfold Decoder_gahoi.attention_weights in Ha.
  apply obind_Ok in Ha as (q0 & _ & Ha).
  apply obind_Ok in Ha as (q1 & _ & Ha).
  apply obind_Ok in Ha as (kv0 & _ & Ha).
  apply obind_Ok in Ha as (kv1 & _ & Ha).
  apply obind_Ok in Ha as (rd0 & Hrd & Ha).
  apply obind_Ok in Ha as (cpb0 & Hmlp & _).
  apply view_as_Ok in Hrd as [-> Hlen].
  revert Hlen Hmlp.
  generalize (concat (concat (concat rd))) as flat.
  set (B := length (data entities)).
  set (Q := length (default [] (head (data entities)))).
  set (K := length (default [] (head images))).
  assert (HB' : B ≠ 0%nat) by (unfold B; destruct (data entities); [contradiction|discriminate]).
  assert (HQ' : Q ≠ 0%nat)
    by (unfold Q; destruct (default [] (head (data entities))); [contradiction|discriminate]).
  assert (HK' : K ≠ 0%nat)
    by (unfold K; destruct (default [] (head images)); [contradiction|discriminate]).
  intros flat Hlen Hmlp.
  destruct B as [|B]; [contradiction|]. cbn [chunks fmap list_fmap mapM] in Hmlp.
  apply obind_Ok in Hmlp as (item & Hitem & _).
  destruct (Q * K)%nat as [|QK] eqn:EQK; [lia|].
  cbn [chunks mapM] in Hitem.
  apply obind_Ok in Hitem as (y & Hy & _).
  unfold Decoder_hoic.apply_cpb_mlp in Hy.
  apply obind_Ok in Hy as (h & Hh & _).
  apply linear_Ok_length in Hh.
  rewrite !length_take in Hh. rewrite (proj1 Hcpb) in Hh. lia.
Qed.

Lemma gahoi_cross_attention_bias_network_witness :
  ca_constructed 4 3 true 2 gahoi_cross_attention_4 ∧
  ∀ out, Decoder_gahoi.ca_forward gahoi_cross_attention_4 entities_4 patches_4
           [[[[0; 0]; [1; 1]]]] ≠ Ok out.
Proof.
  assert (H : ca_constructed 4 3 true 2 gahoi_cross_attention_4).
  { unfold ca_constructed, gahoi_cross_attention_4. simpl.
    repeat split; try apply const_linear_shaped; repeat constructor; discriminate. }
  split; [exact H|].
  apply (gahoi_cross_attention_bias_network 4 3 true 2 gahoi_cross_attention_4).
  - exact H.
  - discriminate.
  - discriminate.
  - discriminate.
  - discriminate.
Defined.

(** ** The shapes along [GraphAttention.forward] of [tasks/hoic] *)

Lemma chunks_rows {X} (n k : nat) (l : list X) :
  (n * k ≤ length l)%nat → Forall (λ c, length c = k) (chunks n k l).
Proof.
  revert l. induction n as [|n IH]; intros l Hl; simpl; constructor.
  - rewrite length_take. lia.
  - apply IH. rewrite length_drop. lia.
Qed.

Lemma view_rows_Ok {X} (w : nat) (flat : list X) rows :
  view_rows w flat = Ok rows →
  w ≠ 0%nat ∧ (length rows * w = length flat)%nat ∧ Forall (λ r, length r = w) rows.
Proof.
  unfold view_rows. destruct (decide (w = 0%nat)) as [|Hw]; [discriminate|].
  destruct (decide (length flat `mod` w = 0)%nat) as [Hm|]; [|discriminate].
  intros [= <-]. split; [exact Hw|].
  pose proof (Nat.div_mod_eq (length flat) w) as Hd.
  assert (Hlen : (length flat `div` w * w = length flat)%nat) by nia.
  split.
  - rewrite chunks_length. exact Hlen.
  - apply chunks_rows. lia.
Qed.

Lemma broadcast2_elem {X Y Z} (f : X → Y → outcome Z) a b c :
  broadcast2 f a b = Ok c →
  Forall (λ z, ∃ x y, x ∈ a ∧ y ∈ b ∧ f x y = Ok z) c.
Proof.
  unfold broadcast2. intros H. apply Forall_lookup. intros i z Hz.
  destruct (decide (length a = length b)).
  - destruct (mapM_lookup _ _ _ _ _ H Hz) as ([x y] & Hxy & Hf).
    apply lookup_zip_Some in Hxy as [Hx Hy]. exists x, y.
    split; [eapply list_elem_of_lookup_2; exact Hx|].
    split; [eapply list_elem_of_lookup_2; exact Hy|exact Hf].
  - destruct a as [|x [|x' a]].
    + destruct b as [|y [|y' b]]; try discriminate.
      cbn [mapM] in H. injection H as <-. rewrite lookup_nil in Hz. discriminate.
    + destruct (mapM_lookup _ _ _ _ _ H Hz) as (y & Hy & Hf).
      exists x, y. split; [apply list_elem_of_here|].
      split; [eapply list_elem_of_lookup_2; exact Hy|exact Hf].
    + destruct b as [|y [|y' b]]; try discriminate.
      destruct (mapM_lookup _ _ _ _ _ H Hz) as (x0 & Hx & Hf).
      exists x0, y. split; [eapply list_elem_of_lookup_2; exact Hx|].
      split; [apply list_elem_of_here|exact Hf].
Qed.

Lemma broadcast2_same_length {X Y Z} (f : X → Y → outcome Z) a b c :
  broadcast2 f a b = Ok c → length a = length b → length c = length a.
Proof.
  unfold broadcast2. intros H Hl. rewrite decide_True in H by exact Hl.
  apply mapM_length in H. rewrite H, length_zip_with. lia.
Qed.

Lemma add_entry_shape n d a b :
  has_shape n d a → has_shape n d b → has_shape n d (add_entry a b).
Proof.
  unfold has_shape, add_entry. intros [Hla Ha] [Hlb Hb]. split.
  - rewrite length_zip_with. lia.
  - apply Forall_lookup. intros i r Hr.
    apply lookup_zip_with_Some in Hr as (x & y & -> & Hx & Hy).
    rewrite length_zip_with.
    rewrite (proj1 (Forall_lookup _ _) Ha i x Hx), (proj1 (Forall_lookup _ _) Hb i y Hy).
    lia.
Qed.

Lemma scatter_sum_shape n d zero src index size out :
  scatter_sum zero src index size = Ok out →
  has_shape n d zero → Forall (has_shape n d) src → Forall (has_shape n d) out.
Proof.
  unfold scatter_sum. intros H Hz Hs.
  destruct (decide (length src = length index)); [|discriminate].
  destruct (forallb _ index); [|discriminate]. injection H as <-.
  apply Forall_fmap, Forall_forall. intros k _. unfold compose.
  assert (Hzip : Forall (λ p, has_shape n d (fst p)) (zip src index)).
  { apply Forall_lookup. intros i [x j] Hp. apply lookup_zip_Some in Hp as [Hx _].
    exact (proj1 (Forall_lookup _ _) Hs i x Hx). }
  induction Hzip as [|p l Hp _ IH]; simpl; [exact Hz|].
  destruct (decide (snd p = k)); [|exact IH]. apply add_entry_shape; assumption.
Qed.

Lemma zeros_shape n d : has_shape n d (zeros n d).
Proof.
  unfold has_shape, zeros. split; [apply length_replicate|].
  apply Forall_replicate. apply length_replicate.
Qed.

Lemma scatter_softmax_rows src index out :
  scatter_softmax src index = Ok out →
  Forall (λ o, ∃ s, s ∈ src ∧ length o = length s) out.
Proof.
  unfold scatter_softmax. destruct (decide (length src = length index)); [|discriminate].
  intros [= <-]. apply Forall_fmap, Forall_lookup. intros i [s j] Hp. unfold compose.
  apply lookup_zip_Some in Hp as [Hs _]. exists s.
  split; [eapply list_elem_of_lookup_2; exact Hs|]. simpl. apply length_imap.
Qed.

Lemma chunks_shape (n k : nat) (l : list R) :
  length l = (n * k)%nat → has_shape n k (chunks n k l).
Proof. intros H. split; [apply chunks_length|apply chunks_rows; lia]. Qed.

Lemma concat_shape n d (t : list (list R)) :
  has_shape n d t → length (concat t) = (n * d)%nat.
Proof.
  intros [<- Ht]. induction Ht as [|r t Hr _ IH]; simpl; [reflexivity|].
  rewrite length_app, IH, Hr. reflexivity.
Qed.

Lemma concat_rows {X} (w : nat) (l : list (list X)) :
  Forall (λ r, length r = w) l → length (concat l) = (length l * w)%nat.
Proof.
  induction 1 as [|r l Hr _ IH]; simpl; [reflexivity|].
  rewrite length_app, IH, Hr. reflexivity.
Qed.

Lemma hoic_attention_scores node_dim edge_dim hidden share_weights use_bias heads
    self graphs a :
  Decoder_hoic.constructed node_dim edge_dim hidden share_weights use_bias heads self →
  Decoder_hoic.attention self graphs = Ok a →
  Forall (λ s, length s = Decoder_hoic.num_heads self) (snd a).
Proof.
  intros (_ & Hh & _ & _ & _ & _ & _ & Hap & _) H.
  unfold Decoder_hoic.attention in H.
  apply obind_Ok in H as (ni & _ & H).
  apply obind_Ok in H as (nj & _ & H).
  apply obind_Ok in H as (nih & _ & H).
  apply obind_Ok in H as (njh & _ & H).
  apply obind_Ok in H as (hid & _ & H). cbv zeta in H.
  apply obind_Ok in H as (hid' & _ & H).
  apply obind_Ok in H as (logits & Hlog & H).
  apply obind_Ok in H as (scores & Hsc & H).
  injection H as <-. simpl.
  apply scatter_softmax_rows in Hsc.
  eapply Forall_impl; [exact Hsc|]. intros o (s & Hs & ->).
  apply list_elem_of_lookup in Hs as (i & Hi).
  destruct (mapM_lookup _ _ _ _ _ Hlog Hi) as (x & Hx & Hf).
  apply list_lookup_fmap_Some in Hx as (row & -> & _).
  unfold Decoder_hoic.head_logits in Hf.
  apply broadcast2_same_length in Hf.
  - rewrite Hf. apply chunks_length.
  - rewrite chunks_length. congruence.
Qed.

Lemma hoic_aggregate_shape self graphs nj scores m :
  Decoder_hoic.aggregate self graphs nj scores = Ok m →
  Forall (λ s, length s = Decoder_hoic.num_heads self) scores →
  Forall (has_shape (Decoder_hoic.num_heads self) (Decoder_hoic.head_dim self)) m.
Proof.
  intros H Hsc. unfold Decoder_hoic.aggregate in H.
  apply obind_Ok in H as (msg0 & _ & H).
  apply obind_Ok in H as (msg1 & _ & H).
  apply obind_Ok in H as (rows & Hrows & H). cbv zeta in H.
  apply obind_Ok in H as (scaled & Hscaled & H).
  apply view_rows_Ok in Hrows as (_ & _ & Hw).
  eapply scatter_sum_shape; [exact H|apply zeros_shape|].
  unfold Decoder_hoic.scale_messages in Hscaled.
  apply broadcast2_elem in Hscaled.
  eapply Forall_impl; [exact Hscaled|]. intros z (x & s & Hx & Hs & Hz).
  apply list_elem_of_fmap in Hx as (row & -> & Hrow).
  pose proof (proj1 (Forall_forall _ _) Hw row Hrow) as Hlen.
  pose proof (proj1 (Forall_forall _ _) Hsc s Hs) as Hslen.
  pose proof (chunks_shape _ _ _ Hlen) as [Hc1 Hc2].
  split.
  - apply broadcast2_same_length in Hz; [|congruence]. congruence.
  - apply broadcast2_elem in Hz. eapply Forall_impl; [exact Hz|].
    intros r (mv & sc & Hmv & _ & [= <-]). rewrite length_fmap.
    exact (proj1 (Forall_forall _ _) Hc2 mv Hmv).
Qed.

(** X29 (tasks/hoic, GraphAttention).  Where [forward] returns, the graph
    it returns has as many nodes as the one it was given, each with
    [node_dim] features, and the same adjacency and edge features: nodes
    without an edge are kept. *)
Theorem hoic_forward_keeps_the_nodes
    node_dim edge_dim hidden share_weights use_bias heads self graphs out :
  Decoder_hoic.constructed node_dim edge_dim hidden share_weights use_bias heads self →
  Decoder_hoic.forward self graphs = Ok out →
  num_nodes out = num_nodes graphs ∧
  Forall (λ r, length r = node_dim) (node_features out) ∧
  adjacency_indices out = adjacency_indices graphs ∧
  edge_features out = edge_features graphs.
Proof.
  intros Hc H. unfold Decoder_hoic.forward in H.
  apply obind_Ok in H as (a & Ha & H).
  apply obind_Ok in H as (m & Hm & H).
  apply obind_Ok in H as (rows & Hrows & H).
  apply obind_Ok in H as (o & Ho & H). injection H as <-.
  unfold num_nodes, replace. cbn [node_features adjacency_indices edge_features].
  pose proof (hoic_attention_scores _ _ _ _ _ _ _ _ _ Hc Ha) as Hsc.
  pose proof (hoic_aggregate_shape _ _ _ _ _ Hm Hsc) as Hshape.
  destruct (hoic_aggregate_sized _ _ _ _ _ Hm) as [Hlen _].
  apply view_rows_Ok in Hrows as (Hw & Hcount & _).
  split; [|split; [|split; reflexivity]].
  - rewrite (mapM_length _ _ _ Ho).
    assert (Hflat : length (concat ((λ x : list (list R), concat x) <$> m))
                    = (length m * (Decoder_hoic.num_heads self
                                   * Decoder_hoic.head_dim self))%nat).
    { rewrite <- (length_fmap (λ x : list (list R), concat x) m).
      apply concat_rows. apply Forall_fmap.
      eapply Forall_impl; [exact Hshape|]. intros x Hx. apply concat_shape. exact Hx. }
    rewrite Hflat, Hlen in Hcount. unfold num_nodes in Hcount. nia.
  - destruct Hc as (_ & _ & _ & _ & _ & _ & _ & _ & _ & _ & Hout).
    apply Forall_lookup. intros i r Hr.
    destruct (mapM_lookup _ _ _ _ _ Ho Hr) as (x & _ & Hf).
    unfold linear in Hf.
    destruct (decide (length x = in_features (Decoder_hoic.out_proj self)));
      [|discriminate].
    destruct Hout as (_ & Hof & Hwl & _ & Hb).
    injection Hf as <-.
    destruct (bias (Decoder_hoic.out_proj self)) as [bv|].
    + rewrite length_zip_with, length_fmap. lia.
    + rewrite length_fmap. exact Hwl.
Qed.

Lemma hoic_forward_keeps_the_nodes_witness :
  ∃ out, Decoder_hoic.forward hoic_graph_attention isolated_graph = Ok out ∧
         num_nodes out = 3%nat ∧
         adjacency_indices out = ([0; 1]%nat, [1; 0]%nat).
Proof.
  destruct (Decoder_hoic.forward hoic_graph_attention isolated_graph) as [out| |] eqn:E.
  - exists out. split; [reflexivity|].
    destruct (hoic_forward_keeps_the_nodes 2 (Some 1%nat) None false true 1
                hoic_graph_attention isolated_graph out
                hoic_graph_attention_constructed E) as (H1 & _ & H2 & _).
    split; [exact H1|exact H2].
  - exfalso. revert E. unfold isolated_graph, hoic_graph_attention.
    clear. intros E. discriminate E.
  - exfalso. revert E. clear. intros E. discriminate E.
Defined.

End Decoder_forward_facts.

(* ---------------------------------------------------------------------- *)
(** ** [tasks/hoic] CrossAttention: the features at padded positions        *)
(* ---------------------------------------------------------------------- *)

Module Decoder_padding_facts.
Import Torch Structures Decoder_spec Decoder_examples Decoder_facts
       Decoder_forward_facts.

Local Open Scope R_scope.

(** *** The projected features *)

Lemma linear_length l x y : linear l x = Ok y → length y = linear_width l.
Proof.
  unfold linear, linear_width. destruct (decide _); [|discriminate].
  intros [= <-]. destruct (bias l).
  - rewrite length_zip_with, length_fmap. reflexivity.
  - apply length_fmap.
Qed.

Lemma linear_same_if_valid l m x x' y :
  same_if_valid m x x' → linear l x = Ok y →
  ∃ y', linear l x' = Ok y' ∧ same_if_valid m y y'.
Proof.
  intros [Hl Hv] Hy. destruct (linear_Ok l x') as [y' Hy'].
  { rewrite <- Hl. exact (linear_Ok_length _ _ _ Hy). }
  exists y'. split; [exact Hy'|]. split.
  - rewrite (linear_length _ _ _ Hy), (linear_length _ _ _ Hy'). reflexivity.
  - intros Hm. rewrite (Hv Hm) in Hy. congruence.
Qed.

Lemma mapM_Forall3 {M X Y} (f : X → outcome Y) (P : M → X → X → Prop)
    (S : M → Y → Y → Prop) ms l l' ys :
  Forall3 P ms l l' →
  (∀ m x x' y, P m x x' → f x = Ok y → ∃ y', f x' = Ok y' ∧ S m y y') →
  mapM f l = Ok ys → ∃ ys', mapM f l' = Ok ys' ∧ Forall3 S ms ys ys'.
Proof.
  intros HF Hf. revert ys. induction HF as [|m x x' ms l l' Hx _ IH]; intros ys; cbn [mapM].
  - intros [= <-]. exists []. split; [reflexivity|constructor].
  - intros H. apply obind_Ok in H as (y & Hy & H).
    apply obind_Ok in H as (ys0 & Hys & H). injection H as <-.
    destruct (Hf _ _ _ _ Hx Hy) as (y' & Hy' & HS).
    destruct (IH _ Hys) as (ys' & Hys' & HS').
    exists (y' :: ys'). rewrite Hy', Hys'. split; [reflexivity|constructor; assumption].
Qed.

Lemma projected_features l mask data data' kv :
  differ_in_padding mask data data' →
  mapM (mapM (linear l)) data = Ok kv →
  ∃ kv', mapM (mapM (linear l)) data' = Ok kv' ∧ differ_in_padding mask kv kv'.
Proof.
  intros Hd. eapply mapM_Forall3; [exact Hd|].
  intros mask_b item item' y Hitem. eapply mapM_Forall3; [exact Hitem|].
  intros m x x' y0. apply linear_same_if_valid.
Qed.

Lemma projected_rows l data kv :
  mapM (mapM (linear l)) data = Ok kv →
  Forall (Forall (λ r, length r = linear_width l)) kv.
Proof.
  intros H. apply Forall_lookup. intros b item Hb.
  destruct (mapM_lookup _ _ _ _ _ H Hb) as (x & _ & Hx).
  apply Forall_lookup. intros p r Hp.
  destruct (mapM_lookup _ _ _ _ _ Hx Hp) as (x0 & _ & Hr).
  exact (linear_length _ _ _ Hr).
Qed.

(** *** Views of contiguous data *)

Lemma chunks_concat {X} (w : nat) (l : list (list X)) :
  Forall (λ r, length r = w) l → chunks (length l) w (concat l) = l.
Proof.
  induction 1 as [|r l Hr _ IH]; [reflexivity|]. simpl. subst w.
  rewrite take_app_length, drop_app_length, IH. reflexivity.
Qed.

Lemma concat_concat {X} (l : list (list (list X))) :
  concat (concat l) = concat ((λ item, concat item) <$> l).
Proof.
  induction l as [|x l IH]; [reflexivity|]. simpl. rewrite concat_app, IH. reflexivity.
Qed.

Lemma chunks_zero {X} (w : nat) (flat : list X) : chunks 0 w flat = [].
Proof. reflexivity. Qed.

(** With [B] items of [K] rows each, all of one size, [split_kv] cuts the
    keys and values of each item out of its own rows. *)
Lemma split_kv_items (B K H d L : nat) (kv : list (list (list R))) :
  length kv = B → Forall (λ item, length item = K) kv →
  Forall (Forall (λ r, length r = L)) kv →
  length (concat (concat kv)) = (B * (K * (2 * (H * d))))%nat →
  Decoder_hoic.split_kv B K H d kv = Ok (keys_of H d <$> kv, values_of H d <$> kv).
Proof.
  intros HB HK HL Hlen. unfold Decoder_hoic.split_kv, view_as.
  rewrite decide_True by exact Hlen. cbn [obind].
  set (w := (2 * (H * d))%nat) in *.
  assert (Hper : (λ item : list R, chunks K w item)
                   <$> chunks B (K * w) (concat (concat kv)) = kv).
  { destruct (decide (B = 0%nat)) as [->|HB0].
    { destruct kv; [reflexivity|discriminate]. }
    assert (Hflat : length (concat (concat kv)) = (B * (K * L))%nat).
    { rewrite concat_concat. subst B.
      rewrite <- (length_fmap (λ item : list (list R), concat item) kv).
      apply concat_rows. apply Forall_fmap, Forall_lookup. intros b item Hb. unfold compose.
      rewrite <- (proj1 (Forall_lookup _ _) HK b item Hb).
      apply concat_rows. exact (proj1 (Forall_lookup _ _) HL b item Hb). }
    assert (Hcase : K = 0%nat ∨ L = w).
    { rewrite Hflat in Hlen. apply Nat.mul_cancel_l in Hlen; [|exact HB0].
      destruct (decide (K = 0%nat)) as [|HK0]; [left; assumption|right].
      apply Nat.mul_cancel_l in Hlen; [exact Hlen|exact HK0]. }
    rewrite concat_concat.
    replace B with (length ((λ item : list (list R), concat item) <$> kv))
      by (rewrite length_fmap; exact HB).
    rewrite chunks_concat.
    2:{ apply Forall_fmap, Forall_lookup. intros b item Hb. unfold compose.
        pose proof (proj1 (Forall_lookup _ _) HK b item Hb) as Hk.
        pose proof (proj1 (Forall_lookup _ _) HL b item Hb) as Hl.
        rewrite (concat_rows _ _ Hl), Hk. destruct Hcase as [->| ->]; lia. }
    rewrite <- list_fmap_compose.
    rewrite <- (list_fmap_id kv) at 2. apply list_fmap_ext. intros b item Hb.
    unfold compose. simpl.
    pose proof (proj1 (Forall_lookup _ _) HK b item Hb) as Hk.
    pose proof (proj1 (Forall_lookup _ _) HL b item Hb) as Hl.
    destruct Hcase as [->| ->].
    - destruct item; [reflexivity|discriminate].
    - rewrite <- Hk. apply chunks_concat. exact Hl. }
  rewrite Hper. reflexivity.
Qed.

(** *** Keys and values *)

Lemma chunks_same_lengths {X} (n k : nat) (s s' : list X) :
  length s = length s' →
  Forall2 (λ c c', length c = length c') (chunks n k s) (chunks n k s').
Proof.
  revert s s'. induction n as [|n IH]; intros s s' Hl; simpl; constructor.
  - rewrite !length_take, Hl. reflexivity.
  - apply IH. rewrite !length_drop, Hl. reflexivity.
Qed.

Lemma transposed_rows (H : nat) (F : list R → list (list R)) mask_b item item' :
  (∀ r, length (F r) = H) →
  (∀ r r', length r = length r' → Forall2 (λ c c', length c = length c') (F r) (F r')) →
  Forall3 same_if_valid mask_b item item' →
  Forall2 (Forall3 same_if_valid mask_b)
          (transpose H (F <$> item)) (transpose H (F <$> item')).
Proof.
  intros HF Hlen Hitem. unfold transpose.
  apply Forall2_fmap, Forall_Forall2_diag, Forall_forall. intros h Hh.
  apply elem_of_seq in Hh as [_ Hh]. simpl in Hh.
  induction Hitem as [|m x x' ms l l' [Hl Hv] _ IH]; [constructor|].
  cbn [fmap list_fmap omap list_omap].
  destruct (lookup_lt_is_Some_2 (F x) h) as [c Hc]; [rewrite HF; exact Hh|].
  destruct (lookup_lt_is_Some_2 (F x') h) as [c' Hc']; [rewrite HF; exact Hh|].
  rewrite Hc, Hc'. constructor; [|exact IH]. split.
  - exact (Forall2_lookup_lr _ _ _ _ _ _ (Hlen x x' Hl) Hc Hc').
  - intros Hm. rewrite (Hv Hm) in Hc. congruence.
Qed.

Lemma keys_differ_in_padding H d mask kv kv' :
  differ_in_padding mask kv kv' →
  Forall3 (λ mask_b k k', Forall2 (Forall3 same_if_valid mask_b) k k')
          mask (keys_of H d <$> kv) (keys_of H d <$> kv').
Proof.
  induction 1 as [|mask_b item item' ms l l' Hitem _ IH]; [constructor|].
  cbn [fmap list_fmap]. constructor; [|exact IH]. unfold keys_of.
  apply transposed_rows; [intros r; apply chunks_length| |exact Hitem].
  intros r r' Hl. apply chunks_same_lengths. rewrite !length_take, Hl. reflexivity.
Qed.

Lemma values_differ_in_padding H d mask kv kv' :
  differ_in_padding mask kv kv' →
  Forall3 (λ mask_b v v', Forall2 (Forall3 same_if_valid mask_b) v v')
          mask (values_of H d <$> kv) (values_of H d <$> kv').
Proof.
  induction 1 as [|mask_b item item' ms l l' Hitem _ IH]; [constructor|].
  cbn [fmap list_fmap]. constructor; [|exact IH]. unfold values_of.
  apply transposed_rows; [intros r; apply chunks_length| |exact Hitem].
  intros r r' Hl. apply chunks_same_lengths. rewrite !length_drop, Hl. reflexivity.
Qed.

(** *** The mask *)

Lemma masked_fill__rows cpb mask m :
  Decoder_hoic.masked_fill_ cpb mask = Ok m →
  Forall2 (λ mask_b m_b,
             Forall (Forall (λ mrow, ∃ row, mrow = masked_fill row mask_b)) m_b)
          mask m.
Proof.
  unfold Decoder_hoic.masked_fill_.
  destruct (decide (length cpb = length mask)) as [Hl|]; [|discriminate].
  intros H. apply Forall2_same_length_lookup_2.
  { rewrite (mapM_length _ _ _ H), length_zip_with. lia. }
  intros b mask_b m_b Hmask Hm.
  destruct (mapM_lookup _ _ _ _ _ H Hm) as ([cpb_b mask_b'] & Hz & Hf).
  apply lookup_zip_Some in Hz as [_ Hmask']. rewrite Hmask in Hmask'.
  injection Hmask' as <-. cbn [fst snd] in Hf.
  apply Forall_lookup. intros h head Hh.
  destruct (mapM_lookup _ _ _ _ _ Hf Hh) as (x & _ & Hx).
  apply Forall_lookup. intros i mrow Hi.
  destruct (mapM_lookup _ _ _ _ _ Hx Hi) as (row & _ & Hrow).
  destruct (decide (length row = length mask_b)); [|discriminate].
  injection Hrow as <-. eauto.
Qed.

(** *** The attention call *)

Lemma logits_row_padding (e : list R → R) mask_b k k' row :
  Forall3 same_if_valid mask_b k k' →
  zip_with (λ kj mij, xadd (Fin (e kj)) mij) k (masked_fill row mask_b)
  = zip_with (λ kj mij, xadd (Fin (e kj)) mij) k' (masked_fill row mask_b).
Proof.
  intros Hk. revert row. induction Hk as [|m kj kj' ms k k' [_ Hv] _ IH]; intros row.
  - reflexivity.
  - destruct row as [|x row]; [reflexivity|]. cbn [masked_fill zip_with].
    f_equal; [|apply IH]. destruct m; [reflexivity|]. rewrite (Hv eq_refl). reflexivity.
Qed.

Lemma sdpa_logits_padding q mask_b k k' m :
  Forall3 same_if_valid mask_b k k' →
  Forall (λ mrow, ∃ row, mrow = masked_fill row mask_b) m →
  sdpa_logits q k m = sdpa_logits q k' m.
Proof.
  intros Hk Hm. unfold sdpa_logits. generalize (sdpa_scale q) as sc. intros sc.
  revert q. induction Hm as [|mrow m (row & ->) _ IH]; intros q.
  - destruct q; reflexivity.
  - destruct q as [|qi q]; [reflexivity|]. cbn [zip_with]. f_equal; [|apply IH].
    apply (logits_row_padding (λ kj, dot qi kj * sc)). exact Hk.
Qed.

Lemma weighted_terms_padding (e : list R → R) (S : R) c mask_b k v v' row :
  Forall3 same_if_valid mask_b v v' →
  zip_with (λ wj vj, wj * nth c vj 0)
           ((λ x, xexp x / S)
              <$> zip_with (λ kj mij, xadd (Fin (e kj)) mij) k (masked_fill row mask_b))
           v
  = zip_with (λ wj vj, wj * nth c vj 0)
             ((λ x, xexp x / S)
                <$> zip_with (λ kj mij, xadd (Fin (e kj)) mij) k (masked_fill row mask_b))
             v'.
Proof.
  intros Hv. revert k row.
  induction Hv as [|m vj vj' ms v v' [_ Hval] _ IH]; intros k row.
  - destruct (_ <$> _); reflexivity.
  - destruct k as [|kj k]; [reflexivity|]. destruct row as [|x row]; [reflexivity|].
    cbn [masked_fill zip_with fmap list_fmap]. f_equal; [|apply IH].
    destruct m.
    + simpl. unfold Rdiv. rewrite !Rmult_0_l. reflexivity.
    + rewrite (Hval eq_refl). reflexivity.
Qed.

Lemma value_width mask_b (v v' : list (list R)) :
  Forall3 same_if_valid mask_b v v' →
  length (default [] (head v)) = length (default [] (head v')).
Proof. intros [|m x x' ms l l' [Hl _] _]; [reflexivity|exact Hl]. Qed.

Lemma sdpa_padding q mask_b k k' v v' m :
  Forall3 same_if_valid mask_b k k' → Forall3 same_if_valid mask_b v v' →
  Forall (λ mrow, ∃ row, mrow = masked_fill row mask_b) m →
  scaled_dot_product_attention q k v m = scaled_dot_product_attention q k' v' m.
Proof.
  intros Hk Hv Hm. unfold scaled_dot_product_attention, sdpa_weights.
  rewrite <- (sdpa_logits_padding q mask_b k k' m Hk Hm).
  rewrite <- (value_width _ _ _ Hv).
  generalize (length (default [] (head v))) as dv. intros dv.
  unfold sdpa_logits. generalize (sdpa_scale q) as sc. intros sc.
  rewrite <- !list_fmap_compose.
  revert q. induction Hm as [|mrow m (row & ->) _ IH]; intros q.
  - destruct q; reflexivity.
  - destruct q as [|qi q]; [reflexivity|]. cbn [zip_with fmap list_fmap].
    f_equal; [|apply IH]. unfold compose, weighted_sum, softmax.
    apply list_fmap_ext. intros _ c _. f_equal.
    apply (weighted_terms_padding (λ kj, dot qi kj * sc)). exact Hv.
Qed.

Lemma attend_heads_padding mask_b (q_b : list (list (list R))) k_b k_b' v_b v_b' m_b :
  Forall2 (Forall3 same_if_valid mask_b) k_b k_b' →
  Forall2 (Forall3 same_if_valid mask_b) v_b v_b' →
  Forall (Forall (λ mrow, ∃ row, mrow = masked_fill row mask_b)) m_b →
  zip_with (λ (qk : list (list R) * list (list R))
              (vm : list (list R) * list (list xreal)),
              scaled_dot_product_attention (fst qk) (snd qk) (fst vm) (snd vm))
           (zip q_b k_b) (zip v_b m_b)
  = zip_with (λ (qk : list (list R) * list (list R))
                (vm : list (list R) * list (list xreal)),
                scaled_dot_product_attention (fst qk) (snd qk) (fst vm) (snd vm))
             (zip q_b k_b') (zip v_b' m_b).
Proof.
  intros Hk. revert q_b v_b v_b' m_b.
  induction Hk as [|k k' ks ks' Hkk _ IH]; intros q_b v_b v_b' m_b Hv Hm.
  - destruct q_b; reflexivity.
  - destruct q_b as [|q q_b]; [reflexivity|].
    destruct Hv as [|v v' vs vs' Hvv Hv]; [reflexivity|].
    destruct Hm as [|m ms Hmm Hm]; [reflexivity|].
    cbn [zip zip_with fst snd]. f_equal; [|apply IH; assumption].
    apply (sdpa_padding q mask_b); assumption.
Qed.

Lemma attend_padding mask q k k' v v' m :
  Forall3 (λ mask_b k_b k_b', Forall2 (Forall3 same_if_valid mask_b) k_b k_b')
          mask k k' →
  Forall3 (λ mask_b v_b v_b', Forall2 (Forall3 same_if_valid mask_b) v_b v_b')
          mask v v' →
  Forall2 (λ mask_b m_b,
             Forall (Forall (λ mrow, ∃ row, mrow = masked_fill row mask_b)) m_b)
          mask m →
  Decoder_hoic.attend scaled_dot_product_attention q k v m
  = Decoder_hoic.attend scaled_dot_product_attention q k' v' m.
Proof.
  unfold Decoder_hoic.attend. intros Hk. revert q v v' m.
  induction Hk as [|mask_b k_b k_b' ms k k' Hkk _ IH]; intros q v v' m Hv Hm.
  - destruct q; reflexivity.
  - destruct q as [|q_b q]; [reflexivity|].
    apply Forall3_cons_inv_l in Hv as (v_b & vs & v_b' & vs' & -> & -> & Hvv & Hv).
    apply Forall2_cons_inv_l in Hm as (m_b & m0 & Hmm & Hm & ->).
    cbn [zip zip_with fst snd]. f_equal; [|apply IH; assumption].
    apply (attend_heads_padding mask_b); assumption.
Qed.

(** *** The forward pass *)

Lemma flat_length (B K L : nat) (kv : list (list (list R))) :
  length kv = B → Forall (λ item, length item = K) kv →
  Forall (Forall (λ r, length r = L)) kv →
  length (concat (concat kv)) = (B * (K * L))%nat.
Proof.
  intros HB HK HL. rewrite concat_concat. subst B.
  rewrite <- (length_fmap (λ item : list (list R), concat item) kv).
  apply concat_rows. apply Forall_fmap, Forall_lookup. intros b item Hb. unfold compose.
  rewrite <- (proj1 (Forall_lookup _ _) HK b item Hb).
  apply concat_rows. exact (proj1 (Forall_lookup _ _) HL b item Hb).
Qed.

Lemma differ_in_padding_items (K : nat) mask (kv kv' : list (list (list R))) :
  differ_in_padding mask kv kv' → Forall (λ mask_b, length mask_b = K) mask →
  Forall (λ item, length item = K) kv ∧ Forall (λ item, length item = K) kv'.
Proof.
  induction 1 as [|mask_b item item' ms l l' Hitem _ IH]; intros Hm.
  - split; constructor.
  - apply Forall_cons in Hm as [Hb Hm]. destruct (IH Hm) as [I1 I2].
    split; constructor; auto.
    + rewrite <- (Forall3_length_lm _ _ _ _ Hitem). exact Hb.
    + rewrite <- (Forall3_length_lr _ _ _ _ Hitem). exact Hb.
Qed.

Lemma attention_inputs_padding self nodes images data' rd q k v m :
  differ_in_padding (mask images) (data images) data' →
  length (mask images) = length rd →
  Forall (λ mask_b, length mask_b
                    = length (default [] (head (default [] (head rd)))))
         (mask images) →
  Decoder_hoic.attention_inputs self nodes images rd = Ok (q, k, v, m) →
  ∃ k' v',
    Decoder_hoic.attention_inputs self nodes
      (mkBatchedSequences data' (mask images)) rd = Ok (q, k', v', m)
    ∧ Decoder_hoic.attend scaled_dot_product_attention q k v m
      = Decoder_hoic.attend scaled_dot_product_attention q k' v' m.
Proof.
  intros Hd HB HK H. unfold Decoder_hoic.attention_inputs in *.
  cbn [data mask]. cbv zeta in H |- *.
  set (B := length rd) in *.
  set (K := length (default [] (head (default [] (head rd))))) in *.
  apply obind_Ok in H as (q0 & Hq0 & H). rewrite Hq0. cbn [obind].
  apply obind_Ok in H as (q1 & Hq1 & H). rewrite Hq1. cbn [obind].
  apply obind_Ok in H as (kv0 & Hkv & H).
  apply obind_Ok in H as (kvs & Hsplit & H).
  apply obind_Ok in H as (cpb0 & Hcpb & H).
  apply obind_Ok in H as (att & Hatt & H). injection H as <- <- <- <-.
  destruct (projected_features _ _ _ _ _ Hd Hkv) as (kv0' & Hkv' & Hrel).
  rewrite Hkv'. cbn [obind].
  destruct (differ_in_padding_items K _ _ _ Hrel HK) as [HK0 HK0'].
  pose proof (projected_rows _ _ _ Hkv) as HL.
  pose proof (projected_rows _ _ _ Hkv') as HL'.
  assert (HB0 : length kv0 = B) by (rewrite <- (Forall3_length_lm _ _ _ _ Hrel); exact HB).
  assert (HB0' : length kv0' = B) by (rewrite <- (Forall3_length_lr _ _ _ _ Hrel); exact HB).
  assert (Hlen : length (concat (concat kv0))
                 = (B * (K * (2 * (Decoder_hoic.ca_num_heads self
                                   * Decoder_hoic.ca_head_dim self))))%nat).
  { unfold Decoder_hoic.split_kv in Hsplit.
    apply obind_Ok in Hsplit as (rows & Hrows & _).
    exact (proj2 (view_as_Ok _ _ _ _ Hrows)). }
  assert (Hlen' : length (concat (concat kv0'))
                  = (B * (K * (2 * (Decoder_hoic.ca_num_heads self
                                    * Decoder_hoic.ca_head_dim self))))%nat).
  { rewrite <- Hlen. rewrite (flat_length _ _ _ _ HB0 HK0 HL).
    apply (flat_length _ _ _ _ HB0' HK0' HL'). }
  rewrite (split_kv_items _ _ _ _ _ _ HB0 HK0 HL Hlen) in Hsplit.
  injection Hsplit as <-.
  rewrite (split_kv_items _ _ _ _ _ _ HB0' HK0' HL' Hlen'). cbn [obind fst snd].
  rewrite Hcpb. cbn [obind]. rewrite Hatt. cbn [obind].
  eexists _, _. split; [reflexivity|]. cbn [fst snd].
  apply (attend_padding (mask images)).
  - apply keys_differ_in_padding. exact Hrel.
  - apply values_differ_in_padding. exact Hrel.
  - apply (masked_fill__rows _ _ _ Hatt).
Qed.

(** X30 (tasks/hoic, padded features).  The features of an image at its
    padded positions have no part in what [CrossAttention.forward]
    returns: with other features there, of the same size, it returns the
    same node features.  (Image features of shape (B, K, D) with a mask of
    shape (B, K), for distances of shape (B, Q, K, 2); every item has a
    valid position.) *)
Theorem padded_features_do_not_matter self nodes images data' rd out :
  differ_in_padding (mask images) (data images) data' →
  length (mask images) = length rd →
  Forall (λ mask_b, length mask_b
                    = length (default [] (head (default [] (head rd)))))
         (mask images) →
  Forall (λ mask_b, false ∈ mask_b) (mask images) →
  Decoder_hoic.ca_forward self nodes images rd = Ok out →
  Decoder_hoic.ca_forward self nodes (mkBatchedSequences data' (mask images)) rd
  = Ok out.
Proof.
  intros Hd HB HK _ H. unfold Decoder_hoic.ca_forward in *. cbv zeta in H |- *.
  apply obind_Ok in H as ([[[q k] v] m] & Ha & H).
  destruct (attention_inputs_padding _ _ _ _ _ _ _ _ _ Hd HB HK Ha)
    as (k' & v' & Ha' & Heq).
  rewrite Ha'. cbn [obind]. rewrite <- Heq. exact H.
Qed.

Lemma padded_features_do_not_matter_witness :
  ∃ out,
    Decoder_hoic.ca_forward hoic_cross_attention example_nodes example_patches
      example_distances = Ok out
    ∧ Decoder_hoic.ca_forward hoic_cross_attention example_nodes
        (mkBatchedSequences other_padding (mask example_patches))
        example_distances = Ok out.
Proof.
  eexists. split; [reflexivity|].
  apply (padded_features_do_not_matter hoic_cross_attention example_nodes
           example_patches other_padding example_distances).
  - repeat constructor; discriminate.
  - reflexivity.
  - repeat constructor.
  - repeat constructor.
  - reflexivity.
Defined.

End Decoder_padding_facts.
